(** * The ray-casting sensor of crowd_navigation_mt

    A shallow embedding of
    [sensors_depricated_PLR/ray_caster/ray_caster.py] and
    [sensors_depricated_PLR/ray_caster/ray_caster_camera.py]:
    the process-wide mesh registry with its de-duplicating loading pass,
    the per-sensor mesh binding, the drift reset, the per-tick buffer update
    with the two orientation modes, the dynamic mesh transform refresh and
    the camera's distance-to-image-plane channel.

    Conventions.
    - Python exceptions are values of [exn]; a computation that may raise
      returns [result].
    - Tensors are lists of rows; [x[ids]] is [index_select], [x[ids] = v] is
      [index_put], both raising [IndexError] out of range. Indices are
      natural numbers (Python's negative indices are left out).
    - Poses, velocities and distances are real numbers (the idealisation of
      the float32 tensors of the source); vertex coordinates are kept
      abstract behind [NumpyScalar], which only offers numpy's [==] and [*].
    - The physics engine, the USD stage and the intersection kernel are
      inputs of the functions that consult them. *)

From Stdlib Require Import Reals Lra RNsatz.
From stdpp Require Import gmap strings list fin_maps.

Set Default Proof Using "Type".

(** ** Exceptions *)

Inductive exn : Type :=
| RuntimeError (msg : string)
| KeyError (key : string)
| IndexError
| ZeroDivisionError
| AttributeError.

Inductive result (A : Type) : Type :=
| Ok (a : A)
| Raise (e : exn).
Arguments Ok {A} a.
Arguments Raise {A} e.

(** An exception ends the computation. *)
Definition bind {A B} (m : result A) (f : A -> result B) : result B :=
  match m with
  | Ok a => f a
  | Raise e => Raise e
  end.

Notation "'let*' x ':=' m 'in' k" := (bind m (fun x => k))
  (at level 10, x pattern, m at level 100, k at level 200).

#[global] Instance result_fmap : FMap result := fun A B f m =>
  match m with
  | Ok a => Ok (f a)
  | Raise e => Raise e
  end.
#[global] Instance result_ret : MRet result := fun A a => Ok a.
#[global] Instance result_bind : MBind result := fun A B f m => bind m f.

Definition is_Ok {A} (m : result A) : Prop := exists a, m = Ok a.

(** [d[key]] on a Python dict. *)
Definition dict_get {V} (d : gmap string V) (key : string) : result V :=
  match d !! key with
  | Some v => Ok v
  | None => Raise (KeyError key)
  end.

(** [l[i]] on a Python list or along the first axis of a tensor. *)
Definition list_get {A} (l : list A) (i : nat) : result A :=
  match l !! i with
  | Some x => Ok x
  | None => Raise IndexError
  end.

(** Python's [a // b] on non-negative integers. *)
Definition floordiv (a b : nat) : result nat :=
  match b with
  | O => Raise ZeroDivisionError
  | S _ => Ok (a / b)
  end.

(** Python's [l[a : a + n]]: slices never raise, they clip. *)
Definition py_slice {A} (l : list A) (a n : nat) : list A := take n (drop a l).

(** ** Tensor indexing *)

(** [x[ids]] with a sequence of indices: a fresh tensor with the selected
    rows. *)
Definition index_select {A} (x : list A) (ids : list nat) : result (list A) :=
  mapM (list_get x) ids.

(** Broadcasting of the assigned value along the first axis: a value with
    as many rows as there are targets is taken as it is, a single row is
    repeated, anything else is a shape error. *)
Definition broadcast_rows {A} (n : nat) (vals : list A) : result (list A) :=
  if decide (length vals = n) then Ok vals
  else match vals with
       | [v] => Ok (replicate n v)
       | _ => Raise (RuntimeError "shape mismatch")
       end.

Fixpoint put_rows {A} (x : list A) (ids : list nat) (vals : list A) : list A :=
  match ids, vals with
  | i :: ids', v :: vals' => put_rows (<[i := v]> x) ids' vals'
  | _, _ => x
  end.

(** [x[ids] = vals]: the rows named by [ids] are overwritten in order, so the
    last write to a row wins. *)
Definition index_put {A} (x : list A) (ids : list nat) (vals : list A)
  : result (list A) :=
  if forallb (fun i => bool_decide (i < length x)) ids then
    let* vs := broadcast_rows (length ids) vals in
    Ok (put_rows x ids vs)
  else Raise IndexError.

(** ** Vectors and quaternions *)

Definition vec3 : Type := R * R * R.

(** Quaternions are stored (w, x, y, z). *)
Definition quat : Type := R * R * R * R.

Definition zeros3 : vec3 := (0, 0, 0)%R.
Definition zeros4 : quat := (0, 0, 0, 0)%R.

Section Math.
Local Open Scope R_scope.

Definition vadd (a b : vec3) : vec3 :=
  let '(ax, ay, az) := a in
  let '(bx, by_, bz) := b in
  (ax + bx, ay + by_, az + bz).

Definition vscale (k : R) (a : vec3) : vec3 :=
  let '(ax, ay, az) := a in (k * ax, k * ay, k * az).

Definition cross (a b : vec3) : vec3 :=
  let '(ax, ay, az) := a in
  let '(bx, by_, bz) := b in
  (ay * bz - az * by_, az * bx - ax * bz, ax * by_ - ay * bx).

(** The first component, [v[..., 0]]. *)
Definition vec_x (a : vec3) : R := a.1.1.

(** [omni.isaac.lab.utils.math.quat_apply] (imported at ray_caster.py:23):
    [t = 2 * cross(xyz, vec); vec + w * t + cross(xyz, t)]. *)
Definition quat_apply (q : quat) (vec : vec3) : vec3 :=
  let '(w, x, y, z) := q in
  let xyz : vec3 := (x, y, z) in
  let t := vscale 2 (cross xyz vec) in
  vadd (vadd vec (vscale w t)) (cross xyz t).

(** [torch.atan2] on real arguments. *)
Definition atan2 (y x : R) : R :=
  if Rlt_dec 0 x then atan (y / x)
  else if Rlt_dec x 0 then
    (if Rle_dec 0 y then atan (y / x) + PI else atan (y / x) - PI)
  else if Rlt_dec 0 y then PI / 2
  else if Rlt_dec y 0 then - (PI / 2)
  else 0.

Definition eps : R := / 1000000000.

(** [omni.isaac.lab.utils.math.normalize] on a quaternion:
    [x / x.norm(p=2, dim=-1).clamp(min=eps)]. *)
Definition normalize (q : quat) : quat :=
  let '(w, x, y, z) := q in
  let n := Rmax (sqrt (w * w + x * x + y * y + z * z)) eps in
  (w / n, x / n, y / n, z / n).

(** [omni.isaac.lab.utils.math.yaw_quat]: the heading of a quaternion as a
    rotation about z. The arithmetic is that of the real numbers here; torch
    computes [atan2], [sin] and [cos] in float32, where for instance the
    cosine of half the float nearest to pi is not 0, so a value of this
    function stands for the float32 one only up to rounding. *)
Definition yaw_quat (q : quat) : quat :=
  let '(qw, qx, qy, qz) := q in
  let yaw := atan2 (2 * (qw * qz + qx * qy)) (1 - 2 * (qy * qy + qz * qz)) in
  normalize (cos (yaw / 2), 0, 0, sin (yaw / 2)).

(** [omni.isaac.lab.utils.math.quat_apply_yaw] (imported at
    ray_caster.py:23). *)
Definition quat_apply_yaw (q : quat) (vec : vec3) : vec3 :=
  quat_apply (yaw_quat q) vec.

Definition quat_conjugate (q : quat) : quat :=
  let '(w, x, y, z) := q in (w, - x, - y, - z).

(** [math_utils.quat_inv]: the normalised conjugate. *)
Definition quat_inv (q : quat) : quat := normalize (quat_conjugate q).

(** [math_utils.quat_mul]: the Hamilton product. *)
Definition quat_mul (q1 q2 : quat) : quat :=
  let '(w1, x1, y1, z1) := q1 in
  let '(w2, x2, y2, z2) := q2 in
  (w1 * w2 - x1 * x2 - y1 * y2 - z1 * z2,
   w1 * x2 + x1 * w2 + y1 * z2 - z1 * y2,
   w1 * y2 - x1 * z2 + y1 * w2 + z1 * x2,
   w1 * z2 + x1 * y2 - y1 * x2 + z1 * w2).

End Math.

(** ** Views and the physics engine *)

Inductive view_class : Type := XFormPrimView | ArticulationView | RigidBodyView.

Inductive prim_api : Type := ArticulationRootAPI | RigidBodyAPI | NoPhysicsAPI.

Record View : Type := { view_kind : view_class; view_path : string }.

(** Lines 163-172 and 262-274: the view class follows the physics API of
    the first matching prim, the generic transform view being the fallback.
    The view is kept under the expression it was made for (the source hands
    physx the same expression in glob syntax). *)
Definition create_view (api : prim_api) (prim_path : string) : View :=
  match api with
  | ArticulationRootAPI =>
      {| view_kind := ArticulationView; view_path := prim_path |}
  | RigidBodyAPI =>
      {| view_kind := RigidBodyView; view_path := prim_path |}
  | NoPhysicsAPI =>
      {| view_kind := XFormPrimView; view_path := prim_path |}
  end.

(** What the simulation holds for the prims of one view at one tick: world
    poses (position, quaternion w-x-y-z) and world velocities (linear,
    angular), one row per prim. *)
Record ViewState : Type := {
  poses : list (vec3 * quat);
  velocities : list (vec3 * vec3)
}.

(** The simulation at one tick, by view path. *)
Definition Physics : Type := string -> ViewState.

(** [view.count] *)
Definition view_count (phys : Physics) (view : View) : nat :=
  length (poses (phys (view_path view))).

(** Modelled from the spec: [compute_world_poses] of [..utils], which is not
    part of the sources at hand. It returns the world positions and the
    w-x-y-z orientations of the prims of a view, for the rows [env_ids] or
    for all rows when [env_ids] is [None], in one layout for the three view
    classes (as [_get_world_poses] at ray_caster_camera.py:408-435 does). *)
Definition compute_world_poses (phys : Physics) (view : View)
    (env_ids : option (list nat)) : result (list vec3 * list quat) :=
  let all := poses (phys (view_path view)) in
  let* rows :=
    (match env_ids with
     | None => Ok all
     | Some ids => index_select all ids
     end : result (list (vec3 * quat))) in
  Ok (fst <$> rows, snd <$> rows).

(** [_get_world_velocities] (lines 461-486). The last branch of the source
    (any other class raises [ValueError]) has no counterpart: [view_class]
    has the three classes only. *)
Definition _get_world_velocities (phys : Physics) (physxView : View)
    (env_ids : list nat) : result (list vec3 * list vec3) :=
  match view_kind physxView with
  | XFormPrimView =>
      let* (pos, _) := compute_world_poses phys physxView (Some env_ids) in
      let v_w := (fun _ : vec3 => zeros3) <$> pos in
      Ok (v_w, v_w)
  | ArticulationView =>
      let* rows := index_select (velocities (phys (view_path physxView))) env_ids in
      Ok (fst <$> rows, snd <$> rows)
  | RigidBodyView =>
      let* rows := index_select (velocities (phys (view_path physxView))) env_ids in
      Ok (fst <$> rows, snd <$> rows)
  end.

(** ** Geometry and the USD stage *)

(** What the loading pass needs of a numpy float: [==] and [*]. *)
Class NumpyScalar (F : Type) : Type := {
  np_eq : F -> F -> bool;
  np_mul : F -> F -> F
}.

#[global] Instance Z_NumpyScalar : NumpyScalar Z :=
  {| np_eq := Z.eqb; np_mul := Z.mul |}.

Section Registry.
Context {F : Type} `{NumpyScalar F}.

(** A [V x 3] vertex array. *)
Definition ndarray : Type := list (F * F * F).

Definition row_eq (p q : F * F * F) : bool :=
  np_eq p.1.1 q.1.1 && np_eq p.1.2 q.1.2 && np_eq p.2 q.2.

(** [reg_points.shape == points.shape and (reg_points == points).all()] *)
Definition same_points (reg_points points : ndarray) : bool :=
  bool_decide (length reg_points = length points)
  && forallb (fun pq => row_eq pq.1 pq.2) (zip reg_points points).

(** [points *= np.array(scale)] *)
Definition scale_points (points : ndarray) (scale : F * F * F) : ndarray :=
  (fun p => (np_mul p.1.1 scale.1.1, np_mul p.1.2 scale.1.2, np_mul p.2 scale.2))
    <$> points.

Record GeomPrim : Type := {
  vertices : ndarray;
  faces : list (nat * nat * nat);
  world_scale : F * F * F
}.

(** The parts of the USD stage the sensor reads. *)
Record Stage : Type := {
  (** [sim_utils.find_matching_prim_paths] *)
  find_matching_prim_paths : string -> list string;
  (** first child of a path whose type is a primitive shape, with the mesh
      [create_mesh_from_geom_shape] makes of it *)
  primitive_child : string -> option GeomPrim;
  (** first valid child of a path of type "Mesh", with the arrays
      [create_trimesh_from_geom_mesh] reads from it *)
  mesh_child : string -> option GeomPrim;
  (** the physics API of [sim_utils.find_first_matching_prim], [None] when
      no prim matches *)
  first_prim_api : string -> option prim_api
}.

(** ** The process-wide registry *)

(** A warp mesh is known by its 64-bit id. *)
Record wp_Mesh : Type := { mesh_id : N }.

#[global] Instance wp_Mesh_eq_dec : EqDecision wp_Mesh.
Proof. solve_decision. Defined.

(** The class attributes [RayCaster.meshes] and [RayCaster.mesh_views],
    the meshes living on the warp device, in upload order, and the paths
    handed to the geometry readers, in call order. *)
Record Process : Type := {
  meshes : gmap string (list (list wp_Mesh));
  mesh_views : gmap string View;
  device : list (ndarray * list (nat * nat * nat));
  extracted : list string
}.

Definition empty_process : Process :=
  {| meshes := ∅; mesh_views := ∅; device := []; extracted := [] |}.

(** The loop of [_registered_points_idx] from position [idx] on. *)
Fixpoint registered_from (idx : nat) (points : ndarray)
    (registered_points : list (option ndarray)) : Z :=
  match registered_points with
  | [] => (-1)%Z
  | None :: rest => registered_from (S idx) points rest
  | Some reg_points :: rest =>
      if same_points reg_points points then Z.of_nat idx
      else registered_from (S idx) points rest
  end.

(** [_registered_points_idx]: the index of the first registered array equal
    to [points], otherwise -1. *)
Definition _registered_points_idx (points : ndarray)
    (registered_points : list (option ndarray)) : Z :=
  registered_from 0 points registered_points.

(** [convert_to_warp_mesh]: uploads the arrays and returns a new mesh. *)
Definition convert_to_warp_mesh (points : ndarray) (fs : list (nat * nat * nat))
    (dev : list (ndarray * list (nat * nat * nat)))
  : wp_Mesh * list (ndarray * list (nat * nat * nat)) :=
  ({| mesh_id := N.of_nat (length dev) |}, dev ++ [(points, fs)]).

(** The two local lists of one resolution pass. *)
Record LoadPass : Type := {
  loaded_vertices : list (option ndarray);
  wp_meshes : list wp_Mesh
}.

(** Lines 213-222 and 230-239: scale, look the array up among the ones
    loaded in this pass, and either reference the mesh found or upload. *)
Definition reference_or_upload (g : GeomPrim) (lp : LoadPass)
    (dev : list (ndarray * list (nat * nat * nat)))
  : result (LoadPass * list (ndarray * list (nat * nat * nat))) :=
  let points := scale_points (vertices g) (world_scale g) in
  let registered_idx := _registered_points_idx points (loaded_vertices lp) in
  if decide (registered_idx ≠ (-1)%Z) then
    let* wp_mesh := list_get (wp_meshes lp) (Z.to_nat registered_idx) in
    Ok ({| loaded_vertices := loaded_vertices lp ++ [None];
           wp_meshes := wp_meshes lp ++ [wp_mesh] |}, dev)
  else
    let '(wp_mesh, dev') := convert_to_warp_mesh points (faces g) dev in
    Ok ({| loaded_vertices := loaded_vertices lp ++ [Some points];
           wp_meshes := wp_meshes lp ++ [wp_mesh] |}, dev').

(** The body of [for path in paths] (lines 196-242). *)
Definition load_path (stage : Stage) (path : string)
    (lp : LoadPass) (dev : list (ndarray * list (nat * nat * nat)))
    (calls : list string)
  : result (LoadPass * list (ndarray * list (nat * nat * nat)) * list string) :=
  match primitive_child stage path with
  | None =>
      match mesh_child stage path with
      | None => Raise (RuntimeError "Invalid mesh prim path")
      | Some g =>
          let* (lp', dev') := reference_or_upload g lp dev in
          Ok (lp', dev', calls ++ [path])
      end
  | Some g =>
      let* (lp', dev') := reference_or_upload g lp dev in
      Ok (lp', dev', calls ++ [path])
  end.

Fixpoint load_paths (stage : Stage) (paths : list string)
    (lp : LoadPass) (dev : list (ndarray * list (nat * nat * nat)))
    (calls : list string)
  : result (LoadPass * list (ndarray * list (nat * nat * nat)) * list string) :=
  match paths with
  | [] => Ok (lp, dev, calls)
  | path :: rest =>
      let* (lp', dev', calls') := load_path stage path lp dev calls in
      load_paths stage rest lp' dev' calls'
  end.

(** The geometry the loading pass reads for a path: the primitive shape
    when there is one, the mesh otherwise. *)
Definition path_geom (stage : Stage) (path : string) : option GeomPrim :=
  match primitive_child stage path with
  | Some g => Some g
  | None => mesh_child stage path
  end.

(** The arrays a pass uploaded: the entries of [loaded_vertices] that are
    not [None], in order. *)
Definition uploaded_arrays (loaded : list (option ndarray)) : list ndarray :=
  omap (fun entry : option ndarray => entry) loaded.

(** The scaled vertex array of a path. *)
Definition path_points (stage : Stage) (path : string) : option ndarray :=
  (fun g => scale_points (vertices g) (world_scale g)) <$> path_geom stage path.

(** What the pass decided for one path, given the lists as they stood
    before it. *)
Definition dedup_step (points : ndarray)
    (loaded_before : list (option ndarray)) (wp_before : list wp_Mesh)
    (entry : option ndarray) (m : wp_Mesh) : Prop :=
  (entry = None /\
   exists i v, loaded_before !! i = Some (Some v) /\
               same_points v points = true /\
               wp_before !! i = Some m)
  \/
  (entry = Some points /\
   forall i v, loaded_before !! i = Some (Some v) ->
               same_points v points = false).

(** ** Targets and the per-sensor binding *)

Record RaycastTargetCfg : Type := {
  target_prim_expr : string;
  is_global : bool
}.

(** An entry of [cfg.mesh_prim_paths]: a bare string or a target
    configuration. *)
Inductive mesh_prim_path_entry : Type :=
| StrTarget (expr : string)
| CfgTarget (target : RaycastTargetCfg).

(** The loop of [__init__] (lines 96-101): bare strings are global
    targets. *)
Definition resolve_targets (mesh_prim_paths : list mesh_prim_path_entry)
  : list RaycastTargetCfg :=
  (fun target =>
     match target with
     | StrTarget expr => {| target_prim_expr := expr; is_global := true |}
     | CfgTarget t => t
     end) <$> mesh_prim_paths.

(** Lines 261-274. *)
Definition create_mesh_view (stage : Stage) (mesh_prim_path : string)
  : result View :=
  match first_prim_api stage mesh_prim_path with
  | None => Raise AttributeError
  | Some api => Ok (create_view api mesh_prim_path)
  end.

(** The loop of lines 255-257. *)
Fixpoint split_envs (wp : list wp_Mesh) (n_meshes_per_env mesh_idx iters : nat)
  : list (list wp_Mesh) :=
  match iters with
  | O => []
  | S k =>
      py_slice wp mesh_idx n_meshes_per_env
      :: split_envs wp n_meshes_per_env (mesh_idx + n_meshes_per_env) k
  end.

(** Lines 244-257: the registry entry and the recorded number of meshes per
    environment. *)
Definition partition_meshes (target_is_global : bool) (wp : list wp_Mesh)
    (num_envs : nat) : result (list (list wp_Mesh) * nat) :=
  if target_is_global then Ok (replicate num_envs wp, 1)
  else
    let* n_meshes_per_env := floordiv (length wp) num_envs in
    Ok (split_envs wp n_meshes_per_env 0 num_envs, n_meshes_per_env).

(** One iteration of [for target_cfg in self._raycast_targets_cfg]
    (lines 183-274). *)
Definition initialize_target (stage : Stage) (num_envs : nat) (track : bool)
    (target_cfg : RaycastTargetCfg) (proc : Process)
    (counts : gmap string nat) : result (Process * gmap string nat) :=
  let mesh_prim_path := target_prim_expr target_cfg in
  match meshes proc !! mesh_prim_path with
  | Some cached =>
      let* n := floordiv (length cached) num_envs in
      Ok (proc, <[mesh_prim_path := n]> counts)
  | None =>
      let paths := find_matching_prim_paths stage mesh_prim_path in
      if decide (length paths = 0) then
        Raise (RuntimeError "Failed to find a prim at path expression")
      else
        let* (lp, dev, calls) :=
          load_paths stage paths
            {| loaded_vertices := []; wp_meshes := [] |}
            (device proc) (extracted proc) in
        let* (entry, n) := partition_meshes (is_global target_cfg) (wp_meshes lp) num_envs in
        let* views :=
          (if track
           then let* view := create_mesh_view stage mesh_prim_path in
                Ok (<[mesh_prim_path := view]> (mesh_views proc))
           else Ok (mesh_views proc) : result (gmap string View)) in
        Ok ({| meshes := <[mesh_prim_path := entry]> (meshes proc);
               mesh_views := views;
               device := dev;
               extracted := calls |},
            <[mesh_prim_path := n]> counts)
  end.

Fixpoint initialize_targets (stage : Stage) (num_envs : nat) (track : bool)
    (targets : list RaycastTargetCfg) (proc : Process)
    (counts : gmap string nat) : result (Process * gmap string nat) :=
  match targets with
  | [] => Ok (proc, counts)
  | target_cfg :: rest =>
      let* (proc', counts') := initialize_target stage num_envs track target_cfg proc counts in
      initialize_targets stage num_envs track rest proc' counts'
  end.

(** What [_initialize_warp_meshes] leaves on the sensor. *)
Record Binding : Type := {
  _num_meshes_per_env : gmap string nat;
  _meshes : list (list wp_Mesh);
  _mesh_views : list View;
  _mesh_ids_wp : list (list N);
  _mesh_positions_w : list (list vec3);
  _mesh_orientations_w : list (list quat)
}.

(** [sum(self._num_meshes_per_env.values())] *)
Definition total_n_meshes_per_env (counts : gmap string nat) : nat :=
  map_fold (fun _ n acc => n + acc) 0 counts.

(** Lines 302-306. *)
Definition meshes_in_env (registry : gmap string (list (list wp_Mesh)))
    (targets : list RaycastTargetCfg) (env_idx : nat) : result (list wp_Mesh) :=
  let* per_target :=
    mapM (fun target_cfg =>
            let* entry := dict_get registry (target_prim_expr target_cfg) in
            list_get entry env_idx) targets in
  Ok (concat per_target).

(** [wp.array2d] of a list of rows: the rows must have one length. *)
Definition array2d (rows : list (list N)) : result (list (list N)) :=
  match rows with
  | [] => Ok []
  | r :: _ =>
      if forallb (fun r' => bool_decide (length r' = length r)) rows then Ok rows
      else Raise (RuntimeError "inhomogeneous shape")
  end.

(** [RayCaster._initialize_warp_meshes] (lines 182-314) for a sensor with a
    fresh [_num_meshes_per_env]. *)
Definition _initialize_warp_meshes (stage : Stage) (num_envs : nat)
    (track : bool) (targets : list RaycastTargetCfg) (proc : Process)
  : result (Binding * Process) :=
  let* (proc', counts) := initialize_targets stage num_envs track targets proc ∅ in
  (if forallb (fun target_cfg =>
                bool_decide (meshes proc' !! target_prim_expr target_cfg = None))
       targets
  then Raise (RuntimeError "No meshes found for ray-casting!")
  else
    let total := total_n_meshes_per_env counts in
    let* bound := mapM (meshes_in_env (meshes proc') targets) (seq 0 num_envs) in
    let* views :=
      (if track
       then mapM (fun target_cfg =>
                    dict_get (mesh_views proc') (target_prim_expr target_cfg))
              targets
       else Ok ([] : list View)) in
    let* ids := array2d ((fun b : list wp_Mesh => mesh_id <$> b) <$> bound) in
    Ok ({| _num_meshes_per_env := counts;
           _meshes := bound;
           _mesh_views := views;
           _mesh_ids_wp := ids;
           _mesh_positions_w :=
             if track then replicate num_envs (replicate total zeros3) else [];
           _mesh_orientations_w :=
             if track then replicate num_envs (replicate total zeros4) else [] |},
        proc')) : result (Binding * Process).

End Registry.

Arguments ndarray F : clear implicits.
Arguments GeomPrim F : clear implicits.
Arguments Stage F : clear implicits.
Arguments Process F : clear implicits.
Arguments LoadPass F : clear implicits.

(** ** The sensor *)

Record RayCasterCfg : Type := {
  prim_path : string;
  mesh_prim_paths : list mesh_prim_path_entry;
  attach_yaw_only : bool;
  track_mesh_transforms : bool;
  drift_range : R * R;
  max_distance : R;
  (** [cfg.offset.pos] and [cfg.offset.rot] *)
  offset_pos : vec3;
  offset_rot : quat;
  (** what [cfg.pattern_cfg.func] returns: ray starts and directions *)
  pattern : list vec3 * list vec3
}.

Record RayCasterData : Type := {
  pos_w : list vec3;
  quat_w : list quat;
  vel_w : list vec3;
  rot_vel_w : list vec3;
  ray_hits_w : list (list vec3)
}.

Record RayCaster : Type := {
  cfg : RayCasterCfg;
  _num_envs : nat;
  _view : View;
  _raycast_targets_cfg : list RaycastTargetCfg;
  _binding : Binding;
  ray_starts : list (list vec3);
  ray_directions : list (list vec3);
  num_rays : nat;
  drift : list vec3;
  _data : RayCasterData
}.

Definition set_drift (self : RayCaster) (d : list vec3) : RayCaster :=
  {| cfg := cfg self; _num_envs := _num_envs self; _view := _view self;
     _raycast_targets_cfg := _raycast_targets_cfg self;
     _binding := _binding self;
     ray_starts := ray_starts self; ray_directions := ray_directions self;
     num_rays := num_rays self; drift := d; _data := _data self |}.

Definition set_data (self : RayCaster) (d : RayCasterData) : RayCaster :=
  {| cfg := cfg self; _num_envs := _num_envs self; _view := _view self;
     _raycast_targets_cfg := _raycast_targets_cfg self;
     _binding := _binding self;
     ray_starts := ray_starts self; ray_directions := ray_directions self;
     num_rays := num_rays self; drift := drift self; _data := d |}.

Definition set_binding (self : RayCaster) (b : Binding) : RayCaster :=
  {| cfg := cfg self; _num_envs := _num_envs self; _view := _view self;
     _raycast_targets_cfg := _raycast_targets_cfg self;
     _binding := b;
     ray_starts := ray_starts self; ray_directions := ray_directions self;
     num_rays := num_rays self; drift := drift self; _data := _data self |}.

Definition set_mesh_transforms (b : Binding) (positions : list (list vec3))
    (orientations : list (list quat)) : Binding :=
  {| _num_meshes_per_env := _num_meshes_per_env b;
     _meshes := _meshes b;
     _mesh_views := _mesh_views b;
     _mesh_ids_wp := _mesh_ids_wp b;
     _mesh_positions_w := positions;
     _mesh_orientations_w := orientations |}.

(** [RayCaster._initialize_impl] (lines 149-180) with
    [_initialize_rays_impl] (lines 316-341): the view of the sensor prim, the
    mesh binding, the rays repeated for each sensor and the zeroed buffers.
    [num_envs] is the environment count kept by the base class. *)
Definition _initialize_impl {F} `{NumpyScalar F} (stage : Stage F)
    (phys : Physics) (num_envs : nat) (c : RayCasterCfg) (proc : Process F)
  : result (RayCaster * Process F) :=
  match first_prim_api stage (prim_path c) with
  | None => Raise (RuntimeError "Failed to find a prim at path expression")
  | Some api =>
      let view := create_view api (prim_path c) in
      let targets := resolve_targets (mesh_prim_paths c) in
      let* (b, proc') :=
        _initialize_warp_meshes stage num_envs (track_mesh_transforms c)
          targets proc in
      let count := view_count phys view in
      let starts := vadd (offset_pos c) <$> (pattern c).1 in
      let directions := quat_apply (offset_rot c) <$> (pattern c).2 in
      let n_rays := length (pattern c).2 in
      Ok ({| cfg := c; _num_envs := num_envs; _view := view;
             _raycast_targets_cfg := targets;
             _binding := b;
             ray_starts := replicate count starts;
             ray_directions := replicate count directions;
             num_rays := n_rays;
             drift := replicate count zeros3;
             _data :=
               {| pos_w := replicate count zeros3;
                  quat_w := replicate count zeros4;
                  vel_w := replicate count zeros3;
                  rot_vel_w := replicate count zeros3;
                  ray_hits_w := replicate count (replicate n_rays zeros3) |} |},
          proc')
  end.

(** ** Reset *)

(** The argument of [reset]: [None] or a sequence of indices. *)
Inductive env_selection : Type :=
| AllEnvs
| EnvIds (ids : list nat).

(** [RayCaster.reset] (lines 135-143). [uniform k] is the vector the
    generator draws, within [cfg.drift_range], for row [k] of the tensor
    [uniform_] fills.

    Line 142 makes a new zero tensor for every sensor of the view. On line
    143 [self.drift[env_ids]] with [env_ids = slice(None)] is a view of
    [self.drift], so the in-place fill reaches it; with a sequence of indices
    it is the fresh tensor of [index_select], which the fill changes and
    nothing keeps. The timestamps reset by the base class
    ([super().reset], sensor_base.py) are not part of this model. *)
Definition reset (phys : Physics) (self : RayCaster) (env_ids : env_selection)
    (uniform : nat -> vec3) : result RayCaster :=
  let zero_drift := replicate (view_count phys (_view self)) zeros3 in
  match env_ids with
  | AllEnvs =>
      Ok (set_drift self (imap (fun k _ => uniform k) zero_drift))
  | EnvIds ids =>
      let* selected := index_select zero_drift ids in
      let _filled := imap (fun k (_ : vec3) => uniform k) selected in
      Ok (set_drift self zero_drift)
  end.

(** ** The intersection kernel *)

(** What [raycast_dynamic_meshes] returns: hit positions, distances and
    normals per sensor and ray. *)
Record KernelOut : Type := {
  hits : list (list vec3);
  depth : list (list R);
  normal : list (list vec3)
}.

(** The kernel is an input: ray starts, ray directions, the mesh id table,
    the maximum distance, the mesh transforms when tracked, and the two
    flags [return_distance] and [return_normal]. *)
Definition Kernel : Type :=
  list (list vec3) -> list (list vec3) -> list (list N) -> R ->
  option (list (list vec3) * list (list quat)) -> bool -> bool -> KernelOut.

(** ** Dynamic mesh transforms *)

(** [row[a : a + c] = vals] on one row of the buffer: the slice is clipped
    to the row and [vals] is broadcast to its width. *)
Definition assign_cols_row {A} (row : list A) (a c : nat) (vals : list A)
  : result (list A) :=
  let lo := a `min` length row in
  let hi := (a + c) `min` length row in
  let* vs := broadcast_rows (hi - lo) vals in
  Ok (take lo row ++ vs ++ drop hi row).

Fixpoint zip_assign {A} (buf : list (list A)) (a c : nat)
    (rows : list (list A)) : result (list (list A)) :=
  match buf, rows with
  | row :: buf', vals :: rows' =>
      let* row' := assign_cols_row row a c vals in
      let* rest := zip_assign buf' a c rows' in
      Ok (row' :: rest)
  | _, _ => Ok []
  end.

(** [buf[:, a : a + c] = src] for a source with one row of values per
    environment. *)
Definition assign_cols {A} (buf : list (list A)) (a c : nat)
    (src : list (list A)) : result (list (list A)) :=
  let* rows := broadcast_rows (length buf) src in
  zip_assign buf a c rows.

(** [t.view(num_envs, count, -)] of a tensor with [num_envs * count] rows. *)
Fixpoint chunks {A} (count : nat) (t : list A) (num_envs : nat)
  : list (list A) :=
  match num_envs with
  | O => []
  | S k => take count t :: chunks count (drop count t) k
  end.

Definition torch_view {A} (t : list A) (num_envs count : nat)
  : result (list (list A)) :=
  if decide (length t = num_envs * count) then Ok (chunks count t num_envs)
  else Raise (RuntimeError "shape is invalid for input size").

(** The body of the loop of lines 380-394 for one tensor of poses: a global
    target's rows go to every environment, a local target's rows are
    reshaped per environment. Returns the buffer and the per-environment
    count by which [mesh_idx] advances. *)
Definition write_target {A} (buf : list (list A)) (num_envs : nat)
    (target_is_global : bool) (mesh_idx : nat) (rows : list A)
  : result (list (list A) * nat) :=
  let count := length rows in
  if target_is_global then
    let* buf' := assign_cols buf mesh_idx count [rows] in
    Ok (buf', count)
  else
    let* count := floordiv count num_envs in
    let* shaped := torch_view rows num_envs count in
    let* buf' := assign_cols buf mesh_idx count shaped in
    Ok (buf', count).

(** Lines 377-394: the refresh of the mesh transforms, over
    [zip(self._mesh_views, self._raycast_targets_cfg)]. *)
Fixpoint refresh_transforms (phys : Physics) (num_envs : nat)
    (views : list View) (targets : list RaycastTargetCfg) (mesh_idx : nat)
    (positions : list (list vec3)) (orientations : list (list quat))
  : result (list (list vec3) * list (list quat)) :=
  match views, targets with
  | view :: views', target_cfg :: targets' =>
      let* (pos, ori) := compute_world_poses phys view None in
      let* (positions', count) :=
        write_target positions num_envs (is_global target_cfg) mesh_idx pos in
      let* (orientations', _) :=
        write_target orientations num_envs (is_global target_cfg) mesh_idx ori in
      refresh_transforms phys num_envs views' targets' (mesh_idx + count)
        positions' orientations'
  | _, _ => Ok (positions, orientations)
  end.

(** The refresh when tracking is on, with the transforms handed to the
    kernel ([self._mesh_positions_w[env_ids]]). *)
Definition tracked_transforms (phys : Physics) (self : RayCaster)
    (env_ids : list nat)
  : result (Binding * option (list (list vec3) * list (list quat))) :=
  if track_mesh_transforms (cfg self) then
    let b := _binding self in
    let* (positions, orientations) :=
      refresh_transforms phys (_num_envs self) (_mesh_views b)
        (_raycast_targets_cfg self) 0
        (_mesh_positions_w b) (_mesh_orientations_w b) in
    let* mp := index_select positions env_ids in
    let* mo := index_select orientations env_ids in
    Ok (set_mesh_transforms b positions orientations, Some (mp, mo))
  else Ok (_binding self, None).

(** ** The update *)

(** Lines 364-375: the rays of the selected sensors in the world frame. *)
Definition world_rays (yaw_only : bool) (quats : list quat) (pos : list vec3)
    (starts directions : list (list vec3))
  : list (list vec3) * list (list vec3) :=
  let rotate := if yaw_only then quat_apply_yaw else quat_apply in
  (zip_with (fun qp row => (fun v => vadd (rotate qp.1 v) qp.2) <$> row)
     (zip quats pos) starts,
   zip_with (fun q row => rotate q <$> row) quats directions).

Arguments world_rays : simpl never.

(** [RayCaster._update_buffers_impl] (lines 343-403). *)
Definition _update_buffers_impl (kernel : Kernel) (phys : Physics)
    (self : RayCaster) (env_ids : list nat) : result RayCaster :=
  let data := _data self in
  let* (pos, quats) := compute_world_poses phys (_view self) (Some env_ids) in
  let* d := index_select (drift self) env_ids in
  let pos := zip_with vadd pos d in
  let* pos_w' := index_put (pos_w data) env_ids pos in
  let* quat_w' := index_put (quat_w data) env_ids quats in
  let* (v, omega) := _get_world_velocities phys (_view self) env_ids in
  let* vel_w' := index_put (vel_w data) env_ids v in
  let* rot_vel_w' := index_put (rot_vel_w data) env_ids omega in
  let* starts := index_select (ray_starts self) env_ids in
  let* directions := index_select (ray_directions self) env_ids in
  let '(ray_starts_w, ray_directions_w) :=
    world_rays (attach_yaw_only (cfg self)) quats pos starts directions in
  let* (b, transforms) := tracked_transforms phys self env_ids in
  let out :=
    kernel ray_starts_w ray_directions_w (_mesh_ids_wp b)
      (max_distance (cfg self)) transforms false false in
  let* ray_hits_w' := index_put (ray_hits_w data) env_ids (hits out) in
  Ok (set_data (set_binding self b)
        {| pos_w := pos_w'; quat_w := quat_w'; vel_w := vel_w';
           rot_vel_w := rot_vel_w'; ray_hits_w := ray_hits_w' |}).

(** ** The camera *)

Record CameraData : Type := {
  cam_pos_w : list vec3;
  quat_w_world : list quat;
  (** [output["distance_to_image_plane"]], [output["distance_to_camera"]]
      and [output["normals"]]: one image per sensor *)
  distance_to_image_plane : list (list (list R));
  distance_to_camera : list (list (list R));
  normals : list (list (list vec3))
}.

(** An initialised [RayCasterCamera]: the ray caster it extends and its own
    attributes. [image_shape] is (height, width). *)
Record RayCasterCamera : Type := {
  caster : RayCaster;
  data_types : list string;
  image_shape : nat * nat;
  _offset_pos : list vec3;
  _offset_quat : list quat;
  _frame : list nat;
  _cam_data : CameraData;
  cam_ray_hits_w : list (list vec3)
}.

(** [RayCasterCamera._compute_camera_world_poses] (lines 385-400). *)
Definition _compute_camera_world_poses (phys : Physics)
    (self : RayCasterCamera) (env_ids : list nat)
  : result (list vec3 * list quat) :=
  let* (pos, quats) :=
    compute_world_poses phys (_view (caster self)) (Some env_ids) in
  let* off_pos := index_select (_offset_pos self) env_ids in
  let* off_quat := index_select (_offset_quat self) env_ids in
  Ok (zip_with (fun pq o => vadd pq.1 (quat_apply pq.2 o)) (zip pos quats) off_pos,
      zip_with quat_mul quats off_quat).

(** [t.view(-1, height, width)] of a tensor of rows. *)
Definition image_view {A} (t : list (list A)) (height width : nat)
  : result (list (list (list A))) :=
  let flat := concat t in
  let size := height * width in
  if decide (size ≠ 0 ∧ length flat `mod` size = 0) then
    Ok ((fun img => chunks width img height)
          <$> chunks size flat (length flat / size))
  else Raise (RuntimeError "shape is invalid for input size").

(** Lines 303-308: per sensor and ray, the hit vector (distance times world
    direction) rotated by the inverse camera orientation, first component. *)
Definition image_plane_distances (quats : list quat)
    (ray_depth : list (list R)) (ray_directions_w : list (list vec3))
  : list (list R) :=
  zip_with
    (fun q dd =>
       zip_with (fun d dir => vec_x (quat_apply (quat_inv q) (vscale d dir)))
         dd.1 dd.2)
    quats (zip ray_depth ray_directions_w).

(** [name in self.cfg.data_types] *)
Definition configured (self : RayCasterCamera) (name : string) : bool :=
  bool_decide (name ∈ data_types self).

(** [RayCasterCamera._update_buffers_impl] (lines 252-315). *)
Definition camera_update_buffers_impl (kernel : Kernel) (phys : Physics)
    (self : RayCasterCamera) (env_ids : list nat) : result RayCasterCamera :=
  let base := caster self in
  let cam := _cam_data self in
  let* frames := index_select (_frame self) env_ids in
  let* frame' := index_put (_frame self) env_ids (S <$> frames) in
  let* (pos, quats) := _compute_camera_world_poses phys self env_ids in
  let* cam_pos_w' := index_put (cam_pos_w cam) env_ids pos in
  let* quat_w_world' := index_put (quat_w_world cam) env_ids quats in
  let* starts := index_select (ray_starts base) env_ids in
  let* directions := index_select (ray_directions base) env_ids in
  let '(ray_starts_w, ray_directions_w) :=
    world_rays false quats pos starts directions in
  let* (b, transforms) := tracked_transforms phys base env_ids in
  let out :=
    kernel ray_starts_w ray_directions_w (_mesh_ids_wp b)
      (max_distance (cfg base)) transforms
      (configured self "distance_to_image_plane"
       || configured self "distance_to_camera")
      (configured self "normals") in
  let* plane' :=
    (if configured self "distance_to_image_plane" then
       let* images :=
         image_view (image_plane_distances quats (depth out) ray_directions_w)
           (image_shape self).1 (image_shape self).2 in
       index_put (distance_to_image_plane cam) env_ids images
     else Ok (distance_to_image_plane cam)) in
  let* camera' :=
    (if configured self "distance_to_camera" then
       let* images :=
         image_view (depth out) (image_shape self).1 (image_shape self).2 in
       index_put (distance_to_camera cam) env_ids images
     else Ok (distance_to_camera cam)) in
  let* normals' :=
    (if configured self "normals" then
       let* images :=
         image_view (normal out) (image_shape self).1 (image_shape self).2 in
       index_put (normals cam) env_ids images
     else Ok (normals cam)) in
  Ok {| caster := set_binding base b;
        data_types := data_types self;
        image_shape := image_shape self;
        _offset_pos := _offset_pos self;
        _offset_quat := _offset_quat self;
        _frame := frame';
        _cam_data :=
          {| cam_pos_w := cam_pos_w';
             quat_w_world := quat_w_world';
             distance_to_image_plane := plane';
             distance_to_camera := camera';
             normals := normals' |};
        cam_ray_hits_w := hits out |}.

(** ** The orientation mode *)



(** The buffers of a sensor have one row per prim of its view, as
    [_initialize_rays_impl] allocates them. *)
Definition sized (phys : Physics) (self : RayCaster) : Prop :=
  let n := view_count phys (_view self) in
  length (velocities (phys (view_path (_view self)))) = n /\
  length (drift self) = n /\
  length (ray_starts self) = n /\
  length (ray_directions self) = n /\
  length (pos_w (_data self)) = n /\
  length (quat_w (_data self)) = n /\
  length (vel_w (_data self)) = n /\
  length (rot_vel_w (_data self)) = n /\
  length (ray_hits_w (_data self)) = n.

(** The kernel returns one row of hits per row of rays. *)
Definition shape_preserving (kernel : Kernel) : Prop :=
  forall starts directions ids max_dist transforms want_distance want_normal,
    length (hits (kernel starts directions ids max_dist transforms
                    want_distance want_normal))
    = length starts.

(** The velocity buffers of a sensor behind the generic transform view hold
    zeros only. *)
Definition zero_velocities (self : RayCaster) : Prop :=
  view_kind (_view self) = XFormPrimView /\
  Forall (eq zeros3) (vel_w (_data self)) /\
  Forall (eq zeros3) (rot_vel_w (_data self)).

(** ** Sequences of operations on one sensor *)

Inductive sensor_op : Type :=
| OpUpdate (phys : Physics) (env_ids : list nat)
| OpReset (phys : Physics) (env_ids : env_selection) (uniform : nat -> vec3).

Definition apply_op (kernel : Kernel) (self : RayCaster) (op : sensor_op)
  : result RayCaster :=
  match op with
  | OpUpdate phys env_ids => _update_buffers_impl kernel phys self env_ids
  | OpReset phys env_ids uniform => reset phys self env_ids uniform
  end.

Fixpoint run_ops (kernel : Kernel) (self : RayCaster) (ops : list sensor_op)
  : result RayCaster :=
  match ops with
  | [] => Ok self
  | op :: rest =>
      let* self' := apply_op kernel self op in
      run_ops kernel self' rest
  end.

(** ** A scene with three environments

    Each environment holds a robot and two obstacles; the two obstacle
    shapes are the same in every environment. The ground plane is shared. *)

Definition ground_expr : string := "/World/ground".
Definition obstacle_expr : string := "/World/envs/env_.*/obstacle_.*".
Definition base_expr : string := "/World/envs/env_.*/Robot/base".
Definition frame_expr : string := "/World/envs/env_.*/Robot/lidar_frame".

Definition obstacle_paths : list string :=
  ["/World/envs/env_0/obstacle_0"; "/World/envs/env_0/obstacle_1";
   "/World/envs/env_1/obstacle_0"; "/World/envs/env_1/obstacle_1";
   "/World/envs/env_2/obstacle_0"; "/World/envs/env_2/obstacle_1"].

Definition triangle (a : Z) : GeomPrim Z :=
  {| vertices := [(a, 0, 0); (0, a, 0); (0, 0, a)]%Z;
     faces := [(0, 1, 2)];
     world_scale := (1, 1, 1)%Z |}.

Definition demo_stage : Stage Z :=
  {| find_matching_prim_paths := fun expr =>
       if decide (expr = obstacle_expr) then obstacle_paths
       else if decide (expr = ground_expr) then [ground_expr]
       else [];
     primitive_child := fun path =>
       if decide (path = ground_expr) then Some (triangle 9) else None;
     mesh_child := fun path =>
       if decide (path ∈ ["/World/envs/env_0/obstacle_0";
                          "/World/envs/env_1/obstacle_0";
                          "/World/envs/env_2/obstacle_0"])
       then Some (triangle 1)
       else if decide (path ∈ ["/World/envs/env_0/obstacle_1";
                               "/World/envs/env_1/obstacle_1";
                               "/World/envs/env_2/obstacle_1"])
       then Some (triangle 2)
       else None;
     first_prim_api := fun expr =>
       if decide (expr = obstacle_expr) then Some RigidBodyAPI
       else if decide (expr = base_expr) then Some ArticulationRootAPI
       else if decide (expr = frame_expr) then Some NoPhysicsAPI
       else if decide (expr = ground_expr) then Some NoPhysicsAPI
       else None |}.

Definition identity_quat : quat := (1, 0, 0, 0)%R.

(** The third robot is turned by half a turn about z. *)
Definition demo_robots : ViewState :=
  {| poses := [((0, 0, 1), identity_quat);
               ((10, 0, 1), identity_quat);
               ((20, 0, 1), (0, 0, 0, 1))]%R;
     velocities := [((1, 0, 0), (0, 0, 1));
                    ((2, 0, 0), (0, 0, 1));
                    ((3, 0, 0), (0, 0, 1))]%R |}.

Definition demo_obstacles : ViewState :=
  {| poses := [((1, 1, 0), identity_quat); ((1, 2, 0), identity_quat);
               ((11, 1, 0), identity_quat); ((11, 2, 0), identity_quat);
               ((21, 1, 0), identity_quat); ((21, 2, 0), identity_quat)]%R;
     velocities := replicate 6 (zeros3, zeros3) |}.

Definition demo_phys : Physics := fun path =>
  if decide (path = base_expr) then demo_robots
  else if decide (path = frame_expr) then demo_robots
  else if decide (path = obstacle_expr) then demo_obstacles
  else if decide (path = ground_expr)
       then {| poses := [(zeros3, identity_quat)];
               velocities := [(zeros3, zeros3)] |}
  else {| poses := []; velocities := [] |}.

(** A kernel that reports a miss for every ray: the capped point and the
    maximum distance. *)
Definition miss_kernel : Kernel :=
  fun starts directions _ max_dist _ _ _ =>
    {| hits :=
         zip_with (zip_with (fun o dir => vadd o (vscale max_dist dir)))
           starts directions;
       depth :=
         (fun row : list vec3 => (fun _ : vec3 => max_dist) <$> row)
           <$> directions;
       normal :=
         (fun row : list vec3 => (fun _ : vec3 => zeros3) <$> row)
           <$> directions |}.

(** One ray straight down; drift is drawn from [1, 2]. *)
Definition demo_cfg (sensor_prim : string) (targets : list mesh_prim_path_entry)
    (track : bool) : RayCasterCfg :=
  {| prim_path := sensor_prim;
     mesh_prim_paths := targets;
     attach_yaw_only := true;
     track_mesh_transforms := track;
     drift_range := (1, 2)%R;
     max_distance := 100%R;
     offset_pos := zeros3;
     offset_rot := identity_quat;
     pattern := ([zeros3], [(0, 0, -1)%R]) |}.

(** A sensor on the robot base (an articulation root) and one on a plain
    frame of the robot, both against the ground plane. *)
Definition base_sensor_cfg : RayCasterCfg :=
  demo_cfg base_expr [StrTarget ground_expr] false.

Definition frame_sensor_cfg : RayCasterCfg :=
  demo_cfg frame_expr [StrTarget ground_expr] false.

Definition demo_ops : list sensor_op :=
  [OpUpdate demo_phys [0; 2];
   OpReset demo_phys AllEnvs (fun _ => (3 / 2, 3 / 2, 3 / 2)%R);
   OpUpdate demo_phys [1]].

Definition obstacles_target : RaycastTargetCfg :=
  {| target_prim_expr := obstacle_expr; is_global := false |}.

Definition ground_target : RaycastTargetCfg :=
  {| target_prim_expr := ground_expr; is_global := true |}.

Definition local_obstacles : mesh_prim_path_entry := CfgTarget obstacles_target.

(** A sensor that tracks the obstacles of its environment. *)
Definition tracking_sensor_cfg : RayCasterCfg :=
  demo_cfg base_expr [local_obstacles] true.

(** A sensor that tracks all obstacles as one global target. *)
Definition global_tracking_sensor_cfg : RayCasterCfg :=
  demo_cfg base_expr
    [CfgTarget {| target_prim_expr := obstacle_expr; is_global := true |}] true.

(** A sensor that tracks the ground plane and the obstacles of its
    environment. *)
Definition mixed_tracking_sensor_cfg : RayCasterCfg :=
  demo_cfg base_expr [StrTarget ground_expr; local_obstacles] true.

Definition mesh0 : wp_Mesh := {| mesh_id := 0 |}.
Definition mesh1 : wp_Mesh := {| mesh_id := 1 |}.

(** [images[i, h, w]] *)
Definition pixel {A} (images : list (list (list A))) (i h w : nat) : option A :=
  img ← images !! i; line ← img !! h; line !! w.

(** A camera on the three robot frames with a 1 x 2 image: one ray along
    the optical axis (x in the world convention) and one across it. *)
Definition demo_camera : RayCasterCamera :=
  {| caster :=
       {| cfg := frame_sensor_cfg;
          _num_envs := 3;
          _view := create_view NoPhysicsAPI frame_expr;
          _raycast_targets_cfg := [ground_target];
          _binding :=
            {| _num_meshes_per_env := {[ ground_expr := 1 ]};
               _meshes := replicate 3 [mesh0];
               _mesh_views := [];
               _mesh_ids_wp := replicate 3 [0%N];
               _mesh_positions_w := [];
               _mesh_orientations_w := [] |};
          ray_starts := replicate 3 [zeros3; zeros3];
          ray_directions := replicate 3 [(1, 0, 0); (0, 1, 0)]%R;
          num_rays := 2;
          drift := replicate 3 zeros3;
          _data :=
            {| pos_w := replicate 3 zeros3;
               quat_w := replicate 3 zeros4;
               vel_w := replicate 3 zeros3;
               rot_vel_w := replicate 3 zeros3;
               ray_hits_w := replicate 3 [zeros3; zeros3] |} |};
     data_types := ["distance_to_image_plane"; "distance_to_camera"];
     image_shape := (1, 2);
     _offset_pos := replicate 3 zeros3;
     _offset_quat := replicate 3 identity_quat;
     _frame := [0; 0; 0];
     _cam_data :=
       {| cam_pos_w := replicate 3 zeros3;
          quat_w_world := replicate 3 zeros4;
          distance_to_image_plane := replicate 3 [[0; 0]]%R;
          distance_to_camera := replicate 3 [[0; 0]]%R;
          normals := [] |};
     cam_ray_hits_w := replicate 3 [zeros3; zeros3] |}.

(** ** Setting and resetting the camera pose *)





(** The camera data with its pose buffers replaced. *)
Definition set_camera_pose (cam : CameraData) (pos : list vec3)
    (quats : list quat) : CameraData :=
  {| cam_pos_w := pos;
     quat_w_world := quats;
     distance_to_image_plane := distance_to_image_plane cam;
     distance_to_camera := distance_to_camera cam;
     normals := normals cam |}.


(** The camera with the fields of its base class replaced. *)
Definition set_caster (self : RayCasterCamera) (base : RayCaster)
  : RayCasterCamera :=
  {| caster := base;
     data_types := data_types self;
     image_shape := image_shape self;
     _offset_pos := _offset_pos self;
     _offset_quat := _offset_quat self;
     _frame := _frame self;
     _cam_data := _cam_data self;
     cam_ray_hits_w := cam_ray_hits_w self |}.

(** [RayCasterCamera.reset] (lines 143-155) for a sequence of indices; the
    call without indices goes through slices and is left out. The scalar 0 of
    line 155 is a value of one row, broadcast to the rows assigned. *)
Definition camera_reset (phys : Physics) (self : RayCasterCamera)
    (env_ids : list nat) (uniform : nat -> vec3) : result RayCasterCamera :=
  let* base := reset phys (caster self) (EnvIds env_ids) uniform in
  let self1 := set_caster self base in
  let* (pos_w, quat_w) := _compute_camera_world_poses phys self1 env_ids in
  let* cam_pos_w' := index_put (cam_pos_w (_cam_data self)) env_ids pos_w in
  let* quat_w_world' := index_put (quat_w_world (_cam_data self)) env_ids quat_w in
  let* frame' := index_put (_frame self) env_ids [0] in
  Ok {| caster := base;
        data_types := data_types self;
        image_shape := image_shape self;
        _offset_pos := _offset_pos self;
        _offset_quat := _offset_quat self;
        _frame := frame';
        _cam_data := set_camera_pose (_cam_data self) cam_pos_w' quat_w_world';
        cam_ray_hits_w := cam_ray_hits_w self |}.

(** ** The construction of the camera *)

(** The exceptions of the camera's own checks: [ValueError], next to the
    ones of [exn]. *)
Inductive camera_exn : Type :=
| ValueError (msg : string)
| Builtin (e : exn).

(** [RayCasterCamera.UNSUPPORTED_TYPES] (lines 50-65). *)
Definition UNSUPPORTED_TYPES : list string :=
  ["rgb"; "instance_id_segmentation"; "instance_id_segmentation_fast";
   "instance_segmentation"; "instance_segmentation_fast";
   "semantic_segmentation"; "skeleton_data"; "motion_vectors";
   "bounding_box_2d_tight"; "bounding_box_2d_tight_fast";
   "bounding_box_2d_loose"; "bounding_box_2d_loose_fast";
   "bounding_box_3d"; "bounding_box_3d_fast"].

(** [_check_supported_data_types] (lines 328-339): the data types that are
    also unsupported types must be none. *)
Definition _check_supported_data_types (cfg_data_types : list string)
  : camera_exn + unit :=
  let common_elements := filter (fun name => name ∈ UNSUPPORTED_TYPES) cfg_data_types in
  if decide (common_elements = []) then inr tt
  else inl (ValueError
              "RayCasterCamera class does not support the following sensor types").

(** The attributes of a camera object that hold its [CameraData]: [None]
    for an attribute the object does not have. *)
Record CameraAttributes : Type := {
  attr_cam_cam_data : option CameraData;
  attr_cam_data : option CameraData
}.

(** [CameraData()]: no buffer is allocated yet. *)
Definition empty_CameraData : CameraData :=
  {| cam_pos_w := []; quat_w_world := [];
     distance_to_image_plane := []; distance_to_camera := []; normals := [] |}.

(** [RayCasterCamera.__init__] (lines 68-82). [base_init] is the outcome of
    the constructor of the ray caster (line 80), which leaves the two
    attributes alone. Line 82 stores the data object as [_cam_cam_data]. *)
Definition camera_init (cfg_data_types : list string) (base_init : result unit)
  : camera_exn + CameraAttributes :=
  match _check_supported_data_types cfg_data_types with
  | inl e => inl e
  | inr _ =>
      match base_init with
      | Raise e => inl (Builtin e)
      | Ok _ => inr {| attr_cam_cam_data := Some empty_CameraData;
                       attr_cam_data := None |}
      end
  end.

(** A 3 x 3 matrix by rows. *)
Definition mat3 : Type := vec3 * vec3 * vec3.

(** What [_create_buffers] allocates: the drift, the data object and its
    intrinsic matrices. An output that was not asked for is the empty
    list. *)
Record CameraBuffers : Type := {
  buf_drift : list vec3;
  buf_data : CameraData;
  intrinsic_matrices : list mat3
}.

(** The loop of lines 357-365 over [cfg.data_types]. *)
Fixpoint create_outputs (count height width : nat) (cfg_data_types : list string)
    (output : CameraData) : camera_exn + CameraData :=
  match cfg_data_types with
  | [] => inr output
  | name :: rest =>
      if decide (name ∈ ["distance_to_image_plane"; "distance_to_camera"]) then
        let zeros := replicate count (replicate height (replicate width 0%R)) in
        create_outputs count height width rest
          (if decide (name = "distance_to_image_plane")
           then {| cam_pos_w := cam_pos_w output;
                   quat_w_world := quat_w_world output;
                   distance_to_image_plane := zeros;
                   distance_to_camera := distance_to_camera output;
                   normals := normals output |}
           else {| cam_pos_w := cam_pos_w output;
                   quat_w_world := quat_w_world output;
                   distance_to_image_plane := distance_to_image_plane output;
                   distance_to_camera := zeros;
                   normals := normals output |})
      else if decide (name ∈ ["normals"]) then
        create_outputs count height width rest
          {| cam_pos_w := cam_pos_w output;
             quat_w_world := quat_w_world output;
             distance_to_image_plane := distance_to_image_plane output;
             distance_to_camera := distance_to_camera output;
             normals := replicate count (replicate height (replicate width zeros3)) |}
      else inl (ValueError "Received unknown data type")
  end.

(** [_create_buffers] (lines 341-365) on an object with the attributes
    [attrs], for a view of [count] prims. *)
Definition _create_buffers (attrs : CameraAttributes) (count height width : nat)
    (cfg_data_types : list string) : camera_exn + CameraBuffers :=
  match attr_cam_data attrs with
  | None => inl (Builtin AttributeError)
  | Some _ =>
      match create_outputs count height width cfg_data_types
              {| cam_pos_w := replicate count zeros3;
                 quat_w_world := replicate count zeros4;
                 distance_to_image_plane := [];
                 distance_to_camera := [];
                 normals := [] |} with
      | inl e => inl e
      | inr data =>
          inr {| buf_drift := replicate count zeros3;
                 buf_data := data;
                 intrinsic_matrices :=
                   replicate count (zeros3, zeros3, (0, 0, 1)%R) |}
      end
  end.

(** The fields of [cfg.pattern_cfg] that the intrinsic matrix reads. *)
Record PinholeCameraPatternCfg : Type := {
  width : nat;
  height : nat;
  focal_length : R;
  horizontal_aperture : R;
  horizontal_aperture_offset : R;
  vertical_aperture_offset : R
}.

(** Python's [a / b] on numbers. *)
Definition truediv (a b : R) : result R :=
  if Req_EM_T b 0 then Raise ZeroDivisionError else Ok (a / b)%R.

(** [_compute_intrinsic_matrices] (lines 367-383): the four entries are
    written to the matrix of every camera. *)
Definition _compute_intrinsic_matrices (pattern_cfg : PinholeCameraPatternCfg)
    (matrices : list mat3) : result (list mat3) :=
  let w := INR (width pattern_cfg) in
  let h := INR (height pattern_cfg) in
  let* vertical_aperture :=
    truediv (horizontal_aperture pattern_cfg * h) w in
  let* f_x := truediv (w * focal_length pattern_cfg)
                (horizontal_aperture pattern_cfg) in
  let* f_y := truediv (h * focal_length pattern_cfg) vertical_aperture in
  let c_x := (horizontal_aperture_offset pattern_cfg * f_x + w / 2)%R in
  let c_y := (vertical_aperture_offset pattern_cfg * f_y + h / 2)%R in
  Ok ((fun m : mat3 =>
         let '(row0, row1, row2) := m in
         ((f_x, row0.1.2, c_x), (row1.1.1, f_y, c_y), row2)) <$> matrices).

(** ** Notions the properties are stated with *)

(** What holds of the lists of one load loop (lines 196-242) after the paths
    [ps], on a device that held [n0] arrays or more before: an uploaded entry
    is the scaled geometry of its path and sits on the device under the id of
    its mesh, and every path shares the mesh of an uploaded entry before it
    (or its own) with equal points. *)
Definition pass_inv {F : Type} `{NumpyScalar F} (stage : Stage F) (n0 : nat)
    (ps : list string) (lp : LoadPass F) (dev : list (ndarray F * list (nat * nat * nat))) : Prop :=
  length (loaded_vertices lp) = length ps /\
  length (wp_meshes lp) = length ps /\
  n0 <= length dev /\
  (forall i v, loaded_vertices lp !! i = Some (Some v) ->
     exists path_i g_i m,
       ps !! i = Some path_i /\ path_geom stage path_i = Some g_i /\
       v = scale_points (vertices g_i) (world_scale g_i) /\
       wp_meshes lp !! i = Some m /\
       n0 <= N.to_nat (mesh_id m) /\
       dev !! N.to_nat (mesh_id m) = Some (v, faces g_i)) /\
  (forall j path, ps !! j = Some path ->
     exists g m i v,
       path_geom stage path = Some g /\
       wp_meshes lp !! j = Some m /\
       i <= j /\
       loaded_vertices lp !! i = Some (Some v) /\
       wp_meshes lp !! i = Some m /\
       (i = j \/
        (i < j /\ same_points v (scale_points (vertices g) (world_scale g)) = true))).

(** The error of lines 277-281. *)
Definition no_meshes_found : exn :=
  RuntimeError "No meshes found for ray-casting!".

(** [buf[e, k]] of a two-dimensional buffer. *)
Definition cell {A} (buf : list (list A)) (e k : nat) : option A :=
  buf !! e ≫= (.!! k).

(** The rows of a pose tensor that environment [e] receives: all of them for
    a global target, the [e]-th block of [c] for a local one. *)
Definition rows_of_env {A} (target_is_global : bool) (c : nat) (rows : list A)
    (e : nat) : list A :=
  if target_is_global then rows else take c (drop (e * c) rows).

(** A buffer with [c] columns from [idx] on replaced, per environment. *)
Definition with_columns {A} (buf : list (list A)) (idx c : nat)
    (vals : nat -> list A) : list (list A) :=
  imap (fun e row => take idx row ++ vals e ++ drop (idx + c) row) buf.

(** The shape a target's pose tensor must have for [c] columns. *)
Definition target_shape (num_envs : nat) (target_is_global : bool) (n c : nat)
  : Prop :=
  if target_is_global then n = c else num_envs ≠ 0 /\ n = num_envs * c.


(** ** More of the example scene *)

(** A kernel for flat ground at height zero under rays that point straight
    down: every ray hits right below its start. *)
Definition ground_kernel : Kernel :=
  fun starts directions _ max_dist _ _ _ =>
    {| hits := (fun row : list vec3 => (fun o : vec3 => (o.1.1, o.1.2, 0%R)) <$> row)
                 <$> starts;
       depth := (fun row : list vec3 => (fun o : vec3 => o.2) <$> row) <$> starts;
       normal := (fun row : list vec3 => (fun _ : vec3 => (0, 0, 1)%R) <$> row)
                   <$> starts |}.

(** A stage with nothing on it. *)
Definition empty_stage : Stage Z :=
  {| find_matching_prim_paths := fun _ => [];
     primitive_child := fun _ => None;
     mesh_child := fun _ => None;
     first_prim_api := fun _ => None |}.

(** The first obstacle of every environment. *)
Definition first_obstacles : list string :=
  ["/World/envs/env_0/obstacle_0"; "/World/envs/env_1/obstacle_0";
   "/World/envs/env_2/obstacle_0"].

(** A pinhole pattern of 2 x 1 pixels with the default lens. *)
Definition demo_pattern_cfg : PinholeCameraPatternCfg :=
  {| width := 2; height := 1;
     focal_length := 24;
     horizontal_aperture := 20955 / 1000;
     horizontal_aperture_offset := 0;
     vertical_aperture_offset := 0 |}.

(** * Properties *)

(** ** The error monad and tensor indexing *)

Lemma bind_Ok {A B} (m : result A) (f : A -> result B) (b : B) :
  bind m f = Ok b -> exists a, m = Ok a /\ f a = Ok b.
Proof. destruct m as [a|e]; simpl; [eauto | discriminate]. Qed.

Tactic Notation "inv_bind" hyp(H) :=
  let a := fresh "a" in
  let Ha := fresh "Ha" in
  apply bind_Ok in H; destruct H as (a & Ha & H).

Tactic Notation "inv_bind" hyp(H) "as" simple_intropattern(x) ident(Hx) :=
  apply bind_Ok in H; destruct H as (x & Hx & H).

Lemma mapM_Ok_inv {A B} (f : A -> result B) (l : list A) (r : list B) :
  mapM f l = Ok r ->
  length r = length l /\
  forall j a, l !! j = Some a -> exists b, f a = Ok b /\ r !! j = Some b.
Proof.
  revert r. induction l as [|x l IH]; intros r Hr.
  - injection Hr as <-. split; [done|]. intros j a Hj. done.
  - cbn in Hr. unfold mbind, result_bind in Hr.
    inv_bind Hr. inv_bind Hr. injection Hr as <-.
    destruct (IH _ Ha0) as [Hlen Hlk]. split; [simpl; lia|].
    intros [|j] b Hj; simpl in *.
    + injection Hj as <-. eauto.
    + eauto.
Qed.

Lemma mapM_is_Ok {A B} (f : A -> result B) (l : list A) :
  Forall (fun a => is_Ok (f a)) l -> is_Ok (mapM f l).
Proof.
  induction 1 as [|x l [b Hb] _ [r Hr]]; [by eexists|].
  exists (b :: r).
  change (mapM f (x :: l))
    with (bind (f x) (fun y => bind (mapM f l) (fun k => Ok (y :: k)))).
  by rewrite Hb, Hr.
Qed.

Lemma list_get_Ok {A} (l : list A) i a : list_get l i = Ok a <-> l !! i = Some a.
Proof. unfold list_get. destruct (l !! i); split; congruence. Qed.

Lemma index_select_Ok_inv {A} (x : list A) ids r :
  index_select x ids = Ok r ->
  length r = length ids /\
  forall j i, ids !! j = Some i -> exists a, x !! i = Some a /\ r !! j = Some a.
Proof.
  intros Hr. apply mapM_Ok_inv in Hr as [Hlen Hlk]. split; [done|].
  intros j i Hj. destruct (Hlk _ _ Hj) as (a & Ha & Hra).
  apply list_get_Ok in Ha. eauto.
Qed.

Lemma index_select_is_Ok {A} (x : list A) ids :
  Forall (fun i => i < length x) ids -> is_Ok (index_select x ids).
Proof.
  intros Hin. apply mapM_is_Ok. eapply Forall_impl; [exact Hin|].
  intros i Hi. simpl in Hi. apply lookup_lt_is_Some_2 in Hi as [a Ha].
  exists a. by apply list_get_Ok.
Qed.

Lemma put_rows_length {A} (x : list A) ids vals :
  length (put_rows x ids vals) = length x.
Proof.
  revert x vals. induction ids as [|i ids IH]; intros x [|v vals]; simpl; try done.
  by rewrite IH, length_insert.
Qed.

Lemma put_rows_frame {A} (x : list A) ids vals i :
  i ∉ ids -> put_rows x ids vals !! i = x !! i.
Proof.
  revert x vals. induction ids as [|i0 ids IH]; intros x [|v vals] Hi; simpl; try done.
  apply not_elem_of_cons in Hi as [Hne Hi].
  rewrite IH by done. by apply list_lookup_insert_ne.
Qed.

(** Rows written with a value that depends on the row index only. *)
Lemma put_rows_fn {A} (g : nat -> A) (x : list A) ids vals i :
  (forall j i', ids !! j = Some i' -> vals !! j = Some (g i')) ->
  i ∈ ids -> i < length x ->
  put_rows x ids vals !! i = Some (g i).
Proof.
  revert x vals. induction ids as [|i0 ids IH]; intros x vals Hv Hi Hlt.
  - by apply elem_of_nil in Hi.
  - destruct vals as [|v vals]; [by specialize (Hv 0 i0 eq_refl)|].
    simpl. destruct (decide (i ∈ ids)) as [Hin|Hnin].
    + apply IH; [|done|by rewrite length_insert].
      intros j i' Hj. exact (Hv (S j) i' Hj).
    + apply elem_of_cons in Hi as [->|Hi]; [|done].
      rewrite put_rows_frame by done.
      rewrite list_lookup_insert_eq by done.
      specialize (Hv 0 i0 eq_refl). simpl in Hv. done.
Qed.

(** The last write to a row wins. *)
Lemma put_rows_last {A} (x : list A) ids vals j i :
  ids !! j = Some i -> (forall j', j < j' -> ids !! j' ≠ Some i) ->
  i < length x -> length vals = length ids ->
  put_rows x ids vals !! i = vals !! j.
Proof.
  revert x vals j. induction ids as [|i0 ids IH]; intros x vals j Hj Hlast Hlt Hlen.
  - done.
  - destruct vals as [|v vals]; [done|]. simpl in Hlen.
    destruct j as [|j]; simpl in *.
    + injection Hj as ->.
      rewrite put_rows_frame.
      * by apply list_lookup_insert_eq.
      * intros Hin. apply list_elem_of_lookup in Hin as [j' Hj'].
        apply (Hlast (S j')); [lia|done].
    + apply IH; [done| |by rewrite length_insert|lia].
      intros j' Hlt'. apply (Hlast (S j')). lia.
Qed.

Lemma broadcast_rows_Ok {A} n (vals vs : list A) :
  broadcast_rows n vals = Ok vs -> length vs = n.
Proof.
  unfold broadcast_rows. case_decide as Hn; [by intros [= <-]|].
  destruct vals as [|v [|? ?]]; try discriminate.
  intros [= <-]. apply length_replicate.
Qed.

Lemma broadcast_rows_same {A} (vals : list A) :
  broadcast_rows (length vals) vals = Ok vals.
Proof. unfold broadcast_rows. by rewrite decide_True. Qed.

Lemma broadcast_rows_Forall {A} (P : A -> Prop) n (vals vs : list A) :
  broadcast_rows n vals = Ok vs -> Forall P vals -> Forall P vs.
Proof.
  unfold broadcast_rows. case_decide as Hn; [by intros [= <-]|].
  destruct vals as [|v [|? ?]]; try discriminate.
  intros [= <-] Hv. apply Forall_replicate. by apply Forall_inv in Hv.
Qed.

Lemma forallb_in_range (ids : list nat) (n : nat) :
  forallb (fun i => bool_decide (i < n)) ids = true <->
  Forall (fun i => i < n) ids.
Proof.
  rewrite forallb_forall, Forall_forall. split; intros Hall i Hi.
  - apply list_elem_of_In in Hi. specialize (Hall i Hi).
    by apply bool_decide_eq_true in Hall.
  - apply bool_decide_eq_true, Hall. by apply list_elem_of_In.
Qed.

Lemma index_put_Ok_inv {A} (x : list A) ids vals x' :
  index_put x ids vals = Ok x' ->
  Forall (fun i => i < length x) ids /\
  exists vs, broadcast_rows (length ids) vals = Ok vs /\ x' = put_rows x ids vs.
Proof.
  unfold index_put. destruct (forallb _ ids) eqn:Hb; [|discriminate].
  intros Hx. inv_bind Hx. injection Hx as <-. split; [|eauto].
  by apply forallb_in_range.
Qed.

Lemma index_put_length {A} (x : list A) ids vals x' :
  index_put x ids vals = Ok x' -> length x' = length x.
Proof.
  intros (_ & vs & _ & ->)%index_put_Ok_inv. apply put_rows_length.
Qed.

(** Rows outside [ids] keep their value. *)
Lemma index_put_frame {A} (x : list A) ids vals x' i :
  index_put x ids vals = Ok x' -> i ∉ ids -> x' !! i = x !! i.
Proof.
  intros (_ & vs & _ & ->)%index_put_Ok_inv Hi. by apply put_rows_frame.
Qed.

Lemma index_put_fn {A} (g : nat -> A) (x : list A) ids vals x' i :
  index_put x ids vals = Ok x' ->
  length vals = length ids ->
  (forall j i', ids !! j = Some i' -> vals !! j = Some (g i')) ->
  i ∈ ids -> x' !! i = Some (g i).
Proof.
  intros (Hin & vs & Hvs & ->)%index_put_Ok_inv Hlen Hv Hi.
  rewrite <- Hlen, broadcast_rows_same in Hvs. injection Hvs as <-.
  apply put_rows_fn; [done..|].
  rewrite Forall_forall in Hin. by apply Hin.
Qed.

Lemma index_put_last {A} (x : list A) ids vals x' j i :
  index_put x ids vals = Ok x' ->
  length vals = length ids ->
  ids !! j = Some i -> (forall j', j < j' -> ids !! j' ≠ Some i) ->
  x' !! i = vals !! j.
Proof.
  intros (Hin & vs & Hvs & ->)%index_put_Ok_inv Hlen Hj Hlast.
  rewrite <- Hlen, broadcast_rows_same in Hvs. injection Hvs as <-.
  apply put_rows_last; [done..| |done].
  rewrite Forall_forall in Hin. apply Hin. by eapply list_elem_of_lookup_2.
Qed.

Lemma index_put_Forall {A} (P : A -> Prop) (x : list A) ids vals x' :
  index_put x ids vals = Ok x' -> Forall P x -> Forall P vals -> Forall P x'.
Proof.
  intros (_ & vs & Hvs & ->)%index_put_Ok_inv Hx Hvals.
  pose proof (broadcast_rows_Forall P _ _ _ Hvs Hvals) as Hv.
  clear Hvs Hvals. revert x vs Hx Hv.
  induction ids as [|i ids IH]; intros x [|v vs] Hx Hv; simpl; try done.
  apply IH.
  - apply Forall_insert; [done|]. by apply Forall_inv in Hv.
  - by apply Forall_inv_tail in Hv.
Qed.

Lemma index_put_is_Ok {A} (x : list A) ids vals :
  Forall (fun i => i < length x) ids -> length vals = length ids ->
  is_Ok (index_put x ids vals).
Proof.
  intros Hin Hlen. unfold index_put.
  apply forallb_in_range in Hin. rewrite Hin.
  rewrite <- Hlen, broadcast_rows_same. simpl. by eexists.
Qed.

(** ** The update of the ray caster *)

Lemma compute_world_poses_Some phys view ids pos quats :
  compute_world_poses phys view (Some ids) = Ok (pos, quats) ->
  length pos = length ids /\ length quats = length ids /\
  forall j i, ids !! j = Some i ->
    exists p q, poses (phys (view_path view)) !! i = Some (p, q) /\
                pos !! j = Some p /\ quats !! j = Some q.
Proof.
  unfold compute_world_poses. intros Hc. inv_bind Hc. injection Hc as <- <-.
  apply index_select_Ok_inv in Ha as [Hlen Hlk].
  rewrite !length_fmap. repeat split; try done.
  intros j i Hj. destruct (Hlk _ _ Hj) as ([p q] & Hp & Hr).
  exists p, q. rewrite !list_lookup_fmap, Hr. done.
Qed.

(** What a successful update did, step by step. *)
Lemma update_Ok_inv kernel phys self env_ids self' :
  _update_buffers_impl kernel phys self env_ids = Ok self' ->
  exists pos quats d v omega starts directions b transforms,
    compute_world_poses phys (_view self) (Some env_ids) = Ok (pos, quats) /\
    index_select (drift self) env_ids = Ok d /\
    _get_world_velocities phys (_view self) env_ids = Ok (v, omega) /\
    index_select (ray_starts self) env_ids = Ok starts /\
    index_select (ray_directions self) env_ids = Ok directions /\
    tracked_transforms phys self env_ids = Ok (b, transforms) /\
    index_put (pos_w (_data self)) env_ids (zip_with vadd pos d)
      = Ok (pos_w (_data self')) /\
    index_put (quat_w (_data self)) env_ids quats = Ok (quat_w (_data self')) /\
    index_put (vel_w (_data self)) env_ids v = Ok (vel_w (_data self')) /\
    index_put (rot_vel_w (_data self)) env_ids omega
      = Ok (rot_vel_w (_data self')) /\
    index_put (ray_hits_w (_data self)) env_ids
      (hits (kernel
               (world_rays (attach_yaw_only (cfg self)) quats
                  (zip_with vadd pos d) starts directions).1
               (world_rays (attach_yaw_only (cfg self)) quats
                  (zip_with vadd pos d) starts directions).2
               (_mesh_ids_wp b) (max_distance (cfg self)) transforms
               false false))
      = Ok (ray_hits_w (_data self')) /\
    drift self' = drift self /\ _view self' = _view self /\
    cfg self' = cfg self /\ _binding self' = b.
Proof.
  unfold _update_buffers_impl. intros Hu.
  inv_bind Hu as [pos quats] Hposes.
  inv_bind Hu as d Hd.
  inv_bind Hu as pos_w' Hp.
  inv_bind Hu as quat_w' Hq.
  inv_bind Hu as [v omega] Hvel.
  inv_bind Hu as vel_w' Hv.
  inv_bind Hu as rot_vel_w' Hw.
  inv_bind Hu as starts Hs.
  inv_bind Hu as directions Hdir.
  destruct (world_rays _ _ _ _ _) as [ray_starts_w ray_directions_w] eqn:Hrays.
  inv_bind Hu as [b transforms] Hb.
  inv_bind Hu as ray_hits_w' Hh. injection Hu as <-.
  exists pos, quats, d, v, omega, starts, directions, b, transforms.
  rewrite Hrays. simpl. repeat split; done.
Qed.

(** C9. An update with an index subset [env_ids] overwrites only the rows of
    [pos_w], [quat_w], [vel_w], [rot_vel_w] and [ray_hits_w] named by
    [env_ids]: every other row keeps the value of its last update, and a row
    in [env_ids] holds the pose just read (the position with the drift
    added). *)
Theorem update_overwrites_only_env_ids
    (kernel : Kernel) (phys : Physics) (self self' : RayCaster)
    (env_ids : list nat)
    (Hupdate : _update_buffers_impl kernel phys self env_ids = Ok self') :
  (forall i, i ∉ env_ids ->
     pos_w (_data self') !! i = pos_w (_data self) !! i /\
     quat_w (_data self') !! i = quat_w (_data self) !! i /\
     vel_w (_data self') !! i = vel_w (_data self) !! i /\
     rot_vel_w (_data self') !! i = rot_vel_w (_data self) !! i /\
     ray_hits_w (_data self') !! i = ray_hits_w (_data self) !! i) /\
  (forall i, i ∈ env_ids ->
     exists p q d,
       poses (phys (view_path (_view self))) !! i = Some (p, q) /\
       drift self !! i = Some d /\
       pos_w (_data self') !! i = Some (vadd p d) /\
       quat_w (_data self') !! i = Some q).
Proof.
  apply update_Ok_inv in Hupdate
    as (pos & quats & d & v & omega & starts & directions & b & transforms
        & Hposes & Hd & _ & _ & _ & _ & Hp & Hq & Hv & Hw & Hh & _).
  split.
  - intros i Hi. repeat split; eapply index_put_frame; eauto.
  - intros i Hi.
    apply compute_world_poses_Some in Hposes as (Hlp & Hlq & Hlk).
    apply index_select_Ok_inv in Hd as [Hld Hdk].
    pose proof Hi as Hi'. apply list_elem_of_lookup in Hi' as [j Hj].
    destruct (Hlk _ _ Hj) as (p & q & Hpq & _ & _).
    destruct (Hdk _ _ Hj) as (di & Hdi & _).
    exists p, q, di. split; [done|]. split; [done|]. split.
    + apply (index_put_fn
               (fun i => vadd (default zeros3 (fst <$> poses (phys (view_path (_view self))) !! i))
                              (default zeros3 (drift self !! i)))
               _ _ _ _ i) in Hp.
      * rewrite Hp, Hpq, Hdi. done.
      * rewrite length_zip_with. lia.
      * intros j' i' Hj'.
        destruct (Hlk _ _ Hj') as (p' & q' & Hpq' & Hp' & _).
        destruct (Hdk _ _ Hj') as (d' & Hd' & Hdj').
        rewrite lookup_zip_with, Hp', Hdj', Hpq', Hd'. done.
      * done.
    + apply (index_put_fn
               (fun i => default zeros4 (snd <$> poses (phys (view_path (_view self))) !! i))
               _ _ _ _ i) in Hq.
      * rewrite Hq, Hpq. done.
      * done.
      * intros j' i' Hj'.
        destruct (Hlk _ _ Hj') as (p' & q' & Hpq' & _ & Hq').
        rewrite Hq', Hpq'. done.
      * done.
Qed.

(** A sensor with well-sized buffers and static meshes is updated without
    an exception for any indices within the view. *)
Lemma update_is_Ok kernel phys self env_ids :
  sized phys self ->
  shape_preserving kernel ->
  track_mesh_transforms (cfg self) = false ->
  Forall (fun i => i < view_count phys (_view self)) env_ids ->
  is_Ok (_update_buffers_impl kernel phys self env_ids).
Proof.
  intros (Hvel & Hdrift & Hrs & Hrd & Hp & Hq & Hv & Hw & Hh) Hkernel Htrack Hin.
  unfold _update_buffers_impl, view_count in *.
  destruct (index_select_is_Ok (poses (phys (view_path (_view self)))) env_ids)
    as [rows Hrows]; [done|].
  pose proof (index_select_Ok_inv _ _ _ Hrows) as [Hlrows _].
  unfold compute_world_poses. rewrite Hrows. cbn [bind].
  destruct (index_select_is_Ok (drift self) env_ids) as [d Hd];
    [by rewrite Hdrift|].
  pose proof (index_select_Ok_inv _ _ _ Hd) as [Hld _].
  rewrite Hd. cbn [bind].
  destruct (index_put_is_Ok (pos_w (_data self)) env_ids
              (zip_with vadd rows.*1 d)) as [pos_w' Hpw].
  { by rewrite Hp. }
  { rewrite length_zip_with, length_fmap. lia. }
  rewrite Hpw. cbn [bind].
  destruct (index_put_is_Ok (quat_w (_data self)) env_ids rows.*2)
    as [quat_w' Hqw]; [by rewrite Hq|by rewrite length_fmap|].
  rewrite Hqw. cbn [bind].
  assert (exists v omega,
            _get_world_velocities phys (_view self) env_ids = Ok (v, omega) /\
            length v = length env_ids /\ length omega = length env_ids)
    as (v & omega & Hvo & Hlv & Hlo).
  { unfold _get_world_velocities, compute_world_poses.
    destruct (view_kind (_view self)).
    - rewrite Hrows. cbn [bind]. eexists _, _. split; [done|].
      by rewrite !length_fmap.
    - destruct (index_select_is_Ok
                  (velocities (phys (view_path (_view self)))) env_ids)
        as [vs Hvs]; [by rewrite Hvel|].
      rewrite Hvs. cbn [bind]. eexists _, _. split; [done|].
      apply index_select_Ok_inv in Hvs as [Hlvs _]. by rewrite !length_fmap.
    - destruct (index_select_is_Ok
                  (velocities (phys (view_path (_view self)))) env_ids)
        as [vs Hvs]; [by rewrite Hvel|].
      rewrite Hvs. cbn [bind]. eexists _, _. split; [done|].
      apply index_select_Ok_inv in Hvs as [Hlvs _]. by rewrite !length_fmap. }
  rewrite Hvo. cbn [bind].
  destruct (index_put_is_Ok (vel_w (_data self)) env_ids v) as [vel_w' Hvw];
    [by rewrite Hv|done|].
  rewrite Hvw. cbn [bind].
  destruct (index_put_is_Ok (rot_vel_w (_data self)) env_ids omega)
    as [rot_vel_w' Hww]; [by rewrite Hw|done|].
  rewrite Hww. cbn [bind].
  destruct (index_select_is_Ok (ray_starts self) env_ids) as [starts Hs];
    [by rewrite Hrs|].
  destruct (index_select_is_Ok (ray_directions self) env_ids) as [dirs Hds];
    [by rewrite Hrd|].
  pose proof (index_select_Ok_inv _ _ _ Hs) as [Hls _].
  rewrite Hs, Hds. cbn [bind].
  destruct (world_rays _ _ _ _ _) as [ray_starts_w ray_directions_w] eqn:Hrays.
  unfold tracked_transforms. rewrite Htrack. cbn [bind].
  assert (Hlsw : length ray_starts_w = length env_ids).
  { apply (f_equal fst) in Hrays. cbn [fst] in Hrays. subst ray_starts_w.
    unfold world_rays. cbn [fst].
    rewrite !length_zip_with, !length_fmap. lia. }
  destruct (index_put_is_Ok (ray_hits_w (_data self)) env_ids
              (hits (kernel ray_starts_w ray_directions_w
                       (_mesh_ids_wp (_binding self))
                       (max_distance (cfg self)) None false false)))
    as [hits' Hhits]; [by rewrite Hh|by rewrite Hkernel|].
  rewrite Hhits. cbn [bind]. by eexists.
Qed.

(** ** Velocities behind the generic transform view *)

Lemma xform_velocities_zero phys view env_ids v omega :
  view_kind view = XFormPrimView ->
  _get_world_velocities phys view env_ids = Ok (v, omega) ->
  Forall (eq zeros3) v /\ Forall (eq zeros3) omega.
Proof.
  unfold _get_world_velocities. intros -> Hv.
  inv_bind Hv as [pos quats] Hposes. injection Hv as <- <-.
  assert (Forall (eq zeros3) ((fun _ : vec3 => zeros3) <$> pos)); [|done].
  apply Forall_fmap, Forall_true. done.
Qed.

Lemma update_keeps_zero_velocities kernel phys self env_ids self' :
  zero_velocities self ->
  _update_buffers_impl kernel phys self env_ids = Ok self' ->
  zero_velocities self' /\
  length (vel_w (_data self')) = length (vel_w (_data self)) /\
  length (rot_vel_w (_data self')) = length (rot_vel_w (_data self)).
Proof.
  intros (Hkind & Hv & Hw) Hupdate.
  apply update_Ok_inv in Hupdate
    as (pos & quats & d & v & omega & starts & directions & b & transforms
        & _ & _ & Hvel & _ & _ & _ & _ & _ & Hpv & Hpw & _ & _ & Hview & _).
  destruct (xform_velocities_zero _ _ _ _ _ Hkind Hvel) as [Hzv Hzw].
  repeat split.
  - by rewrite Hview.
  - eapply index_put_Forall; eauto.
  - eapply index_put_Forall; eauto.
  - eapply index_put_length; eauto.
  - eapply index_put_length; eauto.
Qed.

Lemma reset_Ok_inv phys self env_ids uniform self' :
  reset phys self env_ids uniform = Ok self' ->
  _data self' = _data self /\ _view self' = _view self /\
  length (drift self') = view_count phys (_view self).
Proof.
  unfold reset. destruct env_ids as [|ids].
  - intros [= <-]. simpl. by rewrite length_imap, length_replicate.
  - intros Hr. inv_bind Hr as selected Hsel. injection Hr as <-. simpl.
    by rewrite length_replicate.
Qed.

Lemma run_ops_keeps_zero_velocities kernel ops self self' :
  zero_velocities self ->
  run_ops kernel self ops = Ok self' ->
  zero_velocities self' /\
  length (vel_w (_data self')) = length (vel_w (_data self)) /\
  length (rot_vel_w (_data self')) = length (rot_vel_w (_data self)).
Proof.
  revert self. induction ops as [|op ops IH]; intros self Hz Hrun.
  - by injection Hrun as <-.
  - simpl in Hrun. inv_bind Hrun as self1 Hop.
    assert (zero_velocities self1 /\
            length (vel_w (_data self1)) = length (vel_w (_data self)) /\
            length (rot_vel_w (_data self1)) = length (rot_vel_w (_data self)))
      as (Hz1 & Hl1 & Hl2).
    { destruct op as [phys ids|phys sel uniform]; simpl in Hop.
      - by eapply update_keeps_zero_velocities.
      - apply reset_Ok_inv in Hop as (Hd & Hv & _).
        unfold zero_velocities. by rewrite Hd, Hv. }
    destruct (IH _ Hz1 Hrun) as (Hz' & Hl1' & Hl2').
    split; [done|]. split; congruence.
Qed.

(** C10. A sensor whose prim has neither the articulation-root nor the
    rigid-body API is read through the generic transform view, and then
    [vel_w] and [rot_vel_w] hold the zero vector for every instance after
    initialisation and after any sequence of updates and resets, whatever
    velocities the simulation has. *)
Theorem xform_view_reports_zero_velocities
    {F : Type} `{NumpyScalar F} (stage : Stage F) (phys0 : Physics)
    (num_envs : nat) (c : RayCasterCfg) (proc proc' : Process F)
    (kernel : Kernel) (ops : list sensor_op) (self0 self' : RayCaster)
    (Hapi : first_prim_api stage (prim_path c) = Some NoPhysicsAPI)
    (Hinit : _initialize_impl stage phys0 num_envs c proc = Ok (self0, proc'))
    (Hrun : run_ops kernel self0 ops = Ok self') :
  view_kind (_view self') = XFormPrimView /\
  vel_w (_data self') = replicate (view_count phys0 (_view self0)) zeros3 /\
  rot_vel_w (_data self') = replicate (view_count phys0 (_view self0)) zeros3.
Proof.
  unfold _initialize_impl in Hinit. rewrite Hapi in Hinit.
  inv_bind Hinit as [b proc1] Hb. injection Hinit as <- <-.
  apply run_ops_keeps_zero_velocities in Hrun as ((Hk & Hv & Hw) & Hl1 & Hl2).
  - simpl in *. rewrite length_replicate in Hl1, Hl2.
    split; [done|]. split.
    + rewrite <- Hl1. symmetry. apply replicate_as_Forall. split; [done|].
      eapply Forall_impl; [exact Hv|]. by intros x <-.
    + rewrite <- Hl2. symmetry. apply replicate_as_Forall. split; [done|].
      eapply Forall_impl; [exact Hw|]. by intros x <-.
  - repeat split; simpl; try done; by apply Forall_replicate.
Qed.

(** ** The two orientation modes *)

Section PureYaw.
Local Open Scope R_scope.





Lemma normalize_unit (q : quat) :
  q.1.1.1 * q.1.1.1 + q.1.1.2 * q.1.1.2 + q.1.2 * q.1.2 + q.2 * q.2 = 1 ->
  normalize q = q.
Proof.
  destruct q as [[[w x] y] z]. simpl. intros ->. rewrite sqrt_1.
  rewrite Rmax_left.
  - f_equal; [f_equal; [f_equal|]|]; field.
  - unfold eps. lra.
Qed.



End PureYaw.




Lemma update_overwrites_only_env_ids_witness :
  exists self proc self',
    _initialize_impl demo_stage demo_phys 3 base_sensor_cfg empty_process
    = Ok (self, proc) /\
    _update_buffers_impl miss_kernel demo_phys self [1] = Ok self' /\
    (forall i, i ∉ [1] ->
       pos_w (_data self') !! i = pos_w (_data self) !! i /\
       quat_w (_data self') !! i = quat_w (_data self) !! i /\
       vel_w (_data self') !! i = vel_w (_data self) !! i /\
       rot_vel_w (_data self') !! i = rot_vel_w (_data self) !! i /\
       ray_hits_w (_data self') !! i = ray_hits_w (_data self) !! i) /\
    (forall i, i ∈ [1] ->
       exists p q d,
         poses (demo_phys (view_path (_view self))) !! i = Some (p, q) /\
         drift self !! i = Some d /\
         pos_w (_data self') !! i = Some (vadd p d) /\
         quat_w (_data self') !! i = Some q).
Proof.
  eexists _, _, _. split; [reflexivity|]. split; [reflexivity|].
  apply (update_overwrites_only_env_ids miss_kernel demo_phys _ _ [1]).
  reflexivity.
Defined.

Lemma xform_view_reports_zero_velocities_witness :
  exists self0 proc self',
    _initialize_impl demo_stage demo_phys 3 frame_sensor_cfg empty_process
    = Ok (self0, proc) /\
    run_ops miss_kernel self0 demo_ops = Ok self' /\
    view_kind (_view self') = XFormPrimView /\
    vel_w (_data self') = replicate (view_count demo_phys (_view self0)) zeros3 /\
    rot_vel_w (_data self')
    = replicate (view_count demo_phys (_view self0)) zeros3.
Proof.
  eexists _, _, _. split; [reflexivity|]. split; [reflexivity|].
  eapply (xform_view_reports_zero_velocities demo_stage demo_phys 3
            frame_sensor_cfg empty_process _ miss_kernel demo_ops);
    reflexivity.
Defined.



(** ** Reset and drift *)

(** With a sequence of indices the reset leaves a zero drift on every
    sensor, whatever the generator draws. *)
Lemma reset_with_indices_zeroes_drift phys self ids uniform self' :
  reset phys self (EnvIds ids) uniform = Ok self' ->
  drift self' = replicate (view_count phys (_view self)) zeros3.
Proof.
  unfold reset. intros Hr. inv_bind Hr as selected Hsel.
  by injection Hr as <-.
Qed.

(** C1, on the code. Three sensors, drift drawn from [1, 2]: after a reset
    of all environments every drift is the drawn vector; a following
    [reset(env_ids=[2])] leaves the drift of environment 0 changed (to zero)
    and the drift of environment 2 at zero, below the drift range; the next
    update reports the bare poses for all three. *)
Theorem reset_of_a_subset_zeroes_every_drift :
  exists self0 proc self1 self2 self3,
    _initialize_impl demo_stage demo_phys 3 base_sensor_cfg empty_process
    = Ok (self0, proc) /\
    reset demo_phys self0 AllEnvs (fun _ => (3 / 2, 3 / 2, 3 / 2)%R) = Ok self1 /\
    drift self1 = replicate 3 (3 / 2, 3 / 2, 3 / 2)%R /\
    reset demo_phys self1 (EnvIds [2]) (fun _ => (5 / 4, 5 / 4, 5 / 4)%R)
    = Ok self2 /\
    drift self2 = [zeros3; zeros3; zeros3] /\
    (0 < (drift_range (cfg self2)).1)%R /\
    _update_buffers_impl miss_kernel demo_phys self2 [0; 1; 2] = Ok self3 /\
    pos_w (_data self3)
    = [vadd (0, 0, 1)%R zeros3; vadd (10, 0, 1)%R zeros3;
       vadd (20, 0, 1)%R zeros3].
Proof.
  eexists _, _, _, _, _.
  split; [reflexivity|]. split; [reflexivity|]. split; [reflexivity|].
  split; [reflexivity|]. split; [reflexivity|].
  split; [simpl; lra|]. split; reflexivity.
Qed.

(** ** The loading pass *)

Section RegistryFacts.
Context {F : Type} `{NumpyScalar F}.

Lemma registered_from_spec (idx : nat) (points : ndarray F)
    (regs : list (option (ndarray F))) :
  (registered_from idx points regs = (-1)%Z /\
   forall i v, regs !! i = Some (Some v) -> same_points v points = false)
  \/
  (exists i v,
     registered_from idx points regs = Z.of_nat (idx + i) /\
     regs !! i = Some (Some v) /\ same_points v points = true).
Proof.
  revert idx. induction regs as [|[reg|] regs IH]; intros idx; simpl.
  - left. split; [done|]. intros i v Hi. done.
  - destruct (same_points reg points) eqn:Hsame.
    + right. exists 0, reg. by rewrite Nat.add_0_r.
    + destruct (IH (S idx)) as [[Hr Hnone]|(i & v & Hr & Hi & Hv)].
      * left. split; [done|]. intros [|i] v Hi; simpl in Hi.
        -- by injection Hi as <-.
        -- eauto.
      * right. exists (S i), v. rewrite Hr. split; [f_equal; lia|done].
  - destruct (IH (S idx)) as [[Hr Hnone]|(i & v & Hr & Hi & Hv)].
    + left. split; [done|]. intros [|i] v Hi; simpl in Hi; [done|eauto].
    + right. exists (S i), v. rewrite Hr. split; [f_equal; lia|done].
Qed.

(** One path of the pass: either an array loaded before equals the scaled
    array, and its mesh is referenced without an upload, or there is none,
    and the array is uploaded. *)
Lemma reference_or_upload_inv (g : GeomPrim F) lp dev lp' dev' :
  reference_or_upload g lp dev = Ok (lp', dev') ->
  let points := scale_points (vertices g) (world_scale g) in
  (exists i v m,
     loaded_vertices lp !! i = Some (Some v) /\
     same_points v points = true /\
     wp_meshes lp !! i = Some m /\
     loaded_vertices lp' = loaded_vertices lp ++ [None] /\
     wp_meshes lp' = wp_meshes lp ++ [m] /\
     dev' = dev)
  \/
  ((forall i v, loaded_vertices lp !! i = Some (Some v) ->
                same_points v points = false) /\
   loaded_vertices lp' = loaded_vertices lp ++ [Some points] /\
   wp_meshes lp' = wp_meshes lp ++ [{| mesh_id := N.of_nat (length dev) |}] /\
   dev' = dev ++ [(points, faces g)]).
Proof.
  intros Hr points. unfold reference_or_upload, _registered_points_idx in Hr.
  fold points in Hr.
  destruct (registered_from_spec 0 points (loaded_vertices lp))
    as [[Hidx Hnone]|(i & v & Hidx & Hi & Hv)]; rewrite Hidx in Hr.
  - rewrite decide_False in Hr by (intros Hne; by apply Hne).
    simpl in Hr. injection Hr as <- <-. right. done.
  - rewrite decide_True in Hr by lia.
    inv_bind Hr as m Hm. injection Hr as <- <-.
    apply list_get_Ok in Hm. simpl in Hm. rewrite Nat2Z.id in Hm.
    left. exists i, v, m. done.
Qed.

Lemma load_path_inv (stage : Stage F) path lp dev calls lp' dev' calls' :
  load_path stage path lp dev calls = Ok (lp', dev', calls') ->
  exists g, path_geom stage path = Some g /\
            reference_or_upload g lp dev = Ok (lp', dev') /\
            calls' = calls ++ [path].
Proof.
  unfold load_path, path_geom. intros Hl.
  destruct (primitive_child stage path) as [g|].
  - inv_bind Hl as [lp1 dev1] Hr. injection Hl as <- <- <-. eauto.
  - destruct (mesh_child stage path) as [g|]; [|done].
    inv_bind Hl as [lp1 dev1] Hr. injection Hl as <- <- <-. eauto.
Qed.

Lemma load_paths_inv (stage : Stage F) paths lp dev calls lp' dev' calls' :
  length (loaded_vertices lp) = length (wp_meshes lp) ->
  load_paths stage paths lp dev calls = Ok (lp', dev', calls') ->
  calls' = calls ++ paths /\
  (exists L W,
     loaded_vertices lp' = loaded_vertices lp ++ L /\
     wp_meshes lp' = wp_meshes lp ++ W /\
     length L = length paths /\ length W = length paths /\
     dev'.*1 = dev.*1 ++ uploaded_arrays L) /\
  forall j path, paths !! j = Some path ->
    exists points entry m,
      path_points stage path = Some points /\
      loaded_vertices lp' !! (length (loaded_vertices lp) + j) = Some entry /\
      wp_meshes lp' !! (length (loaded_vertices lp) + j) = Some m /\
      dedup_step points
        (take (length (loaded_vertices lp) + j) (loaded_vertices lp'))
        (take (length (loaded_vertices lp) + j) (wp_meshes lp'))
        entry m.
Proof.
  revert lp dev calls. induction paths as [|path paths IH];
    intros lp dev calls Hlen Hl; simpl in Hl.
  - injection Hl as <- <- <-. split; [by rewrite app_nil_r|]. split.
    + exists [], []. by rewrite !app_nil_r.
    + intros j path Hj. done.
  - inv_bind Hl as [[lp1 dev1] calls1] Hstep.
    apply load_path_inv in Hstep as (g & Hg & Hr & ->).
    pose proof (reference_or_upload_inv _ _ _ _ _ Hr) as Hcase.
    simpl in Hcase.
    set (points := scale_points (vertices g) (world_scale g)) in *.
    assert (exists entry m,
              loaded_vertices lp1 = loaded_vertices lp ++ [entry] /\
              wp_meshes lp1 = wp_meshes lp ++ [m] /\
              dev1.*1 = dev.*1 ++ uploaded_arrays [entry] /\
              dedup_step points (loaded_vertices lp) (wp_meshes lp) entry m)
      as (entry & m & Hl1 & Hw1 & Hd1 & Hstep).
    { destruct Hcase as [(i & v & m & Hi & Hv & Hm & Hl1 & Hw1 & ->)
                        |(Hnone & Hl1 & Hw1 & ->)].
      - exists None, m. repeat split; try done.
        + by rewrite app_nil_r.
        + left. eauto 10.
      - eexists (Some points), _. repeat split; try done.
        + by rewrite fmap_app.
        + by right. }
    assert (Hlen1 : length (loaded_vertices lp1) = length (wp_meshes lp1)).
    { rewrite Hl1, Hw1, !length_app. simpl. lia. }
    destruct (IH _ _ _ Hlen1 Hl) as (-> & (L & W & HL & HW & HlL & HlW & Hdev) & Hsteps).
    split; [by rewrite <- app_assoc|]. split.
    + exists (entry :: L), (m :: W).
      rewrite HL, HW, Hl1, Hw1, <- !app_assoc. simpl.
      repeat split; try done; try lia.
      rewrite Hdev, Hd1, <- app_assoc. f_equal.
      simpl. destruct entry; simpl; done.
    + intros [|j] path' Hj; simpl in Hj.
      * injection Hj as <-. exists points, entry, m.
        rewrite Nat.add_0_r.
        assert (Hpre : loaded_vertices lp' = loaded_vertices lp ++ entry :: L).
        { by rewrite HL, Hl1, <- app_assoc. }
        assert (Hprw : wp_meshes lp' = wp_meshes lp ++ m :: W).
        { by rewrite HW, Hw1, <- app_assoc. }
        repeat split.
        -- unfold path_points. by rewrite Hg.
        -- rewrite Hpre. by rewrite list_lookup_middle.
        -- rewrite Hprw, Hlen. by rewrite list_lookup_middle.
        -- rewrite Hpre, take_app_length.
           rewrite Hprw, Hlen, take_app_length. done.
      * destruct (Hsteps _ _ Hj) as (pts & e' & m' & Hpts & He' & Hm' & Hst).
        rewrite Hl1, length_app in He', Hm', Hst. simpl in He', Hm', Hst.
        replace (length (loaded_vertices lp) + 1 + j)
          with (length (loaded_vertices lp) + S j) in He', Hm', Hst by lia.
        eauto 10.
Qed.

Lemma reference_or_upload_is_Ok (g : GeomPrim F) lp dev :
  length (loaded_vertices lp) = length (wp_meshes lp) ->
  is_Ok (reference_or_upload g lp dev).
Proof.
  intros Hlen. unfold reference_or_upload, _registered_points_idx.
  set (points := scale_points (vertices g) (world_scale g)).
  destruct (registered_from_spec 0 points (loaded_vertices lp))
    as [[-> _]|(i & v & -> & Hi & _)].
  - rewrite decide_False by (intros Hne; by apply Hne). simpl. by eexists.
  - rewrite decide_True by lia. simpl. rewrite Nat2Z.id.
    apply lookup_lt_Some in Hi. rewrite Hlen in Hi.
    apply lookup_lt_is_Some_2 in Hi as [m Hm].
    unfold list_get. rewrite Hm. simpl. by eexists.
Qed.

(** The pass raises only for a path without geometry. *)
Lemma load_paths_is_Ok (stage : Stage F) paths lp dev calls :
  length (loaded_vertices lp) = length (wp_meshes lp) ->
  Forall (fun path => is_Some (path_geom stage path)) paths ->
  is_Ok (load_paths stage paths lp dev calls).
Proof.
  intros Hlen Hall. revert lp dev calls Hlen.
  induction Hall as [|path paths [g Hg] _ IH]; intros lp dev calls Hlen; simpl.
  - by eexists.
  - destruct (reference_or_upload_is_Ok g lp dev Hlen) as [[lp1 dev1] Hr].
    assert (load_path stage path lp dev calls = Ok (lp1, dev1, calls ++ [path]))
      as ->.
    { unfold load_path, path_geom in *.
      destruct (primitive_child stage path) as [g'|].
      - injection Hg as ->. by rewrite Hr.
      - rewrite Hg. by rewrite Hr. }
    simpl. apply IH.
    apply reference_or_upload_inv in Hr
      as [(i & v & m & _ & _ & _ & -> & -> & _)|(_ & -> & -> & _)];
      rewrite !length_app; simpl; lia.
Qed.

(** *** Registration *)

Lemma floordiv_Ok (a b n : nat) :
  floordiv a b = Ok n <-> b ≠ 0 /\ n = a / b.
Proof.
  unfold floordiv. destruct b; split.
  - done.
  - by intros [? _].
  - intros [= <-]. done.
  - intros [_ ->]. done.
Qed.

Lemma initialize_target_registered (stage : Stage F) num_envs track
    target_cfg proc counts cached :
  meshes proc !! target_prim_expr target_cfg = Some cached ->
  num_envs ≠ 0 ->
  initialize_target stage num_envs track target_cfg proc counts
  = Ok (proc, <[target_prim_expr target_cfg := length cached / num_envs]> counts).
Proof.
  intros Hc HE. unfold initialize_target. rewrite Hc.
  destruct num_envs; [done|]. done.
Qed.

(** A registration keeps what is registered and registers its target. *)
Lemma initialize_target_grows (stage : Stage F) num_envs track target_cfg
    proc counts proc' counts' :
  initialize_target stage num_envs track target_cfg proc counts
  = Ok (proc', counts') ->
  is_Some (meshes proc' !! target_prim_expr target_cfg) /\
  forall expr entry, meshes proc !! expr = Some entry ->
                     meshes proc' !! expr = Some entry.
Proof.
  unfold initialize_target. intros Hi.
  destruct (meshes proc !! target_prim_expr target_cfg) as [cached|] eqn:Hc.
  - inv_bind Hi as n Hn. injection Hi as <- <-. rewrite Hc. split; [by eexists|done].
  - case_decide; [done|].
    inv_bind Hi as [[lp dev] calls] Hl.
    inv_bind Hi as [entry n] Hp.
    inv_bind Hi as views Hv. injection Hi as <- <-. simpl. split.
    + rewrite lookup_insert_eq. by eexists.
    + intros expr entry' He.
      rewrite lookup_insert_ne; [done|]. intros <-. congruence.
Qed.

Lemma initialize_targets_grows (stage : Stage F) num_envs track targets
    proc counts proc' counts' :
  initialize_targets stage num_envs track targets proc counts
  = Ok (proc', counts') ->
  Forall (fun t => is_Some (meshes proc' !! target_prim_expr t)) targets /\
  forall expr entry, meshes proc !! expr = Some entry ->
                     meshes proc' !! expr = Some entry.
Proof.
  revert proc counts. induction targets as [|t targets IH];
    intros proc counts Hi; simpl in Hi.
  - injection Hi as <- <-. done.
  - inv_bind Hi as [proc1 counts1] Ht.
    apply initialize_target_grows in Ht as [[entry Ht] Hkeep].
    destruct (IH _ _ Hi) as [Hall Hkeep'].
    split; [|by eauto].
    constructor; [|done]. exists entry. by apply Hkeep'.
Qed.

Lemma initialize_targets_registered (stage : Stage F) num_envs track targets
    proc counts :
  Forall (fun t => is_Some (meshes proc !! target_prim_expr t)) targets ->
  num_envs ≠ 0 ->
  exists counts',
    initialize_targets stage num_envs track targets proc counts
    = Ok (proc, counts').
Proof.
  intros Hall HE. revert counts.
  induction Hall as [|t targets [cached Ht] _ IH]; intros counts; simpl.
  - by eexists.
  - rewrite (initialize_target_registered _ _ _ _ _ _ _ Ht HE). simpl.
    apply IH.
Qed.

(** C2. Registering expressions that are in the registry changes nothing in
    the process: no path is handed to the geometry readers and nothing is
    uploaded. Within one resolution pass every path is read once, the
    device receives exactly the arrays the pass kept in [loaded_vertices],
    and a path whose scaled vertex array equals (same shape, equal values)
    an array loaded earlier in the pass keeps [None] there, uploads nothing
    and gets the mesh of an earlier path with an equal array. *)
Theorem registry_never_reloads
    (stage : Stage F) (num_envs : nat) (track : bool)
    (targets : list RaycastTargetCfg) (proc proc1 : Process F)
    (counts1 : gmap string nat)
    (num_envs' : nat) (track' : bool) (counts0 : gmap string nat)
    (Hfirst : initialize_targets stage num_envs track targets proc ∅
              = Ok (proc1, counts1))
    (Hnum : num_envs' ≠ 0) :
  (exists counts2,
     initialize_targets stage num_envs' track' targets proc1 counts0
     = Ok (proc1, counts2)) /\
  (forall paths dev calls lp dev' calls',
     load_paths stage paths {| loaded_vertices := []; wp_meshes := [] |}
       dev calls = Ok (lp, dev', calls') ->
     calls' = calls ++ paths /\
     dev'.*1 = dev.*1 ++ uploaded_arrays (loaded_vertices lp) /\
     forall j path points i v,
       paths !! j = Some path ->
       path_points stage path = Some points ->
       i < j ->
       loaded_vertices lp !! i = Some (Some v) ->
       same_points v points = true ->
       loaded_vertices lp !! j = Some None /\
       exists i' v' m,
         i' < j /\
         loaded_vertices lp !! i' = Some (Some v') /\
         same_points v' points = true /\
         wp_meshes lp !! i' = Some m /\
         wp_meshes lp !! j = Some m).
Proof.
  split.
  - apply initialize_targets_grows in Hfirst as [Hall _].
    by apply initialize_targets_registered.
  - intros paths dev calls lp dev' calls' Hl.
    apply load_paths_inv in Hl as (Hcalls & (L & W & HL & HW & _ & _ & Hdev) & Hsteps);
      [|done].
    simpl in *. subst. split; [done|]. split; [done|].
    intros j path points i v Hj Hpts Hij Hi Hv.
    destruct (Hsteps _ _ Hj) as (pts & entry & m & Hpts' & He & Hm & Hstep).
    assert (pts = points) as -> by congruence.
    destruct Hstep as [(-> & i' & v' & Hi' & Hv' & Hm')|(-> & Hnone)].
    + split; [done|].
      apply lookup_take_Some in Hi' as [Hi' Hlt].
      apply lookup_take_Some in Hm' as [Hm' _].
      exists i', v', m. done.
    + exfalso. specialize (Hnone i v).
      rewrite lookup_take_lt in Hnone by done.
      specialize (Hnone Hi). congruence.
Qed.

(** *** The split of a local target *)

Lemma split_envs_length wp n idx iters :
  length (split_envs wp n idx iters) = iters.
Proof. revert idx. induction iters; intros idx; simpl; [done|by rewrite IHiters]. Qed.

Lemma split_envs_lookup wp n idx iters i :
  i < iters ->
  split_envs wp n idx iters !! i = Some (py_slice wp (idx + i * n) n).
Proof.
  revert idx i. induction iters as [|iters IH]; intros idx i Hi; [lia|].
  destruct i as [|i]; simpl.
  - by rewrite Nat.add_0_r.
  - rewrite IH by lia. do 2 f_equal. lia.
Qed.

Lemma concat_split_envs wp n idx iters :
  length wp = idx + iters * n ->
  concat (split_envs wp n idx iters) = drop idx wp.
Proof.
  revert idx. induction iters as [|iters IH]; intros idx Hlen; simpl.
  - symmetry. apply drop_ge. lia.
  - rewrite IH by lia. unfold py_slice.
    rewrite <- (take_drop n (drop idx wp)) at 2.
    by rewrite drop_drop.
Qed.

(** C4. A local target whose expression expands to [num_envs * k] paths is
    registered as [num_envs] chunks: chunk [i] is the run of [k] meshes
    from position [i * k] of the flat list of the pass, in discovery order;
    the chunks concatenate to the flat list, so no position is shared or
    dropped, and [k] is the recorded count. *)
Theorem local_target_is_split_in_order
    (stage : Stage F) (num_envs k : nat) (track : bool)
    (target_cfg : RaycastTargetCfg) (proc proc' : Process F)
    (counts counts' : gmap string nat)
    (Hlocal : is_global target_cfg = false)
    (Hnew : meshes proc !! target_prim_expr target_cfg = None)
    (Hlen : length (find_matching_prim_paths stage (target_prim_expr target_cfg))
            = num_envs * k)
    (Hinit : initialize_target stage num_envs track target_cfg proc counts
             = Ok (proc', counts')) :
  exists lp dev calls entry,
    load_paths stage
      (find_matching_prim_paths stage (target_prim_expr target_cfg))
      {| loaded_vertices := []; wp_meshes := [] |}
      (device proc) (extracted proc) = Ok (lp, dev, calls) /\
    length (wp_meshes lp) = num_envs * k /\
    meshes proc' !! target_prim_expr target_cfg = Some entry /\
    length entry = num_envs /\
    (forall i, i < num_envs ->
       entry !! i = Some (take k (drop (i * k) (wp_meshes lp)))) /\
    (forall i j chunk, entry !! i = Some chunk -> j < k ->
       chunk !! j = wp_meshes lp !! (i * k + j)) /\
    concat entry = wp_meshes lp /\
    counts' !! target_prim_expr target_cfg = Some k.
Proof.
  unfold initialize_target in Hinit. rewrite Hnew in Hinit.
  case_decide as Hempty; [done|].
  inv_bind Hinit as [[lp dev] calls] Hl.
  inv_bind Hinit as [entry n] Hp.
  inv_bind Hinit as views Hv. injection Hinit as <- <-.
  pose proof Hl as Hl'.
  apply load_paths_inv in Hl' as (_ & (L & W & _ & HW & _ & HlW & _) & _); [|done].
  simpl in HW. subst W. rewrite Hlen in HlW.
  unfold partition_meshes in Hp. rewrite Hlocal in Hp.
  inv_bind Hp as n' Hn. injection Hp as <- <-.
  apply floordiv_Ok in Hn as [HE ->]. rewrite HlW.
  assert (Hk : num_envs * k / num_envs = k).
  { rewrite Nat.mul_comm. by apply Nat.div_mul. }
  rewrite Hk.
  exists lp, dev, calls, (split_envs (wp_meshes lp) k 0 num_envs).
  split; [done|]. split; [done|]. simpl.
  split; [by rewrite lookup_insert_eq|].
  split; [by apply split_envs_length|].
  split; [|split; [|split]].
  - intros i Hi. by rewrite split_envs_lookup.
  - intros i j chunk Hchunk Hj.
    assert (i < num_envs) as Hi.
    { apply lookup_lt_Some in Hchunk. by rewrite split_envs_length in Hchunk. }
    rewrite split_envs_lookup in Hchunk by done. injection Hchunk as <-.
    unfold py_slice. simpl.
    rewrite lookup_take_lt by done. by rewrite lookup_drop.
  - rewrite concat_split_envs; [done|]. lia.
  - by rewrite lookup_insert_eq.
Qed.

(** *** The binding of a sensor *)

Lemma array2d_Ok (rows ids : list (list N)) : array2d rows = Ok ids -> ids = rows.
Proof.
  unfold array2d. destruct rows as [|r rows]; [by intros [= <-]|].
  destruct (forallb _ _); [by intros [= <-]|done].
Qed.

Lemma elem_of_concat {A} (x : A) (ls : list (list A)) :
  x ∈ concat ls <-> exists l, x ∈ l /\ l ∈ ls.
Proof.
  rewrite list_elem_of_In, in_concat. split.
  - intros (l & Hl & Hx). exists l. by rewrite !list_elem_of_In.
  - intros (l & Hx & Hl). exists l. by rewrite <- !list_elem_of_In.
Qed.

Lemma meshes_in_env_Ok (registry : gmap string (list (list wp_Mesh)))
    targets env_idx row :
  meshes_in_env registry targets env_idx = Ok row ->
  exists per_target,
    row = concat per_target /\
    Forall2 (fun t l => exists entry,
               registry !! target_prim_expr t = Some entry /\
               entry !! env_idx = Some l)
      targets per_target.
Proof.
  unfold meshes_in_env. intros Hm. inv_bind Hm as per_target Hp.
  injection Hm as <-. exists per_target. split; [done|].
  apply mapM_Ok_inv in Hp as [Hlen Hlk].
  apply Forall2_same_length_lookup_2; [done|].
  intros k t l Ht Hl. destruct (Hlk _ _ Ht) as (l' & Hl' & Hk).
  assert (l' = l) as -> by congruence.
  inv_bind Hl' as entry He. apply list_get_Ok in Hl'.
  unfold dict_get in He.
  destruct (registry !! target_prim_expr t) as [entry'|]; [|done].
  injection He as ->. eauto.
Qed.

(** C5, as the code has it. For every environment index [e] the bound mesh
    list of [e], and row [e] of the mesh id table, is the concatenation, in
    target order, of the registry's lists for [e]; so a mesh is in row [e]
    exactly when the registry lists it for [e] under a configured target. *)
Theorem binding_concatenates_registry
    (stage : Stage F) (num_envs : nat) (track : bool)
    (targets : list RaycastTargetCfg) (proc proc' : Process F) (b : Binding)
    (Hinit : _initialize_warp_meshes stage num_envs track targets proc
             = Ok (b, proc')) :
  length (_meshes b) = num_envs /\
  forall e, e < num_envs ->
    exists per_target,
      Forall2 (fun t l => exists entry,
                 meshes proc' !! target_prim_expr t = Some entry /\
                 entry !! e = Some l)
        targets per_target /\
      _meshes b !! e = Some (concat per_target) /\
      _mesh_ids_wp b !! e = Some (mesh_id <$> concat per_target) /\
      forall m, m ∈ concat per_target <->
                exists t entry l,
                  t ∈ targets /\
                  meshes proc' !! target_prim_expr t = Some entry /\
                  entry !! e = Some l /\ m ∈ l.
Proof.
  unfold _initialize_warp_meshes in Hinit.
  inv_bind Hinit as [proc1 counts] Ht.
  destruct (forallb _ targets); [done|].
  inv_bind Hinit as bound Hb.
  inv_bind Hinit as views Hv.
  inv_bind Hinit as ids Hids. injection Hinit as <- <-. simpl.
  apply array2d_Ok in Hids as ->.
  apply mapM_Ok_inv in Hb as [Hlen Hlk]. rewrite length_seq in Hlen.
  split; [done|]. intros e He.
  destruct (Hlk e e) as (row & Hrow & Hbe).
  { by apply lookup_seq. }
  apply meshes_in_env_Ok in Hrow as (per_target & -> & Hper).
  exists per_target. split; [done|]. split; [done|]. split.
  { by rewrite list_lookup_fmap, Hbe. }
  intros m. rewrite elem_of_concat. split.
  - intros (l & Hm & Hl).
    apply list_elem_of_lookup in Hl as [k Hk].
    destruct (Forall2_lookup_r _ _ _ _ _ Hper Hk) as (t & Htk & entry & Hentry & Hel).
    exists t, entry, l. split; [by eapply list_elem_of_lookup_2|done].
  - intros (t & entry & l & Ht' & Hentry & Hel & Hm).
    apply list_elem_of_lookup in Ht' as [k Hk].
    destruct (Forall2_lookup_l _ _ _ _ _ Hper Hk) as (l' & Hl' & entry' & Hentry' & Hel').
    assert (entry' = entry) as -> by congruence.
    assert (l' = l) as -> by congruence.
    exists l. split; [done|]. by eapply list_elem_of_lookup_2.
Qed.

End RegistryFacts.

(** ** The registry on the scene with three environments *)

(** The pass over the six obstacles uploads the two shapes once and
    references them for the other environments. *)
Example obstacle_pass_reuses_meshes :
  load_paths demo_stage obstacle_paths
    {| loaded_vertices := []; wp_meshes := [] |} [] []
  = Ok ({| loaded_vertices :=
             [Some (vertices (triangle 1)); Some (vertices (triangle 2));
              None; None; None; None];
           wp_meshes := [mesh0; mesh1; mesh0; mesh1; mesh0; mesh1] |},
        [(vertices (triangle 1), faces (triangle 1));
         (vertices (triangle 2), faces (triangle 2))],
        obstacle_paths).
Proof. reflexivity. Qed.

Lemma registry_never_reloads_witness :
  exists proc1 counts1,
    initialize_targets demo_stage 3 true [obstacles_target; ground_target]
      empty_process ∅ = Ok (proc1, counts1) /\
    (exists counts2,
       initialize_targets demo_stage 3 true [obstacles_target; ground_target]
         proc1 ∅ = Ok (proc1, counts2)) /\
    (forall paths dev calls lp dev' calls',
       load_paths demo_stage paths
         {| loaded_vertices := []; wp_meshes := [] |} dev calls
       = Ok (lp, dev', calls') ->
       calls' = calls ++ paths /\
       dev'.*1 = dev.*1 ++ uploaded_arrays (loaded_vertices lp) /\
       forall j path points i v,
         paths !! j = Some path ->
         path_points demo_stage path = Some points ->
         i < j ->
         loaded_vertices lp !! i = Some (Some v) ->
         same_points v points = true ->
         loaded_vertices lp !! j = Some None /\
         exists i' v' m,
           i' < j /\
           loaded_vertices lp !! i' = Some (Some v') /\
           same_points v' points = true /\
           wp_meshes lp !! i' = Some m /\
           wp_meshes lp !! j = Some m).
Proof.
  eexists _, _. split; [reflexivity|].
  eapply (registry_never_reloads demo_stage 3 true
            [obstacles_target; ground_target] empty_process _ _ 3 true ∅);
    [reflexivity|lia].
Defined.

Lemma local_target_is_split_in_order_witness :
  exists proc' counts' lp dev calls entry,
    initialize_target demo_stage 3 true obstacles_target empty_process ∅
    = Ok (proc', counts') /\
    load_paths demo_stage
      (find_matching_prim_paths demo_stage (target_prim_expr obstacles_target))
      {| loaded_vertices := []; wp_meshes := [] |}
      (device (@empty_process Z)) (extracted (@empty_process Z))
    = Ok (lp, dev, calls) /\
    length (wp_meshes lp) = 3 * 2 /\
    meshes proc' !! target_prim_expr obstacles_target = Some entry /\
    length entry = 3 /\
    (forall i, i < 3 ->
       entry !! i = Some (take 2 (drop (i * 2) (wp_meshes lp)))) /\
    (forall i j chunk, entry !! i = Some chunk -> j < 2 ->
       chunk !! j = wp_meshes lp !! (i * 2 + j)) /\
    concat entry = wp_meshes lp /\
    counts' !! target_prim_expr obstacles_target = Some 2.
Proof.
  eassert (initialize_target demo_stage 3 true obstacles_target
             empty_process ∅ = Ok (_, _)) as Hinit by reflexivity.
  destruct (local_target_is_split_in_order demo_stage 3 2 true obstacles_target
              empty_process _ ∅ _ eq_refl eq_refl eq_refl Hinit)
    as (lp & dev & calls & entry & Hfacts).
  eexists _, _, lp, dev, calls, entry. split; [exact Hinit|exact Hfacts].
Defined.

Lemma binding_concatenates_registry_witness :
  exists b proc',
    _initialize_warp_meshes demo_stage 3 true [ground_target; obstacles_target]
      empty_process = Ok (b, proc') /\
    length (_meshes b) = 3 /\
    forall e, e < 3 ->
      exists per_target,
        Forall2 (fun t l => exists entry,
                   meshes proc' !! target_prim_expr t = Some entry /\
                   entry !! e = Some l)
          [ground_target; obstacles_target] per_target /\
        _meshes b !! e = Some (concat per_target) /\
        _mesh_ids_wp b !! e = Some (mesh_id <$> concat per_target) /\
        forall m, m ∈ concat per_target <->
                  exists t entry l,
                    t ∈ [ground_target; obstacles_target] /\
                    meshes proc' !! target_prim_expr t = Some entry /\
                    entry !! e = Some l /\ m ∈ l.
Proof.
  eexists _, _. split; [reflexivity|].
  eapply (binding_concatenates_registry demo_stage 3 true
            [ground_target; obstacles_target] empty_process).
  reflexivity.
Defined.

(** C5, the part that fails. The obstacle shapes are the same in every
    environment, so the pass references one mesh for all of them: the mesh
    resolved for the first obstacle of environment 0 is in the row of
    environment 0 and in the row of environment 1. *)
Lemma shared_mesh_in_two_environment_rows :
  exists b proc',
    _initialize_warp_meshes demo_stage 3 false [obstacles_target]
      empty_process = Ok (b, proc') /\
    _meshes b = [[mesh0; mesh1]; [mesh0; mesh1]; [mesh0; mesh1]] /\
    _mesh_ids_wp b = [[0; 1]; [0; 1]; [0; 1]]%N /\
    exists m row0 row1,
      _meshes b !! 0 = Some row0 /\ _meshes b !! 1 = Some row1 /\
      m ∈ row0 /\ m ∈ row1.
Proof.
  eexists _, _. split; [reflexivity|]. split; [reflexivity|].
  split; [reflexivity|].
  exists mesh0, [mesh0; mesh1], [mesh0; mesh1].
  repeat split; try reflexivity; apply list_elem_of_here.
Qed.

(** A cached local target: the recorded count is the number of
    environments of the entry divided by the number of environments, which
    is 1 whatever the number of meshes in each chunk. *)
Lemma cached_count_ignores_chunks {F : Type} `{NumpyScalar F}
    (stage : Stage F) num_envs track target_cfg (proc : Process F) counts cached :
  meshes proc !! target_prim_expr target_cfg = Some cached ->
  length cached = num_envs -> num_envs ≠ 0 ->
  exists counts',
    initialize_target stage num_envs track target_cfg proc counts
    = Ok (proc, counts') /\
    counts' !! target_prim_expr target_cfg = Some 1.
Proof.
  intros Hc Hlen HE. eexists. split.
  - by apply initialize_target_registered.
  - rewrite lookup_insert_eq, Hlen. f_equal. by apply Nat.div_same.
Qed.

(** C3, on the code. Two sensors on the local obstacle target, three
    environments, two obstacles each: the first sensor registers the
    expression with chunks of two meshes and records 2; the second finds the
    expression in the registry and records 3 // 3 = 1, and allocates
    transform buffers one mesh wide, while its rows bind two meshes. *)
Theorem second_sensor_records_one_mesh_per_env :
  (let* (first, proc1) :=
     _initialize_impl demo_stage demo_phys 3 tracking_sensor_cfg empty_process in
   let* (second, proc2) :=
     _initialize_impl demo_stage demo_phys 3 tracking_sensor_cfg proc1 in
   Ok (meshes proc1 !! obstacle_expr,
       _num_meshes_per_env (_binding first) !! obstacle_expr,
       _num_meshes_per_env (_binding second) !! obstacle_expr,
       _meshes (_binding second),
       _mesh_positions_w (_binding second)))
  = Ok (Some [[mesh0; mesh1]; [mesh0; mesh1]; [mesh0; mesh1]],
        Some 2,
        Some 1,
        [[mesh0; mesh1]; [mesh0; mesh1]; [mesh0; mesh1]],
        [[zeros3]; [zeros3]; [zeros3]]).
Proof. reflexivity. Qed.

(** The refresh of a first sensor with a global and a local target: the
    pose of the ground plane goes to column 0 of every row, the two obstacle
    poses of each environment to columns 1 and 2. *)
Example refresh_writes_targets_in_order :
  (let* (self, _) :=
     _initialize_impl demo_stage demo_phys 3 mixed_tracking_sensor_cfg
       empty_process in
   let* self' := _update_buffers_impl miss_kernel demo_phys self [0; 1; 2] in
   Ok (_mesh_positions_w (_binding self), _mesh_positions_w (_binding self')))
  = Ok (replicate 3 (replicate 3 zeros3),
        [[zeros3; (1, 1, 0); (1, 2, 0)];
         [zeros3; (11, 1, 0); (11, 2, 0)];
         [zeros3; (21, 1, 0); (21, 2, 0)]]%R).
Proof. reflexivity. Qed.

(** C8, on the code. The first sensor's refresh writes the two obstacle
    poses of each environment into its row. The second sensor on the same
    target allocated buffers one mesh wide (the count of C3), and its
    refresh of two poses per environment does not fit: the update raises.
    So does the update of a sensor with one global target of six prims, for
    which line 247 records one mesh per environment. *)
Theorem refresh_overruns_the_allocated_buffers :
  (let* (first, proc1) :=
     _initialize_impl demo_stage demo_phys 3 tracking_sensor_cfg empty_process in
   let* (second, proc2) :=
     _initialize_impl demo_stage demo_phys 3 tracking_sensor_cfg proc1 in
   let* (global, _) :=
     _initialize_impl demo_stage demo_phys 3 global_tracking_sensor_cfg
       empty_process in
   Ok ((fun self => _mesh_positions_w (_binding self))
         <$> _update_buffers_impl miss_kernel demo_phys first [0; 1; 2],
       _mesh_positions_w (_binding second),
       _update_buffers_impl miss_kernel demo_phys second [0; 1; 2],
       _mesh_positions_w (_binding global),
       _update_buffers_impl miss_kernel demo_phys global [0; 1; 2]))
  = Ok (Ok [[(1, 1, 0); (1, 2, 0)]; [(11, 1, 0); (11, 2, 0)];
            [(21, 1, 0); (21, 2, 0)]]%R,
        [[zeros3]; [zeros3]; [zeros3]],
        Raise (RuntimeError "shape mismatch"),
        [[zeros3]; [zeros3]; [zeros3]],
        Raise (RuntimeError "shape mismatch")).
Proof. reflexivity. Qed.

(** ** The camera images *)

Lemma chunks_length {A} (count : nat) (t : list A) (n : nat) :
  length (chunks count t n) = n.
Proof. revert t. induction n; intros t; simpl; [done|by rewrite IHn]. Qed.

Lemma chunks_lookup {A} (count : nat) (t : list A) (n j : nat) :
  j < n -> chunks count t n !! j = Some (take count (drop (j * count) t)).
Proof.
  revert t j. induction n as [|n IH]; intros t j Hj; [lia|].
  destruct j as [|j]; simpl; [done|].
  rewrite IH by lia. by rewrite drop_drop.
Qed.

Lemma concat_uniform_length {A} (c : nat) (rows : list (list A)) :
  Forall (fun r => length r = c) rows ->
  length (concat rows) = length rows * c.
Proof.
  induction 1 as [|r rows Hr _ IH]; simpl; [done|].
  rewrite length_app, IH, Hr. done.
Qed.

Lemma concat_uniform_chunk {A} (c : nat) (rows : list (list A)) j row :
  Forall (fun r => length r = c) rows ->
  rows !! j = Some row ->
  take c (drop (j * c) (concat rows)) = row.
Proof.
  intros Hall. revert j row.
  induction Hall as [|r rows Hr _ IH]; intros j row Hj; [done|].
  destruct j as [|j]; simpl in *.
  - injection Hj as <-. by rewrite drop_0, take_app_length'.
  - rewrite <- drop_drop, drop_app_length' by done. by apply IH.
Qed.

(** The pixel (h, w) of image j of a reshaped tensor is entry h * width + w
    of row j. *)
Lemma image_view_pixel {A} (t : list (list A)) (height width : nat) images :
  image_view t height width = Ok images ->
  Forall (fun r => length r = height * width) t ->
  length images = length t /\
  forall j row h w,
    t !! j = Some row -> h < height -> w < width ->
    pixel images j h w = row !! (h * width + w).
Proof.
  unfold image_view. intros Hv Hall.
  case_decide as Hsize; [|done]. destruct Hsize as [Hsize _].
  injection Hv as <-.
  pose proof (concat_uniform_length _ _ Hall) as Hlen.
  assert (Hn : length (concat t) / (height * width) = length t).
  { rewrite Hlen. by apply Nat.div_mul. }
  rewrite Hn. split.
  - by rewrite length_fmap, chunks_length.
  - intros j row h w Hj Hh Hw. unfold pixel.
    rewrite list_lookup_fmap.
    rewrite chunks_lookup by (by eapply lookup_lt_Some).
    simpl. rewrite (concat_uniform_chunk _ _ _ _ Hall Hj).
    rewrite chunks_lookup by done. simpl.
    rewrite lookup_take_lt by done. rewrite lookup_drop. done.
Qed.

Lemma compute_camera_world_poses_length phys self env_ids pos quats :
  _compute_camera_world_poses phys self env_ids = Ok (pos, quats) ->
  length pos = length env_ids /\ length quats = length env_ids.
Proof.
  unfold _compute_camera_world_poses. intros Hc.
  inv_bind Hc as [pos0 quats0] Hposes.
  inv_bind Hc as off_pos Hop. inv_bind Hc as off_quat Hoq.
  injection Hc as <- <-.
  apply compute_world_poses_Some in Hposes as (Hlp & Hlq & _).
  apply index_select_Ok_inv in Hop as [Hlop _].
  apply index_select_Ok_inv in Hoq as [Hloq _].
  rewrite !length_zip_with. lia.
Qed.

Lemma world_rays_directions_length yaw_only quats pos starts directions :
  length (world_rays yaw_only quats pos starts directions).2
  = length quats `min` length directions.
Proof. unfold world_rays. simpl. by rewrite length_zip_with. Qed.

Lemma image_plane_distances_lookup quats ray_depth ray_directions_w j q dd dirs :
  quats !! j = Some q -> ray_depth !! j = Some dd ->
  ray_directions_w !! j = Some dirs ->
  image_plane_distances quats ray_depth ray_directions_w !! j
  = Some (zip_with (fun d dir => vec_x (quat_apply (quat_inv q) (vscale d dir)))
            dd dirs).
Proof.
  intros Hq Hd Hdir. unfold image_plane_distances.
  rewrite lookup_zip_with, Hq. simpl.
  rewrite lookup_zip_with, Hd. simpl. by rewrite Hdir.
Qed.

Lemma image_plane_distances_shape quats ray_depth ray_directions_w n c :
  length quats = n -> length ray_depth = n -> length ray_directions_w = n ->
  Forall (fun r => length r = c) ray_depth ->
  Forall (fun r => length r = c) ray_directions_w ->
  length (image_plane_distances quats ray_depth ray_directions_w) = n /\
  Forall (fun r => length r = c)
    (image_plane_distances quats ray_depth ray_directions_w).
Proof.
  intros Hq Hd Hdir Hdc Hdirc. unfold image_plane_distances. split.
  - rewrite !length_zip_with. lia.
  - apply Forall_lookup. intros j r Hj.
    apply lookup_zip_with_Some in Hj as (q & [dd dirs] & -> & _ & Hz).
    apply lookup_zip_with_Some in Hz as (dd' & dirs' & [= <- <-] & Hdd & Hdirs).
    simpl. rewrite length_zip_with.
    pose proof (Forall_lookup_1 _ _ _ _ Hdc Hdd) as Hl1.
    pose proof (Forall_lookup_1 _ _ _ _ Hdirc Hdirs) as Hl2.
    simpl in Hl1, Hl2. lia.
Qed.

(** C7. With the "distance_to_image_plane" channel configured, the pixel
    (h, w) of an updated camera is the first component of the hit vector
    (hit distance times world ray direction of ray h * width + w) rotated by
    the inverse camera orientation; the "distance_to_camera" channel holds
    the hit distance itself. The kernel is asked for distances, and its
    output is taken with one row of height * width entries per updated
    camera. *)
Theorem distance_to_image_plane_is_projected
    (kernel : Kernel) (phys : Physics) (self self' : RayCasterCamera)
    (env_ids : list nat)
    (Hcfg : "distance_to_image_plane" ∈ data_types self)
    (Hupdate : camera_update_buffers_impl kernel phys self env_ids = Ok self') :
  exists pos quats starts directions b transforms,
    _compute_camera_world_poses phys self env_ids = Ok (pos, quats) /\
    index_select (ray_starts (caster self)) env_ids = Ok starts /\
    index_select (ray_directions (caster self)) env_ids = Ok directions /\
    tracked_transforms phys (caster self) env_ids = Ok (b, transforms) /\
    let ray_starts_w := (world_rays false quats pos starts directions).1 in
    let ray_directions_w := (world_rays false quats pos starts directions).2 in
    let out :=
      kernel ray_starts_w ray_directions_w (_mesh_ids_wp b)
        (max_distance (cfg (caster self))) transforms true
        (configured self "normals") in
    let height := (image_shape self).1 in
    let width := (image_shape self).2 in
    length (depth out) = length env_ids ->
    Forall (fun r => length r = height * width) (depth out) ->
    Forall (fun r => length r = height * width) ray_directions_w ->
    forall j i q h w d dir,
      env_ids !! j = Some i -> (forall j', j < j' -> env_ids !! j' ≠ Some i) ->
      quats !! j = Some q ->
      h < height -> w < width ->
      (depth out !! j) ≫= (.!! (h * width + w)) = Some d ->
      (ray_directions_w !! j) ≫= (.!! (h * width + w)) = Some dir ->
      pixel (distance_to_image_plane (_cam_data self')) i h w
      = Some (vec_x (quat_apply (quat_inv q) (vscale d dir))) /\
      ("distance_to_camera" ∈ data_types self ->
       pixel (distance_to_camera (_cam_data self')) i h w = Some d).
Proof.
  unfold camera_update_buffers_impl in Hupdate.
  assert (Hplane : configured self "distance_to_image_plane" = true).
  { unfold configured. by apply bool_decide_eq_true. }
  rewrite Hplane, orb_true_l in Hupdate.
  inv_bind Hupdate as frames Hframes.
  inv_bind Hupdate as frame' Hframe'.
  inv_bind Hupdate as [pos quats] Hposes.
  inv_bind Hupdate as cam_pos_w' Hcp.
  inv_bind Hupdate as quat_w_world' Hcq.
  inv_bind Hupdate as starts Hs.
  inv_bind Hupdate as directions Hdir.
  destruct (world_rays false quats pos starts directions)
    as [ray_starts_w ray_directions_w] eqn:Hrays.
  inv_bind Hupdate as [b transforms] Hb.
  set (out := kernel _ _ _ _ _ _ _) in Hupdate.
  inv_bind Hupdate as plane' Hplane'.
  inv_bind Hupdate as camera' Hcamera'.
  inv_bind Hupdate as normals' Hnormals'.
  injection Hupdate as <-.
  exists pos, quats, starts, directions, b, transforms.
  rewrite Hrays. simpl.
  split; [done|]. split; [done|]. split; [done|]. split; [done|].
  fold out. intros Hdl Hdc Hdirc j i q h w d dir Hj Hlast Hq Hh Hw Hd Hdr.
  destruct (compute_camera_world_poses_length _ _ _ _ _ Hposes) as [_ Hlq].
  destruct (depth out !! j) as [dd|] eqn:Hdd; [|done].
  destruct (ray_directions_w !! j) as [dirs|] eqn:Hdirs; [|done].
  simpl in Hd, Hdr.
  assert (Hldir : length ray_directions_w = length env_ids).
  { apply lookup_lt_Some in Hdirs. apply lookup_lt_Some in Hj.
    pose proof (world_rays_directions_length false quats pos starts directions)
      as Hwl.
    rewrite Hrays in Hwl. simpl in Hwl.
    apply index_select_Ok_inv in Hdir as [Hld _]. lia. }
  split.
  - inv_bind Hplane' as images Himg.
    destruct (image_plane_distances_shape quats (depth out) ray_directions_w
                (length env_ids) _ Hlq Hdl Hldir Hdc Hdirc) as [Hn Hshape].
    apply image_view_pixel in Himg as [Hli Hpix]; [|done].
    assert (Hrow : plane' !! i = images !! j).
    { eapply index_put_last; [exact Hplane'|lia|done..]. }
    unfold pixel at 1. rewrite Hrow.
    change (pixel images j h w = Some (vec_x (quat_apply (quat_inv q) (vscale d dir)))).
    erewrite Hpix; [|by apply image_plane_distances_lookup|done|done].
    rewrite lookup_zip_with, Hd. simpl. by rewrite Hdr.
  - intros Hcam.
    assert (Hc : configured self "distance_to_camera" = true).
    { unfold configured. by apply bool_decide_eq_true. }
    rewrite Hc in Hcamera'.
    inv_bind Hcamera' as images Himg.
    apply image_view_pixel in Himg as [Hli Hpix]; [|done].
    assert (Hrow : camera' !! i = images !! j).
    { eapply index_put_last; [exact Hcamera'|lia|done..]. }
    unfold pixel at 1. rewrite Hrow.
    change (pixel images j h w = Some d).
    erewrite Hpix; [|exact Hdd|done|done]. done.
Qed.

Lemma distance_to_image_plane_is_projected_witness :
  exists self' q d dir,
    camera_update_buffers_impl miss_kernel demo_phys demo_camera [0; 2]
    = Ok self' /\
    quat_w_world (_cam_data self') !! 2 = Some q /\
    pixel (distance_to_image_plane (_cam_data self')) 2 0 1
    = Some (vec_x (quat_apply (quat_inv q) (vscale d dir))) /\
    ("distance_to_camera" ∈ data_types demo_camera ->
     pixel (distance_to_camera (_cam_data self')) 2 0 1 = Some d).
Proof.
  eassert (camera_update_buffers_impl miss_kernel demo_phys demo_camera [0; 2]
           = Ok _) as Hupdate by reflexivity.
  assert (Hcfg : "distance_to_image_plane" ∈ data_types demo_camera)
    by apply list_elem_of_here.
  destruct (distance_to_image_plane_is_projected miss_kernel demo_phys
              demo_camera _ [0; 2] Hcfg Hupdate)
    as (pos & quats & starts & directions & b & transforms
        & Hposes & Hs & Hdir & Hb & Hpixel).
  eassert (_compute_camera_world_poses demo_phys demo_camera [0; 2]
           = Ok (_, _)) as Hposes' by reflexivity.
  rewrite Hposes' in Hposes. injection Hposes as <- <-.
  eassert (index_select (ray_starts (caster demo_camera)) [0; 2] = Ok _)
    as Hs' by reflexivity.
  rewrite Hs' in Hs. injection Hs as <-.
  eassert (index_select (ray_directions (caster demo_camera)) [0; 2] = Ok _)
    as Hdir' by reflexivity.
  rewrite Hdir' in Hdir. injection Hdir as <-.
  eassert (tracked_transforms demo_phys (caster demo_camera) [0; 2]
           = Ok (_, _)) as Hb' by reflexivity.
  rewrite Hb' in Hb. injection Hb as <- <-.
  eexists _, _, _, _. split; [exact Hupdate|]. split; [reflexivity|].
  apply (Hpixel eq_refl) with (j := 1).
  - repeat constructor.
  - repeat constructor.
  - reflexivity.
  - intros [|[|j']] Hlt; [lia|lia|done].
  - reflexivity.
  - simpl. lia.
  - simpl. lia.
  - reflexivity.
  - reflexivity.
Defined.

Section CameraExample.
Local Open Scope R_scope.

Lemma quat_mul_identity : quat_mul identity_quat identity_quat = identity_quat.
Proof. unfold quat_mul, identity_quat. repeat f_equal; ring. Qed.

Lemma quat_inv_identity : quat_inv identity_quat = identity_quat.
Proof.
  unfold quat_inv, quat_conjugate, identity_quat.
  replace (- 0) with 0 by ring. apply normalize_unit. simpl. ring.
Qed.

Lemma quat_apply_identity (v : vec3) : quat_apply identity_quat v = v.
Proof.
  destruct v as [[x y] z].
  unfold quat_apply, identity_quat, vadd, vscale, cross.
  repeat f_equal; ring.
Qed.

End CameraExample.

(** For the ray across the optical axis of the level camera of environment
    0 the image-plane distance is 0, while the distance to the camera is
    the ray distance (here the maximum distance of a miss). *)
Example image_plane_distance_is_not_ray_distance :
  let q := quat_mul identity_quat identity_quat in
  let plane_px :=
    vec_x (quat_apply (quat_inv q)
             (vscale 100 (quat_apply q (0, 1, 0)%R))) in
  exists self',
    camera_update_buffers_impl miss_kernel demo_phys demo_camera [0; 2]
    = Ok self' /\
    pixel (distance_to_image_plane (_cam_data self')) 0 0 1 = Some plane_px /\
    plane_px = 0%R /\
    pixel (distance_to_camera (_cam_data self')) 0 0 1 = Some 100%R.
Proof.
  intros q plane_px.
  eexists. split; [reflexivity|]. split; [reflexivity|]. split.
  - unfold plane_px, q.
    rewrite quat_mul_identity, quat_inv_identity, !quat_apply_identity.
    unfold vec_x, vscale. simpl. ring.
  - reflexivity.
Qed.

(** ** The mesh registry, further *)

Section RegistryMore.
Context {F : Type} `{NumpyScalar F}.

Lemma registered_from_first (idx : nat) (points : ndarray F)
    (regs : list (option (ndarray F))) :
  (registered_from idx points regs = (-1)%Z /\
   forall i v, regs !! i = Some (Some v) -> same_points v points = false)
  \/
  (exists i v,
     registered_from idx points regs = Z.of_nat (idx + i) /\
     regs !! i = Some (Some v) /\ same_points v points = true /\
     forall i' v', i' < i -> regs !! i' = Some (Some v') ->
                   same_points v' points = false).
Proof.
  revert idx. induction regs as [|[reg|] rest IH]; intros idx; cbn [registered_from].
  - left. split; [done|]. intros i v Hi. by rewrite lookup_nil in Hi.
  - destruct (same_points reg points) eqn:Hsame.
    + right. exists 0, reg. rewrite Nat.add_0_r. repeat split; try done.
      intros i' v' Hlt. lia.
    + destruct (IH (S idx)) as [[Hnone Hall]|(i & v & Hidx & Hi & Hv & Hfirst)].
      * left. split; [done|]. intros [|i] v Hi; cbn in Hi.
        -- by inversion Hi; subst.
        -- by eapply Hall.
      * right. exists (S i), v. rewrite Hidx. repeat split; try done.
        -- f_equal. lia.
        -- intros [|i'] v' Hlt Hi'; cbn in Hi'.
           ++ by inversion Hi'; subst.
           ++ eapply Hfirst; [|done]. lia.
  - destruct (IH (S idx)) as [[Hnone Hall]|(i & v & Hidx & Hi & Hv & Hfirst)].
    + left. split; [done|]. intros [|i] v Hi; cbn in Hi; [done|]. by eapply Hall.
    + right. exists (S i), v. rewrite Hidx. repeat split; try done.
      * f_equal. lia.
      * intros [|i'] v' Hlt Hi'; cbn in Hi'; [done|].
        eapply Hfirst; [|done]. lia.
Qed.

(** X1. [_registered_points_idx] returns -1 exactly when no registered array
    equals the points (same shape, equal values); otherwise it returns the
    index of the first registered array that does, skipping the [None]
    entries. *)
Theorem registered_points_idx_is_first_match (points : ndarray F)
    (registered_points : list (option (ndarray F))) :
  (_registered_points_idx points registered_points = (-1)%Z /\
   forall i v, registered_points !! i = Some (Some v) ->
               same_points v points = false)
  \/
  (exists i v,
     _registered_points_idx points registered_points = Z.of_nat i /\
     registered_points !! i = Some (Some v) /\
     same_points v points = true /\
     forall i' v', i' < i -> registered_points !! i' = Some (Some v') ->
                   same_points v' points = false).
Proof.
  unfold _registered_points_idx.
  destruct (registered_from_first 0 points registered_points)
    as [?|(i & v & ? & ? & ? & ?)]; [by left|].
  right. by exists i, v.
Qed.

Lemma pass_inv_step (stage : Stage F) n0 ps lp dev path g lp' dev' :
  pass_inv stage n0 ps lp dev ->
  path_geom stage path = Some g ->
  reference_or_upload g lp dev = Ok (lp', dev') ->
  pass_inv stage n0 (ps ++ [path]) lp' dev'.
Proof.
  intros (Hl & Hw & Hn0 & Hup & Href) Hg Hstep.
  apply reference_or_upload_inv in Hstep. cbn zeta in Hstep.
  destruct Hstep as [(i & v & m & Hi & Hsame & Hm & Hl' & Hw' & ->)
                    |(Hfresh & Hl' & Hw' & ->)].
  - assert (i < length ps) as Hlt.
    { rewrite <- Hl. by eapply lookup_lt_Some. }
    split_and!.
    + rewrite Hl', !length_app. cbn. lia.
    + rewrite Hw', !length_app. cbn. lia.
    + done.
    + intros i0 v0. rewrite Hl'. intros Hi0.
      apply lookup_app_Some in Hi0 as [Hi0|[Hge Hi0]].
      * destruct (Hup _ _ Hi0) as (p & gi & m0 & ? & ? & ? & ? & ? & ?).
        exists p, gi, m0. split_and!; try done.
        -- by apply lookup_app_l_Some.
        -- rewrite Hw'. by apply lookup_app_l_Some.
      * apply list_lookup_singleton_Some in Hi0 as [_ ?]. done.
    + intros j p Hj. apply lookup_app_Some in Hj as [Hj|[Hge Hj]].
      * destruct (Href _ _ Hj) as (g0 & m0 & i0 & v0 & ? & ? & ? & ? & ? & ?).
        exists g0, m0, i0, v0. split_and!; try done.
        all: rewrite ?Hl', ?Hw'; by apply lookup_app_l_Some.
      * apply list_lookup_singleton_Some in Hj as [Hj ->].
        assert (j = length ps) as -> by lia.
        exists g, m, i, v. split_and!; try done.
        -- rewrite Hw', <- Hw. by rewrite list_lookup_middle.
        -- lia.
        -- rewrite Hl'. by apply lookup_app_l_Some.
        -- rewrite Hw'. by apply lookup_app_l_Some.
        -- right. split; [lia|done].
  - split_and!.
    + rewrite Hl', !length_app. cbn. lia.
    + rewrite Hw', !length_app. cbn. lia.
    + rewrite length_app. lia.
    + intros i0 v0. rewrite Hl'. intros Hi0.
      apply lookup_app_Some in Hi0 as [Hi0|[Hge Hi0]].
      * destruct (Hup _ _ Hi0) as (p & gi & m0 & ? & ? & ? & ? & ? & ?).
        exists p, gi, m0. split_and!; try done.
        -- by apply lookup_app_l_Some.
        -- rewrite Hw'. by apply lookup_app_l_Some.
        -- by apply lookup_app_l_Some.
      * apply list_lookup_singleton_Some in Hi0 as [Hi0 Hv0].
        inversion Hv0; subst v0.
        assert (i0 = length ps) as -> by lia.
        exists path, g, {| mesh_id := N.of_nat (length dev) |}.
        split_and!; try done.
        -- by rewrite list_lookup_middle.
        -- rewrite Hw', <- Hw. by rewrite list_lookup_middle.
        -- cbn. rewrite Nat2N.id. done.
        -- cbn. rewrite Nat2N.id. by rewrite list_lookup_middle.
    + intros j p Hj. apply lookup_app_Some in Hj as [Hj|[Hge Hj]].
      * destruct (Href _ _ Hj) as (g0 & m0 & i0 & v0 & ? & ? & ? & ? & ? & ?).
        exists g0, m0, i0, v0. split_and!; try done.
        all: rewrite ?Hl', ?Hw'; by apply lookup_app_l_Some.
      * apply list_lookup_singleton_Some in Hj as [Hj ->].
        assert (j = length ps) as -> by lia.
        exists g, {| mesh_id := N.of_nat (length dev) |}, (length ps),
          (scale_points (vertices g) (world_scale g)).
        split_and!; try done.
        -- rewrite Hw', <- Hw. by rewrite list_lookup_middle.
        -- rewrite Hl', <- Hl. by rewrite list_lookup_middle.
        -- rewrite Hw', <- Hw. by rewrite list_lookup_middle.
        -- by left.
Qed.

Lemma load_paths_pass_inv (stage : Stage F) n0 paths :
  forall ps lp dev calls lp' dev' calls',
    pass_inv stage n0 ps lp dev ->
    load_paths stage paths lp dev calls = Ok (lp', dev', calls') ->
    pass_inv stage n0 (ps ++ paths) lp' dev'.
Proof.
  induction paths as [|path rest IH]; intros ps lp dev calls lp' dev' calls' Hinv Hload.
  - cbn in Hload. inversion Hload; subst. by rewrite app_nil_r.
  - cbn [load_paths] in Hload.
    inv_bind Hload as [[lp1 dev1] calls1] Hstep.
    apply load_path_inv in Hstep as (g & Hg & Hstep & ->).
    replace (ps ++ path :: rest) with ((ps ++ [path]) ++ rest)
      by (by rewrite <- app_assoc).
    eapply IH; [|done]. by eapply pass_inv_step.
Qed.

(** X2. After a load loop that succeeds, the mesh kept for every path is the
    mesh of a path at or before it that was uploaded in this loop: its id is
    past the arrays the device held before, the device holds under that id
    the scaled vertices and the faces of that earlier path, and these
    vertices equal (same shape, equal values) the scaled vertices of the
    path itself. *)
Theorem every_path_is_bound_to_equal_geometry
    (stage : Stage F) (paths : list string)
    (dev dev' : list (ndarray F * list (nat * nat * nat)))
    (calls calls' : list string) (lp : LoadPass F)
    (Hload : load_paths stage paths {| loaded_vertices := []; wp_meshes := [] |}
               dev calls = Ok (lp, dev', calls')) :
  forall j path, paths !! j = Some path ->
    exists i path_i g_i g m,
      i <= j /\ paths !! i = Some path_i /\
      path_geom stage path_i = Some g_i /\ path_geom stage path = Some g /\
      wp_meshes lp !! j = Some m /\ wp_meshes lp !! i = Some m /\
      length dev <= N.to_nat (mesh_id m) /\
      dev' !! N.to_nat (mesh_id m)
      = Some (scale_points (vertices g_i) (world_scale g_i), faces g_i) /\
      (i = j \/
       same_points (scale_points (vertices g_i) (world_scale g_i))
         (scale_points (vertices g) (world_scale g)) = true).
Proof.
  intros j path Hj.
  assert (pass_inv stage (length dev) [] {| loaded_vertices := []; wp_meshes := [] |} dev)
    as Hinv0.
  { split_and!; try done; cbn; intros ? ?; by rewrite lookup_nil. }
  pose proof (load_paths_pass_inv _ _ _ _ _ _ _ _ _ _ Hinv0 Hload)
    as (_ & _ & _ & Hup & Href).
  cbn [app] in Hup, Href.
  destruct (Href _ _ Hj) as (g & m & i & v & Hg & Hm & Hle & Hv & Hmi & Hcase).
  destruct (Hup _ _ Hv) as (path_i & g_i & m' & Hpi & Hgi & -> & Hm' & Hn0 & Hdev).
  assert (m' = m) as -> by congruence.
  exists i, path_i, g_i, g, m. split_and!; try done.
  destruct Hcase as [?|[_ ?]]; [by left|by right].
Qed.

Lemma load_path_geom (stage : Stage F) path g lp dev calls :
  path_geom stage path = Some g ->
  load_path stage path lp dev calls
  = bind (reference_or_upload g lp dev)
      (fun '(lp', dev') => Ok (lp', dev', calls ++ [path])).
Proof.
  unfold path_geom, load_path. intros Hg.
  destruct (primitive_child stage path) as [g'|].
  - by inversion Hg; subst.
  - by rewrite Hg.
Qed.

Lemma reference_or_upload_known (g : GeomPrim F) pts k m dev :
  scale_points (vertices g) (world_scale g) = pts ->
  same_points pts pts = true ->
  reference_or_upload g
    {| loaded_vertices := Some pts :: replicate k None;
       wp_meshes := replicate (S k) m |} dev
  = Ok ({| loaded_vertices := Some pts :: replicate (S k) None;
           wp_meshes := replicate (S (S k)) m |}, dev).
Proof.
  intros Hpts Hsame. unfold reference_or_upload, _registered_points_idx.
  cbn [loaded_vertices wp_meshes registered_from]. rewrite Hpts, Hsame.
  cbn. rewrite decide_True by lia.
  change (Z.to_nat (Z.of_nat 0)) with 0. cbn.
  by rewrite <- !replicate_cons_app.
Qed.

Lemma load_paths_known (stage : Stage F) pts m rest :
  forall k dev calls,
    (forall path, path ∈ rest -> path_points stage path = Some pts) ->
    same_points pts pts = true ->
    load_paths stage rest
      {| loaded_vertices := Some pts :: replicate k None;
         wp_meshes := replicate (S k) m |} dev calls
    = Ok ({| loaded_vertices := Some pts :: replicate (k + length rest) None;
             wp_meshes := replicate (S (k + length rest)) m |},
          dev, calls ++ rest).
Proof.
  induction rest as [|path rest IH]; intros k dev calls Hall Hsame.
  - cbn. by rewrite Nat.add_0_r, app_nil_r.
  - cbn [load_paths].
    destruct (path_geom stage path) as [g|] eqn:Hg.
    2:{ specialize (Hall path ltac:(left)). unfold path_points in Hall.
        by rewrite Hg in Hall. }
    assert (scale_points (vertices g) (world_scale g) = pts) as Hpts.
    { specialize (Hall path ltac:(left)). unfold path_points in Hall.
      rewrite Hg in Hall. by inversion Hall. }
    rewrite (load_path_geom _ _ _ _ _ _ Hg).
    rewrite (reference_or_upload_known _ _ _ _ _ Hpts Hsame). cbn [bind].
    rewrite IH; [|intros; apply Hall; by right|done].
    cbn [length]. rewrite <- app_assoc. cbn [app].
    by replace (S k + length rest) with (k + S (length rest)) by lia.
Qed.

(** X3. When every path of a non-empty pass has the same scaled vertex
    array, the loop uploads one array, that of the first path, keeps [None]
    for all later paths, binds every path to the one new mesh and reads
    every path once. *)
Theorem identical_geometry_is_uploaded_once
    (stage : Stage F) (paths : list string) (pts : ndarray F)
    (dev : list (ndarray F * list (nat * nat * nat))) (calls : list string)
    (Hpaths : paths ≠ [])
    (Hgeom : forall path, path ∈ paths -> path_points stage path = Some pts)
    (Hrefl : same_points pts pts = true) :
  exists fs,
    load_paths stage paths {| loaded_vertices := []; wp_meshes := [] |} dev calls
    = Ok ({| loaded_vertices := Some pts :: replicate (length paths - 1) None;
             wp_meshes :=
               replicate (length paths) {| mesh_id := N.of_nat (length dev) |} |},
          dev ++ [(pts, fs)], calls ++ paths).
Proof.
  destruct paths as [|path rest]; [done|].
  destruct (path_geom stage path) as [g|] eqn:Hg.
  2:{ specialize (Hgeom path ltac:(left)). unfold path_points in Hgeom.
      by rewrite Hg in Hgeom. }
  assert (scale_points (vertices g) (world_scale g) = pts) as Hpts.
  { specialize (Hgeom path ltac:(left)). unfold path_points in Hgeom.
    rewrite Hg in Hgeom. by inversion Hgeom. }
  exists (faces g). cbn [load_paths].
  rewrite (load_path_geom _ _ _ _ _ _ Hg).
  assert (reference_or_upload g {| loaded_vertices := []; wp_meshes := [] |} dev
          = Ok ({| loaded_vertices := Some pts :: replicate 0 None;
                   wp_meshes := replicate 1 {| mesh_id := N.of_nat (length dev) |} |},
                dev ++ [(pts, faces g)])) as ->.
  { unfold reference_or_upload, _registered_points_idx. cbn. by rewrite Hpts. }
  cbn [bind].
  rewrite (load_paths_known stage pts _ rest 0); [|intros; apply Hgeom; by right|done].
  cbn. rewrite Nat.sub_0_r, <- app_assoc. done.
Qed.

Lemma load_paths_prefix (stage : Stage F) paths :
  forall lp dev calls lp' dev' calls',
    load_paths stage paths lp dev calls = Ok (lp', dev', calls') ->
    dev `prefix_of` dev' /\ calls' = calls ++ paths /\
    length (wp_meshes lp') = length (wp_meshes lp) + length paths.
Proof.
  induction paths as [|path rest IH]; intros lp dev calls lp' dev' calls' Hload.
  - cbn in Hload. inversion Hload; subst. rewrite app_nil_r.
    split_and!; [reflexivity|done|cbn; lia].
  - cbn [load_paths] in Hload.
    inv_bind Hload as [[lp1 dev1] calls1] Hstep.
    apply load_path_inv in Hstep as (g & Hg & Hstep & ->).
    apply IH in Hload as (Hpre & -> & Hlen).
    apply reference_or_upload_inv in Hstep. cbn zeta in Hstep.
    rewrite <- app_assoc. cbn [app length].
    destruct Hstep as [(i & v & m & _ & _ & _ & _ & Hw & ->)
                      |(_ & _ & Hw & ->)].
    + split_and!; [done|done|]. rewrite Hlen, Hw, length_app. cbn. lia.
    + split_and!; [|done|].
      * etrans; [|done]. by apply prefix_app_r.
      * rewrite Hlen, Hw, length_app. cbn. lia.
Qed.

(** What a successful first registration of a target leaves behind. *)
Lemma initialize_target_new_inv (stage : Stage F) num_envs track target_cfg
    proc counts proc' counts' :
  meshes proc !! target_prim_expr target_cfg = None ->
  initialize_target stage num_envs track target_cfg proc counts
  = Ok (proc', counts') ->
  let expr := target_prim_expr target_cfg in
  let paths := find_matching_prim_paths stage expr in
  exists lp dev calls entry n,
    paths ≠ [] /\
    load_paths stage paths {| loaded_vertices := []; wp_meshes := [] |}
      (device proc) (extracted proc) = Ok (lp, dev, calls) /\
    length (wp_meshes lp) = length paths /\
    partition_meshes (is_global target_cfg) (wp_meshes lp) num_envs
    = Ok (entry, n) /\
    meshes proc' = <[expr := entry]> (meshes proc) /\
    (mesh_views proc' = mesh_views proc \/
     exists view, mesh_views proc' = <[expr := view]> (mesh_views proc)) /\
    device proc' = dev /\ extracted proc' = calls /\
    counts' = <[expr := n]> counts.
Proof.
  intros Hnew Hinit. unfold initialize_target in Hinit. rewrite Hnew in Hinit.
  destruct (decide (length (find_matching_prim_paths stage
                              (target_prim_expr target_cfg)) = 0))
    as [|Hpaths]; [done|].
  inv_bind Hinit as [[lp dev] calls] Hload.
  inv_bind Hinit as [entry n] Hpart.
  inv_bind Hinit as views Hviews.
  inversion Hinit; subst; clear Hinit. cbn.
  exists lp, dev, calls, entry, n. split_and!; try done.
  - intros Hnil. by rewrite Hnil in Hpaths.
  - by apply load_paths_prefix in Hload as (_ & _ & ->).
  - destruct track.
    + inv_bind Hviews as view Hview. inversion Hviews; subst. right. by eexists.
    + inversion Hviews; subst. by left.
Qed.

Lemma initialize_target_cached_inv (stage : Stage F) num_envs track target_cfg
    proc counts proc' counts' cached :
  meshes proc !! target_prim_expr target_cfg = Some cached ->
  initialize_target stage num_envs track target_cfg proc counts
  = Ok (proc', counts') ->
  proc' = proc /\ num_envs ≠ 0 /\
  counts' = <[target_prim_expr target_cfg := length cached / num_envs]> counts.
Proof.
  intros Hc Hinit. unfold initialize_target in Hinit. rewrite Hc in Hinit.
  inv_bind Hinit as n Hn. apply floordiv_Ok in Hn as [? ->].
  by inversion Hinit; subst.
Qed.

Lemma initialize_target_monotone (stage : Stage F) num_envs track target_cfg
    proc counts proc' counts' :
  initialize_target stage num_envs track target_cfg proc counts
  = Ok (proc', counts') ->
  (forall expr entry, meshes proc !! expr = Some entry ->
     meshes proc' !! expr = Some entry /\
     mesh_views proc' !! expr = mesh_views proc !! expr) /\
  device proc `prefix_of` device proc' /\
  extracted proc `prefix_of` extracted proc'.
Proof.
  intros Hinit.
  destruct (meshes proc !! target_prim_expr target_cfg) as [cached|] eqn:Hreg.
  - destruct (initialize_target_cached_inv _ _ _ _ _ _ _ _ _ Hreg Hinit)
      as (Heq & _ & _).
    rewrite Heq. by split_and!.
  - apply (initialize_target_new_inv _ _ _ _ _ _ _ _ Hreg) in Hinit
      as (lp & dev & calls & entry & n & _ & Hload & _ & _ & Hm & Hv & Hd & Hc & _).
    apply load_paths_prefix in Hload as (Hpre & Hcalls & _).
    split_and!.
    + intros expr e He.
      assert (expr ≠ target_prim_expr target_cfg) as Hne by congruence.
      split.
      * rewrite Hm. by rewrite lookup_insert_ne.
      * destruct Hv as [->|[view ->]]; [done|]. by rewrite lookup_insert_ne.
    + by rewrite Hd.
    + rewrite Hc, Hcalls. by apply prefix_app_r.
Qed.

Lemma initialize_targets_monotone (stage : Stage F) num_envs track targets :
  forall proc counts proc' counts',
    initialize_targets stage num_envs track targets proc counts
    = Ok (proc', counts') ->
    (forall expr entry, meshes proc !! expr = Some entry ->
       meshes proc' !! expr = Some entry /\
       mesh_views proc' !! expr = mesh_views proc !! expr) /\
    device proc `prefix_of` device proc' /\
    extracted proc `prefix_of` extracted proc'.
Proof.
  induction targets as [|t rest IH]; intros proc counts proc' counts' Hinit.
  - cbn in Hinit. inversion Hinit; subst. by split_and!.
  - cbn [initialize_targets] in Hinit.
    inv_bind Hinit as [proc1 counts1] Hstep.
    apply initialize_target_monotone in Hstep as (Hm1 & Hd1 & Hc1).
    apply IH in Hinit as (Hm2 & Hd2 & Hc2).
    split_and!.
    + intros expr entry He. destruct (Hm1 _ _ He) as [He1 Hv1].
      destruct (Hm2 _ _ He1) as [He2 Hv2]. split; [done|]. by rewrite Hv2.
    + by etrans.
    + by etrans.
Qed.

Lemma initialize_warp_meshes_inv (stage : Stage F) num_envs track targets
    proc b proc' :
  _initialize_warp_meshes stage num_envs track targets proc = Ok (b, proc') ->
  exists counts bound views,
    initialize_targets stage num_envs track targets proc ∅ = Ok (proc', counts) /\
    forallb (fun target_cfg =>
               bool_decide (meshes proc' !! target_prim_expr target_cfg = None))
      targets = false /\
    mapM (meshes_in_env (meshes proc') targets) (seq 0 num_envs) = Ok bound /\
    (if track
     then mapM (fun target_cfg =>
                  dict_get (mesh_views proc') (target_prim_expr target_cfg))
            targets
     else Ok []) = Ok views /\
    array2d ((fun r : list wp_Mesh => mesh_id <$> r) <$> bound)
    = Ok ((fun r : list wp_Mesh => mesh_id <$> r) <$> bound) /\
    b = {| _num_meshes_per_env := counts;
           _meshes := bound;
           _mesh_views := views;
           _mesh_ids_wp := (fun r : list wp_Mesh => mesh_id <$> r) <$> bound;
           _mesh_positions_w :=
             if track
             then replicate num_envs
                    (replicate (total_n_meshes_per_env counts) zeros3)
             else [];
           _mesh_orientations_w :=
             if track
             then replicate num_envs
                    (replicate (total_n_meshes_per_env counts) zeros4)
             else [] |}.
Proof.
  intros Hinit. unfold _initialize_warp_meshes in Hinit.
  inv_bind Hinit as [proc1 counts] Htargets.
  destruct (forallb _ targets) eqn:Hall; [done|].
  inv_bind Hinit as bound Hbound.
  inv_bind Hinit as views Hviews.
  inv_bind Hinit as ids Hids.
  pose proof (array2d_Ok _ _ Hids) as ->.
  inversion Hinit; subst; clear Hinit.
  by exists counts, bound, views.
Qed.

(** X4. Initialising the meshes of a sensor only adds to the class-level
    registry: an expression that was registered keeps its mesh lists and its
    view entry, the arrays on the device and the paths read so far are
    prefixes of those afterwards. *)
Theorem registry_only_grows
    (stage : Stage F) (num_envs : nat) (track : bool)
    (targets : list RaycastTargetCfg) (proc proc' : Process F) (b : Binding)
    (Hinit : _initialize_warp_meshes stage num_envs track targets proc
             = Ok (b, proc')) :
  (forall expr entry, meshes proc !! expr = Some entry ->
     meshes proc' !! expr = Some entry /\
     mesh_views proc' !! expr = mesh_views proc !! expr) /\
  device proc `prefix_of` device proc' /\
  extracted proc `prefix_of` extracted proc'.
Proof.
  apply initialize_warp_meshes_inv in Hinit
    as (counts & bound & views & Htargets & _).
  by eapply initialize_targets_monotone.
Qed.

Lemma mapM_cons {A B} (f : A -> result B) (x : A) (l : list A) :
  mapM f (x :: l)
  = bind (f x) (fun y => bind (mapM f l) (fun k => Ok (y :: k))).
Proof. reflexivity. Qed.

Lemma bind_Raise {A B} (m : result A) (f : A -> result B) (e : exn) :
  bind m f = Raise e -> m = Raise e \/ exists a, m = Ok a /\ f a = Raise e.
Proof. destruct m as [a|e']; cbn; [right; by exists a|left; congruence]. Qed.

Lemma mapM_Raise {A B} (f : A -> result B) (l : list A) (e : exn) :
  mapM f l = Raise e -> exists a, a ∈ l /\ f a = Raise e.
Proof.
  induction l as [|x l IH]; [done|]. rewrite mapM_cons. intros Hr.
  apply bind_Raise in Hr as [Hr|(y & Hy & Hr)].
  - exists x. split; [left|done].
  - apply bind_Raise in Hr as [Hr|(k & _ & Hr)]; [|done].
    destruct (IH Hr) as (a & Ha & Hfa). exists a. split; [by right|done].
Qed.

(** X5. Once a sensor has initialised its meshes, a later sensor with the
    same targets, (non-zero) number of environments and tracking flag
    initialises without touching the registry, whatever is on the stage by
    then, and is bound to the same meshes, views and mesh ids. *)
Theorem later_sensor_gets_the_same_binding
    (stage stage' : Stage F) (num_envs : nat) (track : bool)
    (targets : list RaycastTargetCfg) (proc proc' : Process F) (b : Binding)
    (Hnum : num_envs ≠ 0)
    (Hinit : _initialize_warp_meshes stage num_envs track targets proc
             = Ok (b, proc')) :
  exists b2,
    _initialize_warp_meshes stage' num_envs track targets proc' = Ok (b2, proc') /\
    _meshes b2 = _meshes b /\
    _mesh_views b2 = _mesh_views b /\
    _mesh_ids_wp b2 = _mesh_ids_wp b.
Proof.
  apply initialize_warp_meshes_inv in Hinit
    as (counts & bound & views & Htargets & Hall & Hbound & Hviews & Hids & ->).
  apply initialize_targets_grows in Htargets as [Hreg _].
  destruct (initialize_targets_registered stage' num_envs track targets proc' ∅
              Hreg Hnum) as [counts2 Hsecond].
  unfold _initialize_warp_meshes. rewrite Hsecond. cbn [bind].
  rewrite Hall, Hbound. cbn [bind]. rewrite Hviews. cbn [bind].
  rewrite Hids. cbn [bind]. eexists. split; [reflexivity|]. done.
Qed.

Lemma forallb_unregistered_false (registry : gmap string (list (list wp_Mesh)))
    (targets : list RaycastTargetCfg) :
  targets ≠ [] ->
  Forall (fun t => is_Some (registry !! target_prim_expr t)) targets ->
  forallb (fun target_cfg =>
             bool_decide (registry !! target_prim_expr target_cfg = None))
    targets = false.
Proof.
  destruct targets as [|t rest]; [done|]. intros _ Hreg.
  apply Forall_cons in Hreg as [[entry Ht] _]. cbn.
  rewrite bool_decide_eq_false_2; [done|]. by rewrite Ht.
Qed.

Lemma mapM_dict_get_missing {V} (d : gmap string V)
    (targets : list RaycastTargetCfg) :
  Exists (fun t => d !! target_prim_expr t = None) targets ->
  exists t, t ∈ targets /\ d !! target_prim_expr t = None /\
            mapM (fun target_cfg => dict_get d (target_prim_expr target_cfg))
              targets
            = Raise (KeyError (target_prim_expr t)).
Proof.
  induction targets as [|t rest IH]; intros Hex; [by apply Exists_nil in Hex|].
  rewrite mapM_cons. unfold dict_get at 1.
  destruct (d !! target_prim_expr t) as [v|] eqn:Ht.
  - apply Exists_cons in Hex as [Hex|Hex]; [congruence|].
    destruct (IH Hex) as (t' & Hin & Hnone & Hraise).
    exists t'. split_and!; [by right|done|]. cbn [bind]. by rewrite Hraise.
  - exists t. split_and!; [left|done|done].
Qed.

(** X6. A tracking sensor whose targets are all in the mesh registry, with a
    list for each of its environments, one of them without a view (it was
    registered by a sensor that does not track), fails with a [KeyError] on
    that target's expression: the cached branch skips the creation of the
    view that lines 308-311 then look up. *)
Theorem tracking_a_cached_target_raises_KeyError
    (stage : Stage F) (num_envs : nat)
    (targets : list RaycastTargetCfg) (proc : Process F)
    (Hnum : num_envs ≠ 0)
    (Hreg : Forall (fun t => exists entry,
                      meshes proc !! target_prim_expr t = Some entry /\
                      num_envs <= length entry) targets)
    (Hview : Exists (fun t => mesh_views proc !! target_prim_expr t = None)
               targets) :
  exists t,
    t ∈ targets /\
    mesh_views proc !! target_prim_expr t = None /\
    _initialize_warp_meshes stage num_envs true targets proc
    = Raise (KeyError (target_prim_expr t)).
Proof.
  assert (Forall (fun t => is_Some (meshes proc !! target_prim_expr t)) targets)
    as Hsome.
  { eapply Forall_impl; [exact Hreg|]. intros t (entry & -> & _). by eexists. }
  destruct (initialize_targets_registered stage num_envs true targets proc ∅
              Hsome Hnum) as [counts Htargets].
  assert (targets ≠ []) as Hne.
  { intros ->. by apply Exists_nil in Hview. }
  assert (is_Ok (mapM (meshes_in_env (meshes proc) targets) (seq 0 num_envs)))
    as [bound Hbound].
  { apply mapM_is_Ok. apply Forall_forall. intros e He.
    apply elem_of_seq in He. unfold meshes_in_env.
    assert (is_Ok (mapM (fun target_cfg =>
                           let* entry := dict_get (meshes proc)
                                           (target_prim_expr target_cfg) in
                           list_get entry e) targets)) as [per Hper].
    { apply mapM_is_Ok. eapply Forall_impl; [exact Hreg|].
      intros t (entry & Ht & Hlen). unfold dict_get. rewrite Ht. cbn [bind].
      destruct (lookup_lt_is_Some_2 entry e ltac:(lia)) as [l Hl].
      exists l. by apply list_get_Ok. }
    rewrite Hper. by eexists. }
  destruct (mapM_dict_get_missing (mesh_views proc) targets Hview)
    as (t & Hin & Hnone & Hraise).
  exists t. split_and!; [done|done|].
  unfold _initialize_warp_meshes. rewrite Htargets. cbn [bind].
  rewrite (forallb_unregistered_false _ _ Hne Hsome), Hbound. cbn [bind].
  by rewrite Hraise.
Qed.

(** X7. A global target that is not registered yet is registered with the
    same list, all meshes of the pass, for every environment, and with the
    count 1, however many paths the expression has. *)
Theorem global_target_is_shared_by_every_environment
    (stage : Stage F) (num_envs : nat) (track : bool)
    (target_cfg : RaycastTargetCfg) (proc proc' : Process F)
    (counts counts' : gmap string nat)
    (Hglobal : is_global target_cfg = true)
    (Hnew : meshes proc !! target_prim_expr target_cfg = None)
    (Hinit : initialize_target stage num_envs track target_cfg proc counts
             = Ok (proc', counts')) :
  exists lp dev calls,
    load_paths stage
      (find_matching_prim_paths stage (target_prim_expr target_cfg))
      {| loaded_vertices := []; wp_meshes := [] |}
      (device proc) (extracted proc) = Ok (lp, dev, calls) /\
    length (wp_meshes lp)
    = length (find_matching_prim_paths stage (target_prim_expr target_cfg)) /\
    meshes proc' !! target_prim_expr target_cfg
    = Some (replicate num_envs (wp_meshes lp)) /\
    (forall e, e < num_envs ->
       meshes proc' !! target_prim_expr target_cfg ≫= (.!! e)
       = Some (wp_meshes lp)) /\
    counts' !! target_prim_expr target_cfg = Some 1.
Proof.
  apply (initialize_target_new_inv _ _ _ _ _ _ _ _ Hnew) in Hinit
    as (lp & dev & calls & entry & n & _ & Hload & Hlen & Hpart & Hm & _ & _ & _ & ->).
  unfold partition_meshes in Hpart. rewrite Hglobal in Hpart.
  inversion Hpart; subst; clear Hpart.
  exists lp, dev, calls. split_and!; try done.
  - by rewrite Hm, lookup_insert_eq.
  - intros e He. rewrite Hm, lookup_insert_eq. cbn.
    by apply lookup_replicate_2.
  - by rewrite lookup_insert_eq.
Qed.

Lemma concat_split_envs_take wp n iters :
  forall idx, idx + iters * n <= length wp ->
  concat (split_envs wp n idx iters) = take (iters * n) (drop idx wp).
Proof.
  induction iters as [|k IH]; intros idx Hlen; [done|].
  cbn [split_envs concat]. rewrite IH by lia. unfold py_slice.
  rewrite <- drop_drop. cbn [Nat.mul]. by rewrite take_take_drop.
Qed.

(** X8. A local target that is not registered yet is split into [num_envs]
    chunks of [len(paths) // num_envs] meshes that concatenate to the first
    [num_envs * (len(paths) // num_envs)] meshes of the pass: the remainder
    of the division is loaded to the device but bound to no environment. A
    success means that [num_envs] is not zero. *)
Theorem local_target_drops_the_remainder
    (stage : Stage F) (num_envs : nat) (track : bool)
    (target_cfg : RaycastTargetCfg) (proc proc' : Process F)
    (counts counts' : gmap string nat)
    (Hlocal : is_global target_cfg = false)
    (Hnew : meshes proc !! target_prim_expr target_cfg = None)
    (Hinit : initialize_target stage num_envs track target_cfg proc counts
             = Ok (proc', counts')) :
  let paths := find_matching_prim_paths stage (target_prim_expr target_cfg) in
  let n := length paths / num_envs in
  exists lp calls entry,
    load_paths stage paths {| loaded_vertices := []; wp_meshes := [] |}
      (device proc) (extracted proc) = Ok (lp, device proc', calls) /\
    length (wp_meshes lp) = length paths /\
    num_envs ≠ 0 /\
    meshes proc' !! target_prim_expr target_cfg = Some entry /\
    length entry = num_envs /\
    Forall (fun chunk => length chunk = n) entry /\
    concat entry = take (num_envs * n) (wp_meshes lp) /\
    counts' !! target_prim_expr target_cfg = Some n.
Proof.
  intros paths n.
  apply (initialize_target_new_inv _ _ _ _ _ _ _ _ Hnew) in Hinit
    as (lp & dev & calls & entry & n' & _ & Hload & Hlen & Hpart & Hm & _ & Hd & _ & ->).
  unfold partition_meshes in Hpart. rewrite Hlocal in Hpart.
  inv_bind Hpart as k Hk. apply floordiv_Ok in Hk as [Hnum ->].
  inversion Hpart; subst entry n'; clear Hpart. rewrite Hlen in Hm |- *.
  fold paths n in Hm |- *.
  assert (num_envs * n <= length paths) as Hle.
  { unfold n. by apply Nat.Div0.mul_div_le. }
  exists lp, calls, (split_envs (wp_meshes lp) n 0 num_envs).
  split_and!; try done.
  - by rewrite Hd.
  - by rewrite Hm, lookup_insert_eq.
  - apply split_envs_length.
  - apply Forall_lookup. intros i chunk Hi.
    assert (i < num_envs) as Hlt.
    { apply lookup_lt_Some in Hi. by rewrite split_envs_length in Hi. }
    rewrite split_envs_lookup in Hi by done. inversion Hi; subst chunk.
    unfold py_slice. rewrite length_take, length_drop, Hlen. fold paths. nia.
  - rewrite concat_split_envs_take by (rewrite Hlen; fold paths; lia).
    by rewrite drop_0, Nat.mul_comm.
  - by rewrite lookup_insert_eq.
Qed.

Lemma load_paths_Raise (stage : Stage F) paths :
  forall lp dev calls e,
    load_paths stage paths lp dev calls = Raise e -> e ≠ no_meshes_found.
Proof.
  induction paths as [|path rest IH]; intros lp dev calls e Hr; [done|].
  cbn [load_paths] in Hr. apply bind_Raise in Hr as [Hr|([[lp1 dev1] calls1] & _ & Hr)].
  - unfold load_path in Hr.
    assert (forall g, bind (reference_or_upload g lp dev)
                        (fun '(lp', dev') => Ok (lp', dev', calls ++ [path]))
                      = Raise e -> e ≠ no_meshes_found) as Href.
    { intros g Hg. apply bind_Raise in Hg as [Hg|([lp1 dev1] & _ & Hg)]; [|done].
      unfold reference_or_upload in Hg.
      destruct (decide _) as [_|_].
      - apply bind_Raise in Hg as [Hg|(m & _ & Hg)]; [|done].
        unfold list_get in Hg. destruct (_ !! _); [done|].
        by inversion Hg.
      - by destruct (convert_to_warp_mesh _ _ _). }
    destruct (primitive_child stage path) as [g|]; [by eapply Href|].
    destruct (mesh_child stage path) as [g|]; [by eapply Href|].
    by inversion Hr.
  - by eapply IH.
Qed.

Lemma initialize_target_Raise (stage : Stage F) num_envs track target_cfg
    proc counts e :
  initialize_target stage num_envs track target_cfg proc counts = Raise e ->
  e ≠ no_meshes_found.
Proof.
  unfold initialize_target. intros Hr.
  destruct (meshes proc !! target_prim_expr target_cfg) as [cached|].
  - apply bind_Raise in Hr as [Hr|(n & _ & Hr)]; [|done].
    unfold floordiv in Hr. destruct num_envs; [|done]. by inversion Hr.
  - destruct (decide _) as [_|_]; [by inversion Hr|].
    apply bind_Raise in Hr as [Hr|([[lp dev] calls] & _ & Hr)];
      [by eapply load_paths_Raise|].
    apply bind_Raise in Hr as [Hr|([entry n] & _ & Hr)].
    { unfold partition_meshes in Hr. destruct (is_global target_cfg); [done|].
      apply bind_Raise in Hr as [Hr|(k & _ & Hr)]; [|done].
      unfold floordiv in Hr. destruct num_envs; [|done]. by inversion Hr. }
    apply bind_Raise in Hr as [Hr|(views & _ & Hr)]; [|done].
    destruct track; [|done].
    apply bind_Raise in Hr as [Hr|(view & _ & Hr)]; [|done].
    unfold create_mesh_view in Hr. destruct (first_prim_api _ _); [done|].
    by inversion Hr.
Qed.

Lemma initialize_targets_Raise (stage : Stage F) num_envs track targets :
  forall proc counts e,
    initialize_targets stage num_envs track targets proc counts = Raise e ->
    e ≠ no_meshes_found.
Proof.
  induction targets as [|t rest IH]; intros proc counts e Hr; [done|].
  cbn [initialize_targets] in Hr.
  apply bind_Raise in Hr as [Hr|([proc1 counts1] & _ & Hr)].
  - by eapply initialize_target_Raise.
  - by eapply IH.
Qed.

(** X9. The error "No meshes found for ray-casting!" is raised exactly for a
    sensor with no targets: with a target the method either fails earlier,
    with another error, or has registered every target by line 277. *)
Theorem no_meshes_found_means_no_targets
    (stage : Stage F) (num_envs : nat) (track : bool)
    (targets : list RaycastTargetCfg) (proc : Process F) :
  _initialize_warp_meshes stage num_envs track targets proc
  = Raise (RuntimeError "No meshes found for ray-casting!")
  <-> targets = [].
Proof.
  split; [|by intros ->].
  intros Hr. destruct targets as [|t rest]; [done|]. exfalso.
  unfold _initialize_warp_meshes in Hr.
  apply bind_Raise in Hr as [Hr|([proc' counts] & Htargets & Hr)].
  { by apply initialize_targets_Raise in Hr. }
  apply initialize_targets_grows in Htargets as [Hreg _].
  rewrite (forallb_unregistered_false _ (t :: rest)) in Hr by done.
  apply bind_Raise in Hr as [Hr|(bound & _ & Hr)].
  { apply mapM_Raise in Hr as (e & _ & Hr). unfold meshes_in_env in Hr.
    apply bind_Raise in Hr as [Hr|(per & _ & Hr)]; [|done].
    apply mapM_Raise in Hr as (t' & _ & Hr).
    apply bind_Raise in Hr as [Hr|(entry & _ & Hr)].
    - unfold dict_get in Hr. by destruct (_ !! _).
    - unfold list_get in Hr. by destruct (_ !! _). }
  apply bind_Raise in Hr as [Hr|(views & _ & Hr)].
  { destruct track; [|done].
    apply mapM_Raise in Hr as (t' & _ & Hr).
    unfold dict_get in Hr. by destruct (_ !! _). }
  apply bind_Raise in Hr as [Hr|(ids & _ & Hr)]; [|done].
  unfold array2d in Hr. destruct (_ <$> bound); [done|].
  by destruct (forallb _ _).
Qed.

Lemma total_n_meshes_per_env_insert (counts : gmap string nat) expr n :
  counts !! expr = None ->
  total_n_meshes_per_env (<[expr := n]> counts)
  = n + total_n_meshes_per_env counts.
Proof.
  intros Hnone. unfold total_n_meshes_per_env.
  rewrite map_fold_insert_L; [done| |done]. intros. lia.
Qed.

Lemma split_envs_chunk_length (wp : list wp_Mesh) n num_envs i chunk :
  num_envs * n <= length wp ->
  split_envs wp n 0 num_envs !! i = Some chunk -> length chunk = n.
Proof.
  intros Hle Hi.
  assert (i < num_envs) as Hlt.
  { apply lookup_lt_Some in Hi. by rewrite split_envs_length in Hi. }
  rewrite split_envs_lookup in Hi by done. inversion Hi; subst chunk.
  unfold py_slice. rewrite length_take, length_drop. nia.
Qed.

(** A target whose meshes divide evenly: a local one, or a global one with
    a single prim. *)
Lemma initialize_target_uniform (stage : Stage F) num_envs track target_cfg
    proc counts proc' counts' :
  meshes proc !! target_prim_expr target_cfg = None ->
  (is_global target_cfg = true ->
   length (find_matching_prim_paths stage (target_prim_expr target_cfg)) = 1) ->
  initialize_target stage num_envs track target_cfg proc counts
  = Ok (proc', counts') ->
  exists entry n,
    meshes proc' = <[target_prim_expr target_cfg := entry]> (meshes proc) /\
    counts' = <[target_prim_expr target_cfg := n]> counts /\
    forall e, e < num_envs ->
      exists l, entry !! e = Some l /\ length l = n.
Proof.
  intros Hnew Hsingle Hinit.
  apply (initialize_target_new_inv _ _ _ _ _ _ _ _ Hnew) in Hinit
    as (lp & dev & calls & entry & n & _ & _ & Hlen & Hpart & Hm & _ & _ & _ & ->).
  exists entry, n. split_and!; [done|done|].
  unfold partition_meshes in Hpart.
  destruct (is_global target_cfg).
  - inversion Hpart; subst entry n. intros e He.
    exists (wp_meshes lp). split; [by apply lookup_replicate_2|].
    rewrite Hlen. by apply Hsingle.
  - inv_bind Hpart as k Hk. apply floordiv_Ok in Hk as [Hnum ->].
    inversion Hpart; subst entry n. intros e He.
    destruct (lookup_lt_is_Some_2
                (split_envs (wp_meshes lp) (length (wp_meshes lp) / num_envs)
                   0 num_envs) e) as [l Hl].
    { by rewrite split_envs_length. }
    exists l. split; [done|].
    eapply split_envs_chunk_length; [|done]. by apply Nat.Div0.mul_div_le.
Qed.

Lemma initialize_targets_uniform (stage : Stage F) num_envs track targets :
  forall proc counts proc' counts',
    NoDup (target_prim_expr <$> targets) ->
    Forall (fun t => meshes proc !! target_prim_expr t = None) targets ->
    Forall (fun t => counts !! target_prim_expr t = None) targets ->
    Forall (fun t => is_global t = true ->
              length (find_matching_prim_paths stage (target_prim_expr t)) = 1)
      targets ->
    initialize_targets stage num_envs track targets proc counts
    = Ok (proc', counts') ->
    exists ns,
      total_n_meshes_per_env counts'
      = total_n_meshes_per_env counts + sum_list ns /\
      Forall2 (fun t n => exists entry,
                 meshes proc' !! target_prim_expr t = Some entry /\
                 forall e, e < num_envs ->
                   exists l, entry !! e = Some l /\ length l = n)
        targets ns.
Proof.
  induction targets as [|t rest IH];
    intros proc counts proc' counts' Hnodup Hnew Hcounts Hsingle Hinit.
  - cbn in Hinit. inversion Hinit; subst. exists []. cbn. split; [lia|constructor].
  - cbn [initialize_targets] in Hinit.
    inv_bind Hinit as [proc1 counts1] Hstep.
    rewrite fmap_cons in Hnodup. apply NoDup_cons in Hnodup as [Hnotin Hnodup].
    apply Forall_cons in Hnew as [Hnew_t Hnew].
    apply Forall_cons in Hcounts as [Hcounts_t Hcounts].
    apply Forall_cons in Hsingle as [Hsingle_t Hsingle].
    destruct (initialize_target_uniform _ _ _ _ _ _ _ _ Hnew_t Hsingle_t Hstep)
      as (entry & n & Hm1 & -> & Hentry).
    assert (forall t', t' ∈ rest -> target_prim_expr t' ≠ target_prim_expr t)
      as Hne.
    { intros t' Hin Heq. apply Hnotin. rewrite <- Heq.
      by apply list_elem_of_fmap_2. }
    destruct (IH proc1 (<[target_prim_expr t := n]> counts) proc' counts')
      as (ns & Htotal & Hall); try done.
    { apply Forall_forall. intros t' Hin. rewrite Hm1, lookup_insert_ne
        by (apply not_eq_sym; by apply Hne).
      by eapply Forall_forall in Hnew. }
    { apply Forall_forall. intros t' Hin. rewrite lookup_insert_ne
        by (apply not_eq_sym; by apply Hne).
      by eapply Forall_forall in Hcounts. }
    exists (n :: ns). split.
    + rewrite Htotal, total_n_meshes_per_env_insert by done. cbn. lia.
    + constructor; [|done]. exists entry. split; [|done].
      apply initialize_targets_grows in Hinit as [_ Hkeep]. apply Hkeep.
      by rewrite Hm1, lookup_insert_eq.
Qed.

Lemma bound_row_length (registry : gmap string (list (list wp_Mesh)))
    num_envs e targets :
  e < num_envs ->
  forall ns per_target,
    Forall2 (fun t n => exists entry,
               registry !! target_prim_expr t = Some entry /\
               forall e, e < num_envs ->
                 exists l, entry !! e = Some l /\ length l = n)
      targets ns ->
    Forall2 (fun t l => exists entry,
               registry !! target_prim_expr t = Some entry /\
               entry !! e = Some l)
      targets per_target ->
    length (concat per_target) = sum_list ns.
Proof.
  intros He ns per_target Hns. revert per_target.
  induction Hns as [|t n rest ns' (entry & Ht & Hentry) _ IH];
    intros per_target Hper.
  - by apply Forall2_nil_inv_l in Hper as ->.
  - apply Forall2_cons_inv_l in Hper as (l & per' & (entry' & Ht' & Hl) & Hper' & ->).
    cbn. rewrite length_app, (IH _ Hper'). f_equal.
    assert (entry' = entry) as -> by congruence.
    destruct (Hentry e He) as (l' & Hl' & <-). congruence.
Qed.

(** X10. For targets with distinct expressions that are not registered yet,
    each global one matching a single path, the rows of the bound meshes and
    of the mesh id table have, in every environment, the length
    [sum(_num_meshes_per_env.values())] that the transform buffers of a
    tracking sensor are allocated with. *)
Theorem transform_buffers_match_the_bound_meshes
    (stage : Stage F) (num_envs : nat) (track : bool)
    (targets : list RaycastTargetCfg) (proc proc' : Process F) (b : Binding)
    (Hnodup : NoDup (target_prim_expr <$> targets))
    (Hnew : Forall (fun t => meshes proc !! target_prim_expr t = None) targets)
    (Hsingle : Forall (fun t => is_global t = true ->
                  length (find_matching_prim_paths stage (target_prim_expr t)) = 1)
                 targets)
    (Hinit : _initialize_warp_meshes stage num_envs track targets proc
             = Ok (b, proc')) :
  let total := total_n_meshes_per_env (_num_meshes_per_env b) in
  length (_mesh_ids_wp b) = num_envs /\
  Forall (fun row => length row = total) (_mesh_ids_wp b) /\
  Forall (fun row => length row = total) (_meshes b) /\
  (track = true ->
   _mesh_positions_w b = replicate num_envs (replicate total zeros3) /\
   _mesh_orientations_w b = replicate num_envs (replicate total zeros4)).
Proof.
  apply initialize_warp_meshes_inv in Hinit
    as (counts & bound & views & Htargets & _ & Hbound & _ & _ & ->).
  cbn [_num_meshes_per_env _mesh_ids_wp _meshes _mesh_positions_w
       _mesh_orientations_w].
  destruct (initialize_targets_uniform _ _ _ _ _ _ _ _ Hnodup Hnew
              ltac:(apply Forall_forall; intros; apply lookup_empty)
              Hsingle Htargets) as (ns & Htotal & Hns).
  assert (total_n_meshes_per_env (∅ : gmap string nat) = 0) as Hzero
    by apply map_fold_empty.
  rewrite Hzero in Htotal. cbn zeta. rewrite Htotal. cbn [Nat.add].
  apply mapM_Ok_inv in Hbound as [Hlen Hrows]. rewrite length_seq in Hlen.
  assert (Forall (fun row : list wp_Mesh => length row = sum_list ns) bound)
    as Hwidth.
  { apply Forall_lookup. intros e row He.
    assert (e < num_envs) as Hlt.
    { rewrite <- Hlen. by eapply lookup_lt_Some. }
    destruct (Hrows e e) as (row' & Hrow' & Hb).
    { by apply lookup_seq. }
    assert (row' = row) as -> by congruence.
    apply meshes_in_env_Ok in Hrow' as (per & -> & Hper).
    by eapply bound_row_length. }
  split_and!.
  - by rewrite length_fmap.
  - apply Forall_fmap. eapply Forall_impl; [exact Hwidth|].
    intros row Hrow. cbn. by rewrite length_fmap.
  - done.
  - by intros ->.
Qed.

End RegistryMore.

(** *** On the scene with three environments *)

Lemma every_path_is_bound_to_equal_geometry_witness :
  exists lp dev' calls',
    load_paths demo_stage obstacle_paths
      {| loaded_vertices := []; wp_meshes := [] |} [] [] = Ok (lp, dev', calls') /\
    forall j path, obstacle_paths !! j = Some path ->
      exists i path_i g_i g m,
        i <= j /\ obstacle_paths !! i = Some path_i /\
        path_geom demo_stage path_i = Some g_i /\
        path_geom demo_stage path = Some g /\
        wp_meshes lp !! j = Some m /\ wp_meshes lp !! i = Some m /\
        length (@nil (ndarray Z * list (nat * nat * nat)))
        <= N.to_nat (mesh_id m) /\
        dev' !! N.to_nat (mesh_id m)
        = Some (scale_points (vertices g_i) (world_scale g_i), faces g_i) /\
        (i = j \/
         same_points (scale_points (vertices g_i) (world_scale g_i))
           (scale_points (vertices g) (world_scale g)) = true).
Proof.
  eassert (load_paths demo_stage obstacle_paths
             {| loaded_vertices := []; wp_meshes := [] |} [] []
           = Ok (_, _, _)) as Hload by reflexivity.
  eexists _, _, _. split; [exact Hload|].
  exact (every_path_is_bound_to_equal_geometry demo_stage obstacle_paths
           [] _ [] _ _ Hload).
Defined.

Lemma identical_geometry_is_uploaded_once_witness :
  first_obstacles ≠ [] /\
  same_points (vertices (triangle 1)) (vertices (triangle 1)) = true /\
  exists fs,
    load_paths demo_stage first_obstacles
      {| loaded_vertices := []; wp_meshes := [] |} [] []
    = Ok ({| loaded_vertices :=
               Some (vertices (triangle 1))
               :: replicate (length first_obstacles - 1) None;
             wp_meshes :=
               replicate (length first_obstacles)
                 {| mesh_id := N.of_nat (length (@nil (ndarray Z * list (nat * nat * nat)))) |} |},
          [] ++ [(vertices (triangle 1), fs)], [] ++ first_obstacles).
Proof.
  assert (first_obstacles ≠ []) as Hpaths by done.
  assert (same_points (vertices (triangle 1)) (vertices (triangle 1)) = true)
    as Hrefl by reflexivity.
  split; [exact Hpaths|]. split; [exact Hrefl|].
  apply (identical_geometry_is_uploaded_once demo_stage first_obstacles
           (vertices (triangle 1)) [] [] Hpaths); [|exact Hrefl].
  intros path Hin. unfold first_obstacles in Hin.
  apply list_elem_of_In in Hin. cbn in Hin.
  destruct Hin as [<-|[<-|[<-|[]]]]; reflexivity.
Defined.

Lemma registry_only_grows_witness :
  exists b1 proc1 b2 proc2,
    _initialize_warp_meshes demo_stage 3 true [ground_target] empty_process
    = Ok (b1, proc1) /\
    _initialize_warp_meshes demo_stage 3 true [obstacles_target; ground_target]
      proc1 = Ok (b2, proc2) /\
    (forall expr entry, meshes proc1 !! expr = Some entry ->
       meshes proc2 !! expr = Some entry /\
       mesh_views proc2 !! expr = mesh_views proc1 !! expr) /\
    device proc1 `prefix_of` device proc2 /\
    extracted proc1 `prefix_of` extracted proc2.
Proof.
  eassert (_initialize_warp_meshes demo_stage 3 true [ground_target]
             empty_process = Ok (_, _)) as Hfirst by reflexivity.
  match type of Hfirst with
  | _ = Ok (_, ?proc1) =>
      eassert (_initialize_warp_meshes demo_stage 3 true
                 [obstacles_target; ground_target] proc1 = Ok (_, _)) as Hsecond
        by reflexivity
  end.
  eexists _, _, _, _. split; [exact Hfirst|]. split; [exact Hsecond|].
  exact (registry_only_grows demo_stage 3 true [obstacles_target; ground_target]
           _ _ _ Hsecond).
Defined.

Lemma later_sensor_gets_the_same_binding_witness :
  exists b proc',
    _initialize_warp_meshes demo_stage 3 true [ground_target; obstacles_target]
      empty_process = Ok (b, proc') /\
    exists b2,
      _initialize_warp_meshes empty_stage 3 true [ground_target; obstacles_target]
        proc' = Ok (b2, proc') /\
      _meshes b2 = _meshes b /\
      _mesh_views b2 = _mesh_views b /\
      _mesh_ids_wp b2 = _mesh_ids_wp b.
Proof.
  eassert (_initialize_warp_meshes demo_stage 3 true
             [ground_target; obstacles_target] empty_process = Ok (_, _))
    as Hinit by reflexivity.
  eexists _, _. split; [exact Hinit|].
  exact (later_sensor_gets_the_same_binding demo_stage empty_stage 3 true
           [ground_target; obstacles_target] empty_process _ _
           ltac:(lia) Hinit).
Defined.

Lemma tracking_a_cached_target_raises_KeyError_witness :
  exists b1 proc1,
    _initialize_warp_meshes demo_stage 3 false [obstacles_target] empty_process
    = Ok (b1, proc1) /\
    exists t,
      t ∈ [obstacles_target] /\
      mesh_views proc1 !! target_prim_expr t = None /\
      _initialize_warp_meshes demo_stage 3 true [obstacles_target] proc1
      = Raise (KeyError (target_prim_expr t)).
Proof.
  eassert (_initialize_warp_meshes demo_stage 3 false [obstacles_target]
             empty_process = Ok (_, _)) as Hfirst by reflexivity.
  eexists _, _. split; [exact Hfirst|].
  apply (tracking_a_cached_target_raises_KeyError demo_stage 3
           [obstacles_target] _ ltac:(lia)).
  - constructor; [|constructor]. eexists. split; [reflexivity|]. cbn. lia.
  - constructor. reflexivity.
Defined.

Lemma global_target_is_shared_by_every_environment_witness :
  exists proc' counts' lp dev calls,
    initialize_target demo_stage 3 true
      {| target_prim_expr := obstacle_expr; is_global := true |}
      empty_process ∅ = Ok (proc', counts') /\
    load_paths demo_stage (find_matching_prim_paths demo_stage obstacle_expr)
      {| loaded_vertices := []; wp_meshes := [] |}
      (device (@empty_process Z)) (extracted (@empty_process Z))
    = Ok (lp, dev, calls) /\
    length (wp_meshes lp)
    = length (find_matching_prim_paths demo_stage obstacle_expr) /\
    meshes proc' !! obstacle_expr = Some (replicate 3 (wp_meshes lp)) /\
    (forall e, e < 3 ->
       meshes proc' !! obstacle_expr ≫= (.!! e) = Some (wp_meshes lp)) /\
    counts' !! obstacle_expr = Some 1.
Proof.
  eassert (initialize_target demo_stage 3 true
             {| target_prim_expr := obstacle_expr; is_global := true |}
             empty_process ∅ = Ok (_, _)) as Hinit by reflexivity.
  destruct (global_target_is_shared_by_every_environment demo_stage 3 true
              {| target_prim_expr := obstacle_expr; is_global := true |}
              empty_process _ ∅ _ eq_refl eq_refl Hinit)
    as (lp & dev & calls & Hrest).
  eexists _, _, lp, dev, calls. split; [exact Hinit|]. exact Hrest.
Defined.

Lemma local_target_drops_the_remainder_witness :
  exists proc' counts' lp calls entry,
    initialize_target demo_stage 4 false obstacles_target empty_process ∅
    = Ok (proc', counts') /\
    load_paths demo_stage (find_matching_prim_paths demo_stage obstacle_expr)
      {| loaded_vertices := []; wp_meshes := [] |}
      (device (@empty_process Z)) (extracted (@empty_process Z))
    = Ok (lp, device proc', calls) /\
    length (wp_meshes lp) = 6 /\
    4 ≠ 0 /\
    meshes proc' !! obstacle_expr = Some entry /\
    length entry = 4 /\
    Forall (fun chunk => length chunk = 6 / 4) entry /\
    concat entry = take (4 * (6 / 4)) (wp_meshes lp) /\
    counts' !! obstacle_expr = Some (6 / 4).
Proof.
  eassert (initialize_target demo_stage 4 false obstacles_target
             empty_process ∅ = Ok (_, _)) as Hinit by reflexivity.
  destruct (local_target_drops_the_remainder demo_stage 4 false
              obstacles_target empty_process _ ∅ _ eq_refl eq_refl Hinit)
    as (lp & calls & entry & Hrest).
  eexists _, _, lp, calls, entry. split; [exact Hinit|]. exact Hrest.
Defined.

Lemma transform_buffers_match_the_bound_meshes_witness :
  exists b proc',
    _initialize_warp_meshes demo_stage 3 true [ground_target; obstacles_target]
      empty_process = Ok (b, proc') /\
    length (_mesh_ids_wp b) = 3 /\
    Forall (fun row => length row
                       = total_n_meshes_per_env (_num_meshes_per_env b))
      (_mesh_ids_wp b) /\
    Forall (fun row => length row
                       = total_n_meshes_per_env (_num_meshes_per_env b))
      (_meshes b) /\
    (true = true ->
     _mesh_positions_w b
     = replicate 3
         (replicate (total_n_meshes_per_env (_num_meshes_per_env b)) zeros3) /\
     _mesh_orientations_w b
     = replicate 3
         (replicate (total_n_meshes_per_env (_num_meshes_per_env b)) zeros4)).
Proof.
  eassert (_initialize_warp_meshes demo_stage 3 true
             [ground_target; obstacles_target] empty_process = Ok (_, _))
    as Hinit by reflexivity.
  assert (NoDup (target_prim_expr <$> [ground_target; obstacles_target]))
    as Hnodup.
  { apply (bool_decide_unpack _). vm_compute. exact I. }
  assert (Forall (fun t => meshes (@empty_process Z) !! target_prim_expr t = None)
            [ground_target; obstacles_target]) as Hnew
    by repeat constructor.
  assert (Forall (fun t => is_global t = true ->
                    length (find_matching_prim_paths demo_stage
                              (target_prim_expr t)) = 1)
            [ground_target; obstacles_target]) as Hsingle.
  { constructor; [intros _; reflexivity|].
    constructor; [intros Hg; discriminate Hg|constructor]. }
  eexists _, _. split; [exact Hinit|].
  exact (transform_buffers_match_the_bound_meshes demo_stage 3 true
           [ground_target; obstacles_target] empty_process _ _
           Hnodup Hnew Hsingle Hinit).
Defined.

(** ** The refresh of the mesh transforms *)

Lemma assign_cols_row_fits {A} (row : list A) a c vals :
  a + c <= length row -> length vals = c ->
  assign_cols_row row a c vals = Ok (take a row ++ vals ++ drop (a + c) row).
Proof.
  intros Hfit Hvals. unfold assign_cols_row.
  rewrite !Nat.min_l by lia.
  replace (a + c - a) with c by lia.
  unfold broadcast_rows. by rewrite decide_True.
Qed.

Lemma zip_assign_fits {A} (buf : list (list A)) a c (vals : nat -> list A) M :
  forall e0 rows,
    Forall (fun r => length r = M) buf -> a + c <= M ->
    length rows = length buf ->
    (forall e, e < length buf -> rows !! e = Some (vals (e0 + e)) /\
                                  length (vals (e0 + e)) = c) ->
    zip_assign buf a c rows
    = Ok (imap (fun e row => take a row ++ vals (e0 + e) ++ drop (a + c) row) buf).
Proof.
  induction buf as [|row buf IH]; intros e0 rows HM Hfit Hlen Hrows.
  - by destruct rows.
  - destruct rows as [|v rows]; [done|].
    apply Forall_cons in HM as [Hrow HM]. cbn [zip_assign imap].
    destruct (Hrows 0 ltac:(cbn; lia)) as [Hv Hvl]. cbn in Hv.
    inversion Hv; subst v.
    rewrite assign_cols_row_fits by (done || lia). cbn [bind].
    rewrite (IH (S e0) rows); try done.
    + cbn [bind]. rewrite Nat.add_0_r. do 2 f_equal.
      apply imap_ext. intros e r _. cbn. by rewrite Nat.add_succ_r.
    + cbn in Hlen. lia.
    + intros e He. destruct (Hrows (S e) ltac:(cbn; lia)) as [? ?].
      rewrite Nat.add_succ_r in *. done.
Qed.

Lemma write_target_fits {A} (buf : list (list A)) num_envs M
    target_is_global idx (rows : list A) c :
  length buf = num_envs ->
  Forall (fun r => length r = M) buf ->
  idx + c <= M ->
  target_shape num_envs target_is_global (length rows) c ->
  write_target buf num_envs target_is_global idx rows
  = Ok (with_columns buf idx c (rows_of_env target_is_global c rows), c).
Proof.
  intros Hlen HM Hfit Hshape. unfold write_target, target_shape in *.
  destruct target_is_global.
  - subst c. unfold assign_cols.
    assert (broadcast_rows (length buf) [rows] = Ok (replicate (length buf) rows))
      as ->.
    { unfold broadcast_rows. destruct (decide _) as [Heq|]; [|done].
      cbn in Heq. by rewrite <- Heq. }
    cbn [bind].
    rewrite (zip_assign_fits buf idx (length rows) (fun _ => rows) M 0);
      try done.
    + by rewrite length_replicate.
    + intros e He. split; [by apply lookup_replicate_2|done].
  - destruct Hshape as [Hnum Hrows]. unfold floordiv.
    destruct num_envs as [|n] eqn:Hn; [done|]. rewrite <- Hn in *. cbn [bind].
    assert (length rows / num_envs = c) as ->.
    { rewrite Hrows, Nat.mul_comm. by apply Nat.div_mul. }
    unfold torch_view. rewrite decide_True by done. cbn [bind]. unfold assign_cols.
    assert (broadcast_rows (length buf) (chunks c rows num_envs)
            = Ok (chunks c rows num_envs)) as ->.
    { unfold broadcast_rows. by rewrite decide_True by (by rewrite chunks_length). }
    cbn [bind].
    rewrite (zip_assign_fits buf idx c
               (fun e => take c (drop (e * c) rows)) M 0); try done.
    + by rewrite chunks_length.
    + intros e He. rewrite chunks_lookup by lia. split; [done|].
      rewrite length_take, length_drop. cbn. nia.
Qed.

Lemma rows_of_env_length {A} num_envs target_is_global (rows : list A) c e :
  target_shape num_envs target_is_global (length rows) c ->
  e < num_envs -> length (rows_of_env target_is_global c rows e) = c.
Proof.
  unfold target_shape, rows_of_env. destruct target_is_global; [done|].
  intros [_ Hrows] He. rewrite length_take, length_drop. nia.
Qed.

Lemma rows_of_env_lookup {A} num_envs target_is_global (rows : list A) c e k :
  target_shape num_envs target_is_global (length rows) c ->
  e < num_envs -> k < c ->
  rows_of_env target_is_global c rows e !! k
  = rows !! (if target_is_global then k else e * c + k).
Proof.
  unfold target_shape, rows_of_env. destruct target_is_global; [done|].
  intros [_ Hrows] He Hk. by rewrite lookup_take_lt, lookup_drop.
Qed.

Lemma with_columns_shape {A} (buf : list (list A)) idx c vals M :
  Forall (fun r => length r = M) buf -> idx + c <= M ->
  (forall e, e < length buf -> length (vals e) = c) ->
  length (with_columns buf idx c vals) = length buf /\
  Forall (fun r => length r = M) (with_columns buf idx c vals).
Proof.
  intros HM Hfit Hvals. unfold with_columns. split; [by rewrite length_imap|].
  apply Forall_lookup. intros e r Hr.
  rewrite list_lookup_imap in Hr.
  destruct (buf !! e) as [row|] eqn:Hrow; [|done]. cbn in Hr.
  inversion Hr; subst r.
  assert (length row = M) as Hl by (by eapply Forall_lookup_1 in HM).
  rewrite !length_app, length_take, length_drop, Hvals
    by (by eapply lookup_lt_Some).
  lia.
Qed.

Lemma with_columns_inside {A} (buf : list (list A)) idx c vals M e k :
  Forall (fun r => length r = M) buf -> idx + c <= M ->
  e < length buf -> length (vals e) = c -> k < c ->
  cell (with_columns buf idx c vals) e (idx + k) = vals e !! k.
Proof.
  intros HM Hfit He Hvals Hk. unfold cell, with_columns.
  rewrite list_lookup_imap.
  destruct (lookup_lt_is_Some_2 buf e He) as [row Hrow]. rewrite Hrow. cbn.
  assert (length row = M) as Hl by (by eapply Forall_lookup_1 in HM).
  rewrite lookup_app_r by (rewrite length_take; lia).
  rewrite length_take, Nat.min_l by lia.
  replace (idx + k - idx) with k by lia.
  by rewrite lookup_app_l by lia.
Qed.

Lemma with_columns_outside {A} (buf : list (list A)) idx c vals M e k :
  Forall (fun r => length r = M) buf -> idx + c <= M ->
  (forall e, e < length buf -> length (vals e) = c) ->
  k < idx \/ idx + c <= k ->
  cell (with_columns buf idx c vals) e k = cell buf e k.
Proof.
  intros HM Hfit Hvals Hk. unfold cell, with_columns.
  rewrite list_lookup_imap.
  destruct (buf !! e) as [row|] eqn:Hrow; [|done]. cbn.
  assert (length row = M) as Hl by (by eapply Forall_lookup_1 in HM).
  assert (length (vals e) = c) as Hv by (apply Hvals; by eapply lookup_lt_Some).
  destruct Hk as [Hk|Hk].
  - rewrite lookup_app_l by (rewrite length_take; lia).
    by rewrite lookup_take_lt.
  - rewrite lookup_app_r by (rewrite length_take; lia).
    rewrite length_take, Nat.min_l by lia.
    rewrite lookup_app_r by lia. rewrite lookup_drop. f_equal. lia.
Qed.

Lemma compute_world_poses_all phys view :
  compute_world_poses phys view None
  = Ok ((poses (phys (view_path view))).*1, (poses (phys (view_path view))).*2).
Proof. reflexivity. Qed.

Lemma refresh_transforms_fits phys num_envs M views :
  forall targets cs idx positions orientations,
    length views = length targets ->
    Forall2 (fun vt c =>
               target_shape num_envs (is_global vt.2) (view_count phys vt.1) c)
      (zip views targets) cs ->
    length positions = num_envs ->
    Forall (fun r => length r = M) positions ->
    length orientations = num_envs ->
    Forall (fun r => length r = M) orientations ->
    idx + sum_list cs <= M ->
    exists positions' orientations',
      refresh_transforms phys num_envs views targets idx positions orientations
      = Ok (positions', orientations') /\
      length positions' = num_envs /\
      Forall (fun r => length r = M) positions' /\
      length orientations' = num_envs /\
      Forall (fun r => length r = M) orientations' /\
      (forall t view target_cfg c e k,
         views !! t = Some view -> targets !! t = Some target_cfg ->
         cs !! t = Some c -> e < num_envs -> k < c ->
         exists p q,
           poses (phys (view_path view))
             !! (if is_global target_cfg then k else e * c + k) = Some (p, q) /\
           cell positions' e (idx + sum_list (take t cs) + k) = Some p /\
           cell orientations' e (idx + sum_list (take t cs) + k) = Some q) /\
      (forall e k, k < idx \/ idx + sum_list cs <= k ->
         cell positions' e k = cell positions e k /\
         cell orientations' e k = cell orientations e k).
Proof.
  induction views as [|view views IH];
    intros targets cs idx positions orientations Hlen Hshape HPl HPM HOl HOM Hfit.
  - destruct targets; [|done]. cbn in Hshape.
    apply Forall2_nil_inv_l in Hshape as ->.
    exists positions, orientations. split_and!; try done.
  - destruct targets as [|target_cfg targets]; [done|]. cbn in Hlen.
    cbn [zip zip_with] in Hshape.
    apply Forall2_cons_inv_l in Hshape as (c & cs' & Hc & Hshape & ->).
    cbn [fst snd] in Hc.
    assert (idx + c + sum_list cs' <= M) as Hfit' by (cbn in Hfit; lia).
    cbn [refresh_transforms]. rewrite compute_world_poses_all. cbn [bind].
    set (all := poses (phys (view_path view))) in *.
    assert (target_shape num_envs (is_global target_cfg) (length all.*1) c)
      as Hc1 by (by rewrite length_fmap).
    assert (target_shape num_envs (is_global target_cfg) (length all.*2) c)
      as Hc2 by (by rewrite length_fmap).
    rewrite (write_target_fits positions num_envs M _ idx _ c) by (done || lia).
    cbn [bind].
    rewrite (write_target_fits orientations num_envs M _ idx _ c)
      by (done || lia).
    cbn [bind].
    set (P1 := with_columns positions idx c
                 (rows_of_env (is_global target_cfg) c all.*1)).
    set (O1 := with_columns orientations idx c
                 (rows_of_env (is_global target_cfg) c all.*2)).
    assert (forall e, e < length positions ->
              length (rows_of_env (is_global target_cfg) c all.*1 e) = c)
      as HvP.
    { intros e He. eapply rows_of_env_length; [done|lia]. }
    assert (forall e, e < length orientations ->
              length (rows_of_env (is_global target_cfg) c all.*2 e) = c)
      as HvO.
    { intros e He. eapply rows_of_env_length; [done|lia]. }
    destruct (with_columns_shape positions idx c _ M HPM ltac:(lia) HvP)
      as [HP1l HP1M].
    destruct (with_columns_shape orientations idx c _ M HOM ltac:(lia) HvO)
      as [HO1l HO1M].
    fold P1 in HP1l, HP1M. fold O1 in HO1l, HO1M.
    destruct (IH targets cs' (idx + c) P1 O1) as
      (P' & O' & Hrun & HP'l & HP'M & HO'l & HO'M & Hcells & Hframe);
      try done; try lia.
    exists P', O'. split_and!; try done.
    + intros t view' target_cfg' c' e k Hview Htarget Hcs He Hk.
      destruct t as [|t].
      * cbn in Hview, Htarget, Hcs.
        inversion Hview; inversion Htarget; inversion Hcs.
        subst view' target_cfg' c'. clear Hview Htarget Hcs.
        cbn [take sum_list sum_list_with]. rewrite Nat.add_0_r.
        destruct (Hframe e (idx + k) ltac:(lia)) as [-> ->].
        unfold P1, O1.
        rewrite (with_columns_inside positions idx c _ M)
          by (try done; try lia; apply HvP; lia).
        rewrite (with_columns_inside orientations idx c _ M)
          by (try done; try lia; apply HvO; lia).
        rewrite (rows_of_env_lookup num_envs) by done.
        rewrite (rows_of_env_lookup num_envs) by done.
        rewrite !list_lookup_fmap.
        destruct (lookup_lt_is_Some_2 all
                    (if is_global target_cfg then k else e * c + k))
          as [[p q] Hpq].
        { unfold target_shape in Hc. unfold view_count in Hc. fold all in Hc.
          destruct (is_global target_cfg); [lia|].
          destruct Hc as [_ ->]. nia. }
        exists p, q. by rewrite Hpq.
      * cbn in Hview, Htarget, Hcs.
        destruct (Hcells t view' target_cfg' c' e k) as (p & q & Hpq & HP & HO);
          try done.
        exists p, q. split_and!; [done| |].
        -- rewrite <- HP. f_equal. cbn. lia.
        -- rewrite <- HO. f_equal. cbn. lia.
    + intros e k Hk. cbn in Hk.
      destruct (Hframe e k ltac:(lia)) as [-> ->]. unfold P1, O1.
      rewrite (with_columns_outside positions idx c _ M) by (try done; lia).
      by rewrite (with_columns_outside orientations idx c _ M) by (try done; lia).
Qed.

(** X11. A refresh of the mesh transforms whose buffers are wide enough
    succeeds, keeps the shape of both buffers, and writes target [t] into the
    columns that start at the sum of the counts of the targets before it:
    for a global target the pose [k] of its view in every environment, for a
    local one the pose [e * c + k] in environment [e]. Columns past the sum
    of all counts keep their values. *)
Theorem refresh_writes_each_target_into_its_columns
    (phys : Physics) (num_envs M : nat)
    (views : list View) (targets : list RaycastTargetCfg) (cs : list nat)
    (positions : list (list vec3)) (orientations : list (list quat))
    (Hlen : length views = length targets)
    (Hshape : Forall2 (fun vt c =>
                 target_shape num_envs (is_global vt.2) (view_count phys vt.1) c)
                (zip views targets) cs)
    (Hpositions : length positions = num_envs /\
                  Forall (fun r => length r = M) positions)
    (Horientations : length orientations = num_envs /\
                     Forall (fun r => length r = M) orientations)
    (Hfit : sum_list cs <= M) :
  exists positions' orientations',
    refresh_transforms phys num_envs views targets 0 positions orientations
    = Ok (positions', orientations') /\
    (length positions' = num_envs /\
     Forall (fun r => length r = M) positions') /\
    (length orientations' = num_envs /\
     Forall (fun r => length r = M) orientations') /\
    (forall t view target_cfg c e k,
       views !! t = Some view -> targets !! t = Some target_cfg ->
       cs !! t = Some c -> e < num_envs -> k < c ->
       exists p q,
         poses (phys (view_path view))
           !! (if is_global target_cfg then k else e * c + k) = Some (p, q) /\
         cell positions' e (sum_list (take t cs) + k) = Some p /\
         cell orientations' e (sum_list (take t cs) + k) = Some q) /\
    (forall e k, sum_list cs <= k ->
       cell positions' e k = cell positions e k /\
       cell orientations' e k = cell orientations e k).
Proof.
  destruct Hpositions as [HPl HPM]. destruct Horientations as [HOl HOM].
  destruct (refresh_transforms_fits phys num_envs M views targets cs 0
              positions orientations) as
    (P' & O' & Hrun & HP'l & HP'M & HO'l & HO'M & Hcells & Hframe);
    try done.
  exists P', O'. split_and!; try done.
  intros e k Hk. apply Hframe. right. cbn. lia.
Qed.

Lemma refresh_writes_each_target_into_its_columns_witness :
  let views := [create_view NoPhysicsAPI ground_expr;
                create_view RigidBodyAPI obstacle_expr] in
  let targets := [ground_target; obstacles_target] in
  let cs := [1; 2] in
  let positions := replicate 3 (replicate 3 zeros3) in
  let orientations := replicate 3 (replicate 3 zeros4) in
  exists positions' orientations',
    refresh_transforms demo_phys 3 views targets 0 positions orientations
    = Ok (positions', orientations') /\
    (length positions' = 3 /\ Forall (fun r => length r = 3) positions') /\
    (length orientations' = 3 /\ Forall (fun r => length r = 3) orientations') /\
    (forall t view target_cfg c e k,
       views !! t = Some view -> targets !! t = Some target_cfg ->
       cs !! t = Some c -> e < 3 -> k < c ->
       exists p q,
         poses (demo_phys (view_path view))
           !! (if is_global target_cfg then k else e * c + k) = Some (p, q) /\
         cell positions' e (sum_list (take t cs) + k) = Some p /\
         cell orientations' e (sum_list (take t cs) + k) = Some q) /\
    (forall e k, sum_list cs <= k ->
       cell positions' e k = cell positions e k /\
       cell orientations' e k = cell orientations e k).
Proof.
  intros views targets cs positions orientations.
  apply (refresh_writes_each_target_into_its_columns demo_phys 3 3 views
           targets cs positions orientations).
  - reflexivity.
  - constructor; [reflexivity|].
    constructor; [|constructor]. split; [lia|reflexivity].
  - split; [reflexivity|]. repeat constructor.
  - split; [reflexivity|]. repeat constructor.
  - cbn. lia.
Defined.

(** ** The update and the reset of the ray caster, further *)

Lemma index_select_out_of_range {A} (x : list A) ids :
  Exists (fun i => length x <= i) ids ->
  index_select x ids = Raise IndexError.
Proof.
  unfold index_select. induction ids as [|i ids IH]; intros Hex.
  - by apply Exists_nil in Hex.
  - rewrite mapM_cons. unfold list_get at 1.
    destruct (x !! i) as [a|] eqn:Hi; [|done]. cbn [bind].
    apply Exists_cons in Hex as [Hex|Hex].
    + apply lookup_lt_Some in Hi. lia.
    + by rewrite (IH Hex).
Qed.

Lemma tracked_transforms_inv phys self env_ids b transforms :
  tracked_transforms phys self env_ids = Ok (b, transforms) ->
  _num_meshes_per_env b = _num_meshes_per_env (_binding self) /\
  _meshes b = _meshes (_binding self) /\
  _mesh_views b = _mesh_views (_binding self) /\
  _mesh_ids_wp b = _mesh_ids_wp (_binding self) /\
  (track_mesh_transforms (cfg self) = false ->
   b = _binding self /\ transforms = None).
Proof.
  unfold tracked_transforms. intros Ht.
  destruct (track_mesh_transforms (cfg self)).
  - inv_bind Ht as [positions orientations] Hrefresh.
    inv_bind Ht as mp Hmp. inv_bind Ht as mo Hmo.
    inversion Ht; subst. by split_and!.
  - inversion Ht; subst. by split_and!.
Qed.

(** X12. An update of the ray caster changes nothing but the data buffers
    and, for a tracking sensor, the two mesh transform buffers: the
    configuration, the view, the targets, the rays, the drift and the bound
    meshes stay as they were. *)
Theorem update_leaves_the_sensor_setup_alone
    (kernel : Kernel) (phys : Physics) (self self' : RayCaster)
    (env_ids : list nat)
    (Hupdate : _update_buffers_impl kernel phys self env_ids = Ok self') :
  cfg self' = cfg self /\ _num_envs self' = _num_envs self /\
  _view self' = _view self /\
  _raycast_targets_cfg self' = _raycast_targets_cfg self /\
  ray_starts self' = ray_starts self /\
  ray_directions self' = ray_directions self /\
  num_rays self' = num_rays self /\
  drift self' = drift self /\
  _num_meshes_per_env (_binding self') = _num_meshes_per_env (_binding self) /\
  _meshes (_binding self') = _meshes (_binding self) /\
  _mesh_views (_binding self') = _mesh_views (_binding self) /\
  _mesh_ids_wp (_binding self') = _mesh_ids_wp (_binding self) /\
  (track_mesh_transforms (cfg self) = false -> _binding self' = _binding self).
Proof.
  unfold _update_buffers_impl in Hupdate.
  inv_bind Hupdate as [pos quats] Hposes.
  inv_bind Hupdate as d Hd.
  inv_bind Hupdate as pos_w' Hp.
  inv_bind Hupdate as quat_w' Hq.
  inv_bind Hupdate as [v omega] Hvel.
  inv_bind Hupdate as vel_w' Hv.
  inv_bind Hupdate as rot_vel_w' Hw.
  inv_bind Hupdate as starts Hs.
  inv_bind Hupdate as directions Hdir.
  destruct (world_rays _ _ _ _ _) as [ray_starts_w ray_directions_w] eqn:Hrays.
  inv_bind Hupdate as [b transforms] Hb.
  inv_bind Hupdate as ray_hits_w' Hh. injection Hupdate as <-.
  apply tracked_transforms_inv in Hb as (? & ? & ? & ? & Hoff).
  cbn. split_and!; try done. intros Htrack. by destruct (Hoff Htrack).
Qed.

(** X13. An index at or past the number of prims of the sensor's view makes
    both the update and the reset of these indices fail with the
    [IndexError] of the tensor indexing. *)
Theorem index_beyond_the_view_raises_IndexError
    (kernel : Kernel) (phys : Physics) (self : RayCaster) (env_ids : list nat)
    (uniform : nat -> vec3)
    (Hbeyond : Exists (fun i => view_count phys (_view self) <= i) env_ids) :
  _update_buffers_impl kernel phys self env_ids = Raise IndexError /\
  reset phys self (EnvIds env_ids) uniform = Raise IndexError.
Proof.
  split.
  - unfold _update_buffers_impl, compute_world_poses.
    by rewrite index_select_out_of_range.
  - unfold reset. rewrite index_select_out_of_range; [done|].
    by rewrite length_replicate.
Qed.

(** X14. An update with an empty list of indices returns the sensor as it
    was, for a sensor that does not track mesh transforms and a kernel that
    returns one row of hits per row of rays. *)
Theorem update_of_no_sensor_changes_nothing
    (kernel : Kernel) (phys : Physics) (self : RayCaster)
    (Hkernel : shape_preserving kernel)
    (Htrack : track_mesh_transforms (cfg self) = false) :
  _update_buffers_impl kernel phys self [] = Ok self.
Proof.
  unfold _update_buffers_impl, compute_world_poses, _get_world_velocities,
    compute_world_poses, tracked_transforms.
  rewrite Htrack. cbn [index_select mapM bind mret result_ret fmap list_fmap
                       zip_with fst snd].
  assert (forall A (x : list A), index_put x [] [] = Ok x) as Hput.
  { intros A x. unfold index_put. cbn. unfold broadcast_rows. by cbn. }
  rewrite !Hput. cbn [bind].
  destruct (view_kind (_view self)); cbn [bind];
    rewrite !Hput; cbn [bind];
    unfold world_rays; cbn [zip_with zip];
    (destruct (hits (kernel [] [] (_mesh_ids_wp (_binding self))
                       (max_distance (cfg self)) None false false)) eqn:Hhits;
     [|pose proof (Hkernel [] [] (_mesh_ids_wp (_binding self))
                     (max_distance (cfg self)) None false false) as Hl;
       by rewrite Hhits in Hl]);
    rewrite Hput; cbn [bind];
    by destruct self as [? ? ? ? ? ? ? ? ? []].
Qed.

(** X15. For a sensor on an articulation or rigid body view, an update
    stores in [vel_w] and [rot_vel_w], at every updated index, the linear
    and angular velocity the physics engine reports for that index. *)
Theorem physics_view_reports_the_engine_velocities
    (kernel : Kernel) (phys : Physics) (self self' : RayCaster)
    (env_ids : list nat)
    (Hkind : view_kind (_view self) ≠ XFormPrimView)
    (Hupdate : _update_buffers_impl kernel phys self env_ids = Ok self') :
  forall i, i ∈ env_ids ->
    exists lin ang,
      velocities (phys (view_path (_view self))) !! i = Some (lin, ang) /\
      vel_w (_data self') !! i = Some lin /\
      rot_vel_w (_data self') !! i = Some ang.
Proof.
  apply update_Ok_inv in Hupdate
    as (pos & quats & d & v & omega & starts & directions & b & transforms
        & _ & _ & Hvel & _ & _ & _ & _ & _ & Hv & Hw & _).
  intros i Hi.
  assert (exists rows,
            index_select (velocities (phys (view_path (_view self)))) env_ids
            = Ok rows /\ v = rows.*1 /\ omega = rows.*2)
    as (rows & Hrows & -> & ->).
  { unfold _get_world_velocities in Hvel.
    destruct (view_kind (_view self)); [done| |].
    - inv_bind Hvel as rows Hrows. inversion Hvel; subst. by exists rows.
    - inv_bind Hvel as rows Hrows. inversion Hvel; subst. by exists rows. }
  apply index_select_Ok_inv in Hrows as [Hlen Hrows].
  pose proof Hi as Hi'. apply list_elem_of_lookup in Hi' as [j Hj].
  destruct (Hrows _ _ Hj) as ([lin ang] & Hla & _).
  exists lin, ang. split; [done|]. split.
  - apply (index_put_fn
             (fun i => default zeros3
                         (fst <$> velocities (phys (view_path (_view self))) !! i))
             _ _ _ _ i) in Hv.
    + by rewrite Hv, Hla.
    + by rewrite length_fmap.
    + intros j' i' Hj'. destruct (Hrows _ _ Hj') as (a & Ha & Hr).
      by rewrite list_lookup_fmap, Hr, Ha.
    + done.
  - apply (index_put_fn
             (fun i => default zeros3
                         (snd <$> velocities (phys (view_path (_view self))) !! i))
             _ _ _ _ i) in Hw.
    + by rewrite Hw, Hla.
    + by rewrite length_fmap.
    + intros j' i' Hj'. destruct (Hrows _ _ Hj') as (a & Ha & Hr).
      by rewrite list_lookup_fmap, Hr, Ha.
    + done.
Qed.

(** X16. A reset without indices draws a drift for every sensor and leaves
    the data alone; the next update stores, at every updated index, the
    position of the view plus the drift drawn for that index. *)
Theorem drift_drawn_at_a_full_reset_offsets_the_position
    (kernel : Kernel) (phys phys' : Physics) (self self1 self2 : RayCaster)
    (uniform : nat -> vec3) (env_ids : list nat)
    (Hreset : reset phys self AllEnvs uniform = Ok self1)
    (Hupdate : _update_buffers_impl kernel phys' self1 env_ids = Ok self2) :
  (forall k, k < view_count phys (_view self) ->
     drift self1 !! k = Some (uniform k)) /\
  _data self1 = _data self /\
  forall i, i ∈ env_ids ->
    exists p q,
      poses (phys' (view_path (_view self))) !! i = Some (p, q) /\
      pos_w (_data self2) !! i = Some (vadd p (uniform i)).
Proof.
  unfold reset in Hreset. inversion Hreset; subst self1; clear Hreset.
  assert (forall k, k < view_count phys (_view self) ->
            drift (set_drift self
                     (imap (fun k _ => uniform k)
                        (replicate (view_count phys (_view self)) zeros3)))
              !! k = Some (uniform k)) as Hdrift.
  { intros k Hk. cbn. rewrite list_lookup_imap, lookup_replicate_2 by done. done. }
  split; [done|]. split; [done|].
  apply update_Ok_inv in Hupdate
    as (pos & quats & d & v & omega & starts & directions & b & transforms
        & Hposes & Hd & _ & _ & _ & _ & Hp & _).
  intros i Hi.
  apply compute_world_poses_Some in Hposes as (Hlp & Hlq & Hlk).
  apply index_select_Ok_inv in Hd as [Hld Hdk].
  pose proof Hi as Hi'. apply list_elem_of_lookup in Hi' as [j Hj].
  destruct (Hlk _ _ Hj) as (p & q & Hpq & _ & _).
  cbn [_view set_drift] in Hpq.
  exists p, q. split; [done|].
  assert (forall j' i', env_ids !! j' = Some i' -> d !! j' = Some (uniform i'))
    as Hdu.
  { intros j' i' Hj'. destruct (Hdk _ _ Hj') as (di & Hdi & ->).
    rewrite <- Hdi. apply Hdrift.
    apply lookup_lt_Some in Hdi. cbn in Hdi.
    by rewrite length_imap, length_replicate in Hdi. }
  apply (index_put_fn
           (fun i => vadd (default zeros3
                             (fst <$> poses (phys' (view_path (_view self))) !! i))
                       (uniform i))
           _ _ _ _ i) in Hp.
  - cbn [_data set_drift] in Hp. by rewrite Hp, Hpq.
  - rewrite length_zip_with. lia.
  - intros j' i' Hj'.
    destruct (Hlk _ _ Hj') as (p' & q' & Hpq' & Hp' & _).
    cbn [_view set_drift] in Hpq'.
    by rewrite lookup_zip_with, Hp', (Hdu _ _ Hj'), Hpq'.
  - done.
Qed.

Lemma initialize_impl_sized {F} `{NumpyScalar F} (stage : Stage F) phys
    num_envs c proc self proc' :
  _initialize_impl stage phys num_envs c proc = Ok (self, proc') ->
  cfg self = c /\ view_path (_view self) = prim_path c /\
  (length (velocities (phys (prim_path c))) = length (poses (phys (prim_path c))) ->
   sized phys self).
Proof.
  unfold _initialize_impl. intros Hinit.
  destruct (first_prim_api stage (prim_path c)) as [api|]; [|done].
  inv_bind Hinit as [b proc1] Hb. inversion Hinit; subst; clear Hinit.
  assert (view_path (create_view api (prim_path c)) = prim_path c) as Hpath
    by (by destruct api).
  split_and!; [done|done|]. intros Hvel.
  unfold sized, view_count. cbn. rewrite Hpath, !length_replicate. by split_and!.
Qed.

Lemma update_keeps_sized kernel phys self env_ids self' :
  sized phys self ->
  _update_buffers_impl kernel phys self env_ids = Ok self' ->
  sized phys self'.
Proof.
  intros (Hvel & Hdrift & Hrs & Hrd & Hp & Hq & Hv & Hw & Hh) Hupdate.
  unfold _update_buffers_impl in Hupdate.
  inv_bind Hupdate as [pos quats] Hposes.
  inv_bind Hupdate as d Hd.
  inv_bind Hupdate as pos_w' Hp'.
  inv_bind Hupdate as quat_w' Hq'.
  inv_bind Hupdate as [v omega] Hvel'.
  inv_bind Hupdate as vel_w' Hv'.
  inv_bind Hupdate as rot_vel_w' Hw'.
  inv_bind Hupdate as starts Hs.
  inv_bind Hupdate as directions Hdir.
  destruct (world_rays _ _ _ _ _) as [ray_starts_w ray_directions_w] eqn:Hrays.
  inv_bind Hupdate as [b transforms] Hb.
  inv_bind Hupdate as ray_hits_w' Hh'. injection Hupdate as <-.
  apply index_put_length in Hp', Hq', Hv', Hw', Hh'.
  unfold sized. cbn. split_and!; congruence.
Qed.

(** X17. A sensor that was initialised without mesh tracking, on a view with
    one velocity per pose, updates without an exception for any indices
    below the number of prims of its view and any kernel that returns one
    row of hits per row of rays; its buffers keep their sizes. *)
Theorem initialised_sensor_updates_without_exception
    {F : Type} `{NumpyScalar F} (stage : Stage F) (phys : Physics)
    (num_envs : nat) (c : RayCasterCfg) (proc proc' : Process F)
    (self : RayCaster) (kernel : Kernel) (env_ids : list nat)
    (Hinit : _initialize_impl stage phys num_envs c proc = Ok (self, proc'))
    (Hstatic : track_mesh_transforms c = false)
    (Hphys : length (velocities (phys (prim_path c)))
             = length (poses (phys (prim_path c))))
    (Hkernel : shape_preserving kernel)
    (Hids : Forall (fun i => i < view_count phys (_view self)) env_ids) :
  exists self',
    _update_buffers_impl kernel phys self env_ids = Ok self' /\
    sized phys self'.
Proof.
  apply initialize_impl_sized in Hinit as (Hcfg & _ & Hsized).
  specialize (Hsized Hphys).
  destruct (update_is_Ok kernel phys self env_ids) as [self' Hupdate];
    try done.
  { by rewrite Hcfg. }
  exists self'. split; [done|]. by eapply update_keeps_sized.
Qed.

Lemma ground_kernel_shape_preserving : shape_preserving ground_kernel.
Proof. intros starts directions ids max_dist transforms wd wn. apply length_fmap. Qed.

Lemma update_leaves_the_sensor_setup_alone_witness :
  exists self proc self',
    _initialize_impl demo_stage demo_phys 3 base_sensor_cfg empty_process
    = Ok (self, proc) /\
    _update_buffers_impl miss_kernel demo_phys self [0; 2] = Ok self' /\
    cfg self' = cfg self /\ _num_envs self' = _num_envs self /\
    _view self' = _view self /\
    _raycast_targets_cfg self' = _raycast_targets_cfg self /\
    ray_starts self' = ray_starts self /\
    ray_directions self' = ray_directions self /\
    num_rays self' = num_rays self /\
    drift self' = drift self /\
    _num_meshes_per_env (_binding self') = _num_meshes_per_env (_binding self) /\
    _meshes (_binding self') = _meshes (_binding self) /\
    _mesh_views (_binding self') = _mesh_views (_binding self) /\
    _mesh_ids_wp (_binding self') = _mesh_ids_wp (_binding self) /\
    (track_mesh_transforms (cfg self) = false -> _binding self' = _binding self).
Proof.
  eassert (_initialize_impl demo_stage demo_phys 3 base_sensor_cfg
             empty_process = Ok (_, _)) as Hinit by reflexivity.
  match type of Hinit with
  | _ = Ok (?self, _) =>
      eassert (_update_buffers_impl miss_kernel demo_phys self [0; 2] = Ok _)
        as Hupdate by reflexivity
  end.
  eexists _, _, _. split; [exact Hinit|]. split; [exact Hupdate|].
  exact (update_leaves_the_sensor_setup_alone miss_kernel demo_phys _ _ [0; 2]
           Hupdate).
Defined.

Lemma index_beyond_the_view_raises_IndexError_witness :
  Exists (fun i => view_count demo_phys (_view (caster demo_camera)) <= i) [0; 3] /\
  _update_buffers_impl miss_kernel demo_phys (caster demo_camera) [0; 3]
  = Raise IndexError /\
  reset demo_phys (caster demo_camera) (EnvIds [0; 3]) (fun _ => zeros3)
  = Raise IndexError.
Proof.
  assert (Exists (fun i => view_count demo_phys (_view (caster demo_camera)) <= i)
            [0; 3]) as Hbeyond.
  { apply Exists_cons. right. apply Exists_cons. left.
    change (3 <= 3). lia. }
  split; [exact Hbeyond|].
  exact (index_beyond_the_view_raises_IndexError miss_kernel demo_phys
           (caster demo_camera) [0; 3] (fun _ => zeros3) Hbeyond).
Defined.

Lemma update_of_no_sensor_changes_nothing_witness :
  shape_preserving ground_kernel /\
  track_mesh_transforms (cfg (caster demo_camera)) = false /\
  _update_buffers_impl ground_kernel demo_phys (caster demo_camera) []
  = Ok (caster demo_camera).
Proof.
  split; [exact ground_kernel_shape_preserving|]. split; [reflexivity|].
  exact (update_of_no_sensor_changes_nothing ground_kernel demo_phys
           (caster demo_camera) ground_kernel_shape_preserving eq_refl).
Defined.

Lemma physics_view_reports_the_engine_velocities_witness :
  exists self proc self',
    _initialize_impl demo_stage demo_phys 3 base_sensor_cfg empty_process
    = Ok (self, proc) /\
    view_kind (_view self) ≠ XFormPrimView /\
    _update_buffers_impl miss_kernel demo_phys self [0; 2] = Ok self' /\
    forall i, i ∈ [0; 2] ->
      exists lin ang,
        velocities (demo_phys (view_path (_view self))) !! i = Some (lin, ang) /\
        vel_w (_data self') !! i = Some lin /\
        rot_vel_w (_data self') !! i = Some ang.
Proof.
  eassert (_initialize_impl demo_stage demo_phys 3 base_sensor_cfg
             empty_process = Ok (_, _)) as Hinit by reflexivity.
  match type of Hinit with
  | _ = Ok (?self, _) =>
      eassert (_update_buffers_impl miss_kernel demo_phys self [0; 2] = Ok _)
        as Hupdate by reflexivity;
      assert (view_kind (_view self) ≠ XFormPrimView) as Hkind
        by (intros Hk; discriminate Hk)
  end.
  eexists _, _, _. split; [exact Hinit|]. split; [exact Hkind|].
  split; [exact Hupdate|].
  exact (physics_view_reports_the_engine_velocities miss_kernel demo_phys _ _
           [0; 2] Hkind Hupdate).
Defined.

Lemma drift_drawn_at_a_full_reset_offsets_the_position_witness :
  let uniform := fun k : nat => (INR k, 0, 0)%R in
  exists self proc self1 self2,
    _initialize_impl demo_stage demo_phys 3 base_sensor_cfg empty_process
    = Ok (self, proc) /\
    reset demo_phys self AllEnvs uniform = Ok self1 /\
    _update_buffers_impl miss_kernel demo_phys self1 [0; 2] = Ok self2 /\
    (forall k, k < view_count demo_phys (_view self) ->
       drift self1 !! k = Some (uniform k)) /\
    _data self1 = _data self /\
    forall i, i ∈ [0; 2] ->
      exists p q,
        poses (demo_phys (view_path (_view self))) !! i = Some (p, q) /\
        pos_w (_data self2) !! i = Some (vadd p (uniform i)).
Proof.
  intros uniform.
  eassert (_initialize_impl demo_stage demo_phys 3 base_sensor_cfg
             empty_process = Ok (_, _)) as Hinit by reflexivity.
  match type of Hinit with
  | _ = Ok (?self, _) =>
      eassert (reset demo_phys self AllEnvs uniform = Ok _) as Hreset
        by reflexivity
  end.
  match type of Hreset with
  | _ = Ok ?self1 =>
      eassert (_update_buffers_impl miss_kernel demo_phys self1 [0; 2] = Ok _)
        as Hupdate by reflexivity
  end.
  eexists _, _, _, _. split; [exact Hinit|]. split; [exact Hreset|].
  split; [exact Hupdate|].
  exact (drift_drawn_at_a_full_reset_offsets_the_position miss_kernel demo_phys
           demo_phys _ _ _ uniform [0; 2] Hreset Hupdate).
Defined.

Lemma initialised_sensor_updates_without_exception_witness :
  exists self proc,
    _initialize_impl demo_stage demo_phys 3 base_sensor_cfg empty_process
    = Ok (self, proc) /\
    exists self',
      _update_buffers_impl ground_kernel demo_phys self [0; 2] = Ok self' /\
      sized demo_phys self'.
Proof.
  eassert (_initialize_impl demo_stage demo_phys 3 base_sensor_cfg
             empty_process = Ok (_, _)) as Hinit by reflexivity.
  eexists _, _. split; [exact Hinit|].
  apply (initialised_sensor_updates_without_exception demo_stage demo_phys 3
           base_sensor_cfg empty_process _ _ ground_kernel [0; 2] Hinit).
  - reflexivity.
  - reflexivity.
  - exact ground_kernel_shape_preserving.
  - repeat constructor.
Defined.

(** ** Setting the camera pose *)

Section SetPose.
Local Open Scope R_scope.





End SetPose.








(** ** The update and the reset of the camera *)

Lemma camera_update_Ok_inv kernel phys self env_ids self' :
  camera_update_buffers_impl kernel phys self env_ids = Ok self' ->
  exists frames pos quats starts directions b transforms,
    index_select (_frame self) env_ids = Ok frames /\
    index_put (_frame self) env_ids (S <$> frames) = Ok (_frame self') /\
    _compute_camera_world_poses phys self env_ids = Ok (pos, quats) /\
    index_put (cam_pos_w (_cam_data self)) env_ids pos
    = Ok (cam_pos_w (_cam_data self')) /\
    index_put (quat_w_world (_cam_data self)) env_ids quats
    = Ok (quat_w_world (_cam_data self')) /\
    index_select (ray_starts (caster self)) env_ids = Ok starts /\
    index_select (ray_directions (caster self)) env_ids = Ok directions /\
    tracked_transforms phys (caster self) env_ids = Ok (b, transforms) /\
    cam_ray_hits_w self'
    = hits (kernel (world_rays false quats pos starts directions).1
              (world_rays false quats pos starts directions).2
              (_mesh_ids_wp b) (max_distance (cfg (caster self))) transforms
              (configured self "distance_to_image_plane"
               || configured self "distance_to_camera")
              (configured self "normals")) /\
    caster self' = set_binding (caster self) b /\
    data_types self' = data_types self /\
    image_shape self' = image_shape self /\
    _offset_pos self' = _offset_pos self /\
    _offset_quat self' = _offset_quat self.
Proof.
  unfold camera_update_buffers_impl. intros Hupdate.
  inv_bind Hupdate as frames Hframes.
  inv_bind Hupdate as frame' Hframe'.
  inv_bind Hupdate as [pos quats] Hposes.
  inv_bind Hupdate as cam_pos_w' Hcp.
  inv_bind Hupdate as quat_w_world' Hcq.
  inv_bind Hupdate as starts Hs.
  inv_bind Hupdate as directions Hdir.
  destruct (world_rays false quats pos starts directions)
    as [ray_starts_w ray_directions_w] eqn:Hrays.
  inv_bind Hupdate as [b transforms] Hb.
  set (out := kernel _ _ _ _ _ _ _) in Hupdate.
  inv_bind Hupdate as plane' Hplane'.
  inv_bind Hupdate as camera' Hcamera'.
  inv_bind Hupdate as normals' Hnormals'.
  injection Hupdate as <-.
  exists frames, pos, quats, starts, directions, b, transforms.
  rewrite Hrays. cbn. by split_and!.
Qed.

(** X19. A camera update that succeeds raises the frame count of every
    index in [env_ids] by exactly one, also of an index listed twice, and
    leaves the other frame counts and the length of the counter alone. *)
Theorem camera_update_counts_one_frame
    (kernel : Kernel) (phys : Physics) (self self' : RayCasterCamera)
    (env_ids : list nat)
    (Hupdate : camera_update_buffers_impl kernel phys self env_ids = Ok self') :
  length (_frame self') = length (_frame self) /\
  forall i,
    (i ∈ env_ids ->
     exists n, _frame self !! i = Some n /\ _frame self' !! i = Some (S n)) /\
    (i ∉ env_ids -> _frame self' !! i = _frame self !! i).
Proof.
  apply camera_update_Ok_inv in Hupdate
    as (frames & pos & quats & starts & directions & b & transforms
        & Hframes & Hframe' & _).
  split; [by eapply index_put_length|].
  intros i. split.
  - intros Hi. apply index_select_Ok_inv in Hframes as [Hlen Hrows].
    pose proof Hi as Hi'. apply list_elem_of_lookup in Hi' as [j Hj].
    destruct (Hrows _ _ Hj) as (n & Hn & _).
    exists n. split; [done|].
    apply (index_put_fn (fun i => S (default 0 (_frame self !! i))) _ _ _ _ i)
      in Hframe'.
    + by rewrite Hframe', Hn.
    + by rewrite length_fmap.
    + intros j' i' Hj'. destruct (Hrows _ _ Hj') as (n' & Hn' & Hr).
      by rewrite list_lookup_fmap, Hr, Hn'.
    + done.
  - intros Hi. by eapply index_put_frame.
Qed.

Lemma world_rays_starts_length yaw_only quats pos starts directions :
  length (world_rays yaw_only quats pos starts directions).1
  = (length quats `min` length pos) `min` length starts.
Proof. unfold world_rays. cbn. by rewrite !length_zip_with. Qed.

(** X20. A camera update, with a kernel that returns one row of hits per row
    of rays, assigns the hits to [self.ray_hits_w], which then has one row
    per updated index instead of one per sensor; the data of the ray caster,
    [_data.ray_hits_w] included, and the drift are not written. *)
Theorem camera_update_replaces_ray_hits
    (kernel : Kernel) (phys : Physics) (self self' : RayCasterCamera)
    (env_ids : list nat)
    (Hkernel : shape_preserving kernel)
    (Hupdate : camera_update_buffers_impl kernel phys self env_ids = Ok self') :
  length (cam_ray_hits_w self') = length env_ids /\
  _data (caster self') = _data (caster self) /\
  drift (caster self') = drift (caster self).
Proof.
  apply camera_update_Ok_inv in Hupdate
    as (frames & pos & quats & starts & directions & b & transforms
        & _ & _ & Hposes & _ & _ & Hs & _ & _ & Hhits & Hcaster & _).
  rewrite Hhits, Hkernel, world_rays_starts_length, Hcaster.
  destruct (compute_camera_world_poses_length _ _ _ _ _ Hposes) as [Hlp Hlq].
  apply index_select_Ok_inv in Hs as [Hls _].
  split; [lia|done].
Qed.

Lemma index_put_scalar {A} (x : list A) ids v x' i :
  index_put x ids [v] = Ok x' -> i ∈ ids -> x' !! i = Some v.
Proof.
  intros Hput Hi.
  apply index_put_Ok_inv in Hput as (Hin & vs & Hvs & ->).
  assert (vs = replicate (length ids) v) as ->.
  { unfold broadcast_rows in Hvs. destruct (decide _) as [Hl|Hl].
    - inversion Hvs; subst vs. by rewrite <- Hl.
    - by inversion Hvs. }
  apply (put_rows_fn (fun _ => v)); [|done|].
  - intros j i' Hj. apply lookup_replicate_2. by eapply lookup_lt_Some.
  - eapply Forall_forall in Hin; done.
Qed.

(** X21. A camera reset of a sequence of indices sets their frame counts to
    0 and leaves the frame counts and poses of the other indices, the output
    images and the ray hits as they were; the drift is zero for every sensor
    afterwards. *)
Theorem camera_reset_restarts_the_frame_count
    (phys : Physics) (self self' : RayCasterCamera) (env_ids : list nat)
    (uniform : nat -> vec3)
    (Hreset : camera_reset phys self env_ids uniform = Ok self') :
  (forall i, i ∈ env_ids -> _frame self' !! i = Some 0) /\
  (forall i, i ∉ env_ids ->
     _frame self' !! i = _frame self !! i /\
     cam_pos_w (_cam_data self') !! i = cam_pos_w (_cam_data self) !! i /\
     quat_w_world (_cam_data self') !! i = quat_w_world (_cam_data self) !! i) /\
  distance_to_image_plane (_cam_data self')
  = distance_to_image_plane (_cam_data self) /\
  distance_to_camera (_cam_data self') = distance_to_camera (_cam_data self) /\
  normals (_cam_data self') = normals (_cam_data self) /\
  cam_ray_hits_w self' = cam_ray_hits_w self /\
  drift (caster self')
  = replicate (view_count phys (_view (caster self))) zeros3.
Proof.
  unfold camera_reset in Hreset.
  inv_bind Hreset as base Hbase.
  inv_bind Hreset as [pos quats] Hposes.
  inv_bind Hreset as cam_pos_w' Hcp.
  inv_bind Hreset as quat_w_world' Hcq.
  inv_bind Hreset as frame' Hframe'.
  injection Hreset as <-. cbn.
  split_and!; try done.
  - intros i Hi. by eapply index_put_scalar.
  - intros i Hi. split_and!; by eapply index_put_frame.
  - by eapply reset_with_indices_zeroes_drift.
Qed.

Lemma camera_update_counts_one_frame_witness :
  exists self',
    camera_update_buffers_impl miss_kernel demo_phys demo_camera [2; 0; 2]
    = Ok self' /\
    length (_frame self') = length (_frame demo_camera) /\
    forall i,
      (i ∈ [2; 0; 2] ->
       exists n, _frame demo_camera !! i = Some n /\
                 _frame self' !! i = Some (S n)) /\
      (i ∉ [2; 0; 2] -> _frame self' !! i = _frame demo_camera !! i).
Proof.
  eassert (camera_update_buffers_impl miss_kernel demo_phys demo_camera [2; 0; 2]
           = Ok _) as Hupdate by reflexivity.
  eexists. split; [exact Hupdate|].
  exact (camera_update_counts_one_frame miss_kernel demo_phys demo_camera _
           [2; 0; 2] Hupdate).
Defined.

Lemma camera_update_replaces_ray_hits_witness :
  exists self',
    camera_update_buffers_impl ground_kernel demo_phys demo_camera [0; 2]
    = Ok self' /\
    length (cam_ray_hits_w self') = length [0; 2] /\
    _data (caster self') = _data (caster demo_camera) /\
    drift (caster self') = drift (caster demo_camera).
Proof.
  eassert (camera_update_buffers_impl ground_kernel demo_phys demo_camera [0; 2]
           = Ok _) as Hupdate by reflexivity.
  eexists. split; [exact Hupdate|].
  exact (camera_update_replaces_ray_hits ground_kernel demo_phys demo_camera _
           [0; 2] ground_kernel_shape_preserving Hupdate).
Defined.

Lemma camera_reset_restarts_the_frame_count_witness :
  exists self1 self',
    camera_update_buffers_impl miss_kernel demo_phys demo_camera [0; 1; 2]
    = Ok self1 /\
    camera_reset demo_phys self1 [1] (fun _ => zeros3) = Ok self' /\
    (forall i, i ∈ [1] -> _frame self' !! i = Some 0) /\
    (forall i, i ∉ [1] ->
       _frame self' !! i = _frame self1 !! i /\
       cam_pos_w (_cam_data self') !! i = cam_pos_w (_cam_data self1) !! i /\
       quat_w_world (_cam_data self') !! i = quat_w_world (_cam_data self1) !! i) /\
    distance_to_image_plane (_cam_data self')
    = distance_to_image_plane (_cam_data self1) /\
    distance_to_camera (_cam_data self') = distance_to_camera (_cam_data self1) /\
    normals (_cam_data self') = normals (_cam_data self1) /\
    cam_ray_hits_w self' = cam_ray_hits_w self1 /\
    drift (caster self')
    = replicate (view_count demo_phys (_view (caster self1))) zeros3.
Proof.
  eassert (camera_update_buffers_impl miss_kernel demo_phys demo_camera [0; 1; 2]
           = Ok _) as Hupdate by reflexivity.
  match type of Hupdate with
  | _ = Ok ?self1 =>
      eassert (camera_reset demo_phys self1 [1] (fun _ => zeros3) = Ok _)
        as Hreset by reflexivity
  end.
  eexists _, _. split; [exact Hupdate|]. split; [exact Hreset|].
  exact (camera_reset_restarts_the_frame_count demo_phys _ _ [1]
           (fun _ => zeros3) Hreset).
Defined.

(** ** The construction of the camera *)

Lemma check_supported_Ok (cfg_data_types : list string) :
  _check_supported_data_types cfg_data_types = inr tt <->
  Forall (fun name => name ∉ UNSUPPORTED_TYPES) cfg_data_types.
Proof.
  unfold _check_supported_data_types.
  destruct (decide _) as [Hnil|Hne].
  - split; [intros _|done]. apply Forall_forall. intros name Hin Hbad.
    assert (name ∈ filter (fun name => name ∈ UNSUPPORTED_TYPES) cfg_data_types)
      as Hf by (by apply list_elem_of_filter).
    rewrite Hnil in Hf. by apply not_elem_of_nil in Hf.
  - split; [done|]. intros Hall. exfalso. apply Hne. clear Hne.
    induction cfg_data_types as [|name rest IH]; [done|].
    apply Forall_cons in Hall as [Hname Hall].
    rewrite filter_cons, decide_False by done. by apply IH.
Qed.

Lemma create_outputs_Ok count h w cfg_data_types :
  forall output,
    (exists data, create_outputs count h w cfg_data_types output = inr data) <->
    Forall (fun name =>
              name ∈ ["distance_to_image_plane"; "distance_to_camera"; "normals"])
      cfg_data_types.
Proof.
  induction cfg_data_types as [|name rest IH]; intros output.
  - cbn. split; [done|]. intros _. by eexists.
  - cbn [create_outputs]. rewrite Forall_cons.
    destruct (decide (name ∈ ["distance_to_image_plane"; "distance_to_camera"]))
      as [Hd|Hd].
    + rewrite IH. split; [intros Hall|by intros [_ ?]]. split; [|done].
      set_unfold. tauto.
    + destruct (decide (name ∈ ["normals"])) as [Hn|Hn].
      * rewrite IH. split; [intros Hall|by intros [_ ?]]. split; [|done].
        set_unfold. tauto.
      * split; [by intros [? ?]|]. intros [Hin _]. exfalso.
        set_unfold. tauto.
Qed.

(** X22. On an object that has [_cam_data], [_create_buffers] succeeds
    exactly when every configured data type is "distance_to_image_plane",
    "distance_to_camera" or "normals"; such a list also passes the check of
    the constructor, and every other list fails with the [ValueError] for an
    unknown data type. *)
Theorem camera_accepts_exactly_the_three_outputs
    (attrs : CameraAttributes) (count h w : nat) (cfg_data_types : list string)
    (Hattr : is_Some (attr_cam_data attrs)) :
  ((exists buffers, _create_buffers attrs count h w cfg_data_types = inr buffers)
   <-> Forall (fun name =>
                 name ∈ ["distance_to_image_plane"; "distance_to_camera";
                         "normals"]) cfg_data_types) /\
  ((exists buffers, _create_buffers attrs count h w cfg_data_types = inr buffers)
   -> _check_supported_data_types cfg_data_types = inr tt) /\
  ((forall buffers, _create_buffers attrs count h w cfg_data_types ≠ inr buffers)
   -> _create_buffers attrs count h w cfg_data_types
      = inl (ValueError "Received unknown data type")).
Proof.
  destruct Hattr as [cam Hcam]. unfold _create_buffers. rewrite Hcam.
  set (start := {| cam_pos_w := replicate count zeros3;
                   quat_w_world := replicate count zeros4;
                   distance_to_image_plane := [];
                   distance_to_camera := [];
                   normals := [] |}).
  assert ((exists buffers,
             match create_outputs count h w cfg_data_types start with
             | inl e => inl e
             | inr data =>
                 inr {| buf_drift := replicate count zeros3;
                        buf_data := data;
                        intrinsic_matrices :=
                          replicate count (zeros3, zeros3, (0, 0, 1)%R) |}
             end = inr buffers)
          <-> exists data, create_outputs count h w cfg_data_types start = inr data)
    as Hiff.
  { destruct (create_outputs count h w cfg_data_types start) as [e|data].
    - split; intros [? ?]; done.
    - split; intros _; by eexists. }
  split_and!.
  - rewrite Hiff. apply create_outputs_Ok.
  - rewrite Hiff, create_outputs_Ok. intros Hall.
    apply check_supported_Ok. eapply Forall_impl; [exact Hall|].
    intros name Hname. cbn beta in Hname. unfold UNSUPPORTED_TYPES.
    set_unfold. intros Hbad.
    destruct Hname as [->|[->|[->|[]]]]; repeat (destruct Hbad as [?|Hbad]; [done|]);
      done.
  - intros Hnot.
    assert (forall output e,
              create_outputs count h w cfg_data_types output = inl e ->
              e = ValueError "Received unknown data type") as Herr.
    { clear. induction cfg_data_types as [|name rest IH]; intros output e He;
        [done|].
      cbn [create_outputs] in He.
      destruct (decide (name ∈ ["distance_to_image_plane"; "distance_to_camera"]));
        [by eapply IH|].
      destruct (decide (name ∈ ["normals"])); [by eapply IH|].
      by inversion He. }
    destruct (create_outputs count h w cfg_data_types start) as [e|data] eqn:Hc.
    + by rewrite (Herr _ _ Hc).
    + exfalso. by eapply Hnot.
Qed.

(** X23. A camera built by [__init__] has its data object under
    [_cam_cam_data], so [_create_buffers], which the initialisation of the
    rays calls, fails with an [AttributeError] on [_cam_data] for every
    configuration. *)
Theorem camera_never_gets_its_buffers
    (cfg_data_types : list string) (base_init : result unit)
    (attrs : CameraAttributes) (count h w : nat)
    (Hinit : camera_init cfg_data_types base_init = inr attrs) :
  _create_buffers attrs count h w cfg_data_types = inl (Builtin AttributeError).
Proof.
  unfold camera_init in Hinit.
  destruct (_check_supported_data_types cfg_data_types); [done|].
  destruct base_init; [|done]. by inversion Hinit; subst.
Qed.

Section Intrinsics.
Local Open Scope R_scope.

Lemma truediv_Ok a b : b <> 0 -> truediv a b = Ok (a / b).
Proof. intros Hb. unfold truediv. by destruct (Req_EM_T b 0). Qed.

Lemma truediv_zero a : truediv a 0 = Raise ZeroDivisionError.
Proof. unfold truediv. by destruct (Req_EM_T 0 0). Qed.

(** X24. For a pattern with a non-zero width, height and horizontal
    aperture the intrinsic matrices get the same focal length in pixels on
    both axes, [width * focal_length / horizontal_aperture], whatever the
    height is, and the principal point at the aperture offsets times that
    focal length plus half the image size (over the real numbers). The other
    entries are kept. *)
Theorem intrinsic_matrices_have_square_pixels
    (pattern_cfg : PinholeCameraPatternCfg) (matrices : list mat3)
    (Hwidth : width pattern_cfg ≠ 0%nat)
    (Hheight : height pattern_cfg ≠ 0%nat)
    (Haperture : horizontal_aperture pattern_cfg <> 0) :
  let f := INR (width pattern_cfg) * focal_length pattern_cfg
           / horizontal_aperture pattern_cfg in
  let c_x := horizontal_aperture_offset pattern_cfg * f
             + INR (width pattern_cfg) / 2 in
  let c_y := vertical_aperture_offset pattern_cfg * f
             + INR (height pattern_cfg) / 2 in
  _compute_intrinsic_matrices pattern_cfg matrices
  = Ok ((fun m : mat3 =>
           ((f, m.1.1.1.2, c_x), (m.1.2.1.1, f, c_y), m.2)) <$> matrices).
Proof.
  intros f c_x c_y. unfold _compute_intrinsic_matrices.
  assert (INR (width pattern_cfg) <> 0) as Hw by (by apply not_0_INR).
  assert (INR (height pattern_cfg) <> 0) as Hh by (by apply not_0_INR).
  rewrite truediv_Ok by done. cbn [bind].
  rewrite truediv_Ok by done. cbn [bind].
  rewrite truediv_Ok.
  2:{ unfold Rdiv. apply Rmult_integral_contrapositive_currified.
      - by apply Rmult_integral_contrapositive_currified.
      - by apply Rinv_neq_0_compat. }
  cbn [bind].
  assert (INR (height pattern_cfg) * focal_length pattern_cfg
          / (horizontal_aperture pattern_cfg * INR (height pattern_cfg)
             / INR (width pattern_cfg)) = f) as ->.
  { unfold f. field. by split_and!. }
  f_equal. apply list_fmap_ext. intros i [[row0 row1] row2] _. done.
Qed.

(** X25. A pattern of width 0, of height 0 or with a horizontal aperture of
    0 makes [_compute_intrinsic_matrices] fail with a
    [ZeroDivisionError]. *)
Theorem degenerate_image_raises_ZeroDivisionError
    (pattern_cfg : PinholeCameraPatternCfg) (matrices : list mat3)
    (Hzero : width pattern_cfg = 0%nat \/ height pattern_cfg = 0%nat \/
             horizontal_aperture pattern_cfg = 0) :
  _compute_intrinsic_matrices pattern_cfg matrices = Raise ZeroDivisionError.
Proof.
  unfold _compute_intrinsic_matrices.
  destruct (decide (width pattern_cfg = 0%nat)) as [Hw|Hw].
  { rewrite Hw. cbn [INR]. by rewrite truediv_zero. }
  assert (INR (width pattern_cfg) <> 0) as Hw' by (by apply not_0_INR).
  rewrite truediv_Ok by done. cbn [bind].
  destruct (Req_EM_T (horizontal_aperture pattern_cfg) 0) as [Ha|Ha].
  { rewrite Ha. by rewrite truediv_zero. }
  rewrite truediv_Ok by done. cbn [bind].
  destruct Hzero as [?|[Hh|?]]; [done| |done].
  rewrite Hh. cbn [INR].
  replace (horizontal_aperture pattern_cfg * 0 / INR (width pattern_cfg))
    with 0 by (field; done).
  by rewrite truediv_zero.
Qed.

End Intrinsics.

Lemma camera_accepts_exactly_the_three_outputs_witness :
  let attrs := {| attr_cam_cam_data := None;
                  attr_cam_data := Some empty_CameraData |} in
  let cfg_data_types := ["distance_to_image_plane"; "normals"] in
  is_Some (attr_cam_data attrs) /\
  ((exists buffers, _create_buffers attrs 3 1 2 cfg_data_types = inr buffers)
   <-> Forall (fun name =>
                 name ∈ ["distance_to_image_plane"; "distance_to_camera";
                         "normals"]) cfg_data_types) /\
  ((exists buffers, _create_buffers attrs 3 1 2 cfg_data_types = inr buffers)
   -> _check_supported_data_types cfg_data_types = inr tt) /\
  ((forall buffers, _create_buffers attrs 3 1 2 cfg_data_types ≠ inr buffers)
   -> _create_buffers attrs 3 1 2 cfg_data_types
      = inl (ValueError "Received unknown data type")).
Proof.
  intros attrs cfg_data_types.
  assert (is_Some (attr_cam_data attrs)) as Hattr by (by eexists).
  split; [exact Hattr|].
  exact (camera_accepts_exactly_the_three_outputs attrs 3 1 2 cfg_data_types
           Hattr).
Defined.

Lemma camera_never_gets_its_buffers_witness :
  exists attrs,
    camera_init ["distance_to_image_plane"] (Ok tt) = inr attrs /\
    _create_buffers attrs 3 1 2 ["distance_to_image_plane"]
    = inl (Builtin AttributeError).
Proof.
  eassert (camera_init ["distance_to_image_plane"] (Ok tt) = inr _) as Hinit
    by reflexivity.
  eexists. split; [exact Hinit|].
  exact (camera_never_gets_its_buffers ["distance_to_image_plane"] (Ok tt) _
           3 1 2 Hinit).
Defined.

Lemma demo_aperture_nonzero : horizontal_aperture demo_pattern_cfg <> 0%R.
Proof. cbn. lra. Qed.

Lemma intrinsic_matrices_have_square_pixels_witness :
  let f := (INR 2 * 24 / (20955 / 1000))%R in
  _compute_intrinsic_matrices demo_pattern_cfg
    (replicate 3 (zeros3, zeros3, (0, 0, 1)%R))
  = Ok ((fun m : mat3 =>
           ((f, m.1.1.1.2, 0 * f + INR 2 / 2), (m.1.2.1.1, f, 0 * f + INR 1 / 2),
            m.2)%R)
          <$> replicate 3 (zeros3, zeros3, (0, 0, 1)%R)).
Proof.
  exact (intrinsic_matrices_have_square_pixels demo_pattern_cfg
           (replicate 3 (zeros3, zeros3, (0, 0, 1)%R))
           ltac:(discriminate) ltac:(discriminate) demo_aperture_nonzero).
Defined.

Lemma degenerate_image_raises_ZeroDivisionError_witness :
  let pattern_cfg :=
    {| width := 2; height := 0; focal_length := 24;
       horizontal_aperture := 20955 / 1000;
       horizontal_aperture_offset := 0; vertical_aperture_offset := 0 |} in
  _compute_intrinsic_matrices pattern_cfg [] = Raise ZeroDivisionError.
Proof.
  intros pattern_cfg.
  exact (degenerate_image_raises_ZeroDivisionError pattern_cfg []
           (or_intror (or_introl eq_refl))).
Defined.
